(** * iam-policies: the Statement matcher ([src/Statement.ts])

    A shallow embedding of [getValueFromPath], [applyContext], [range],
    [balanced], the [Matcher] class and the [Statement] class, together with
    the part of the host (ECMAScript strings and regular expressions) that
    these functions call.

    Conventions.
    - A JavaScript string is a [string]: a sequence of 8-bit code units.
    - A JavaScript number is a [Z] (integers, printed in decimal).
    - Code that can throw returns an [outcome]. *)

From Stdlib Require Import String Ascii List ZArith NArith Lia Bool DecimalString.
Import ListNotations.

Open Scope list_scope.
Open Scope string_scope.

(** ** Exceptions *)

Inductive exn :=
| TypeError (msg : string)
| SyntaxError (msg : string).

Inductive outcome (A : Type) :=
| Ok (a : A)
| Throw (e : exn).

Arguments Ok {A} a.
Arguments Throw {A} e.

Definition bind {A B : Type} (c : outcome A) (k : A -> outcome B) : outcome B :=
  match c with
  | Ok a => k a
  | Throw e => Throw e
  end.

Notation "x <- c ;; k" := (bind c (fun x => k))
  (at level 61, c at next level, right associativity).

(** ** Host strings *)

Module JsString.

Definition charCode (c : ascii) : N := N_of_ascii c.

(** [s.length] as a JavaScript number. *)
Definition len (s : string) : Z := Z.of_nat (String.length s).

(** White space and line terminators, as [String.prototype.trim] and the
    class escape [\s] see them (code units below 256). *)
Definition isWhiteSpace (c : ascii) : bool :=
  let n := charCode c in
  (N.leb 9 n && N.leb n 13) || N.eqb n 32 || N.eqb n 160.

Definition isLineTerminator (c : ascii) : bool :=
  let n := charCode c in N.eqb n 10 || N.eqb n 13.

Fixpoint trimStart (s : string) : string :=
  match s with
  | String c s' => if isWhiteSpace c then trimStart s' else s
  | EmptyString => EmptyString
  end.

Fixpoint trimEnd (s : string) : string :=
  match s with
  | String c s' =>
      match trimEnd s' with
      | EmptyString => if isWhiteSpace c then EmptyString else String c EmptyString
      | t => String c t
      end
  | EmptyString => EmptyString
  end.

(** [s.trim()] *)
Definition trim (s : string) : string := trimEnd (trimStart s).

(** [s.startsWith(p)], used by [indexOf]. *)
Fixpoint startsWith (p s : string) : bool :=
  match p, s with
  | EmptyString, _ => true
  | String a p', String b s' => Ascii.eqb a b && startsWith p' s'
  | String _ _, EmptyString => false
  end.

(** [s.indexOf(needle, from)]: [skip] code units are still to be passed over,
    [k] is the index of the head of [s]. *)
Fixpoint indexOfAux (needle s : string) (skip k : nat) {struct s} : Z :=
  match s with
  | EmptyString => if startsWith needle EmptyString then Z.of_nat k else (-1)%Z
  | String _ s' =>
      match skip with
      | S skip' => indexOfAux needle s' skip' (S k)
      | O => if startsWith needle s then Z.of_nat k
             else indexOfAux needle s' O (S k)
      end
  end.

Definition indexOf (s needle : string) (from : Z) : Z :=
  indexOfAux needle s (Z.to_nat from) 0.

(** Relative index of [slice]: negative counts from the end, then clamp. *)
Definition clampIndex (s : string) (i : Z) : nat :=
  let n := len s in
  Z.to_nat (if (i <? 0)%Z then Z.max (n + i) 0 else Z.min i n).

(** [s.slice(from, to)] and [s.slice(from)] *)
Definition slice (s : string) (from to : Z) : string :=
  let a := clampIndex s from in
  let b := clampIndex s to in
  substring a (b - a) s.

Definition sliceFrom (s : string) (from : Z) : string :=
  slice s from (len s).

(** [s.substr(start, length)] and [s.substr(start)] *)
Definition substr (s : string) (start length : Z) : string :=
  substring (clampIndex s start) (Z.to_nat length) s.

Definition substrFrom (s : string) (start : Z) : string :=
  substr s start (len s).

(** [s.split(sep)] for a one-unit separator: the first piece and the others
    (the result of [split] is never the empty array). *)
Fixpoint split (sep : ascii) (s : string) : string * list string :=
  match s with
  | EmptyString => (EmptyString, [])
  | String c s' =>
      let '(h, t) := split sep s' in
      if Ascii.eqb c sep then (EmptyString, h :: t) else (String c h, t)
  end.

Definition splitList (sep : ascii) (s : string) : list string :=
  let '(h, t) := split sep s in h :: t.

(** [xs.join(sep)] on strings *)
Fixpoint join (sep : string) (xs : list string) : string :=
  match xs with
  | [] => EmptyString
  | [x] => x
  | x :: xs' => x ++ sep ++ join sep xs'
  end.

(** Decimal form of an integer, as [String(n)] prints it. *)
Definition ofZ (n : Z) : string := NilZero.string_of_int (Z.to_int n).

End JsString.

(** ** Context values *)

#[warnings="-register-all"]
Inductive value :=
| VUndefined
| VNull
| VBool (b : bool)
| VNum (n : Z)
| VStr (s : string)
| VArr (elems : list value)
| VObj (props : list (string * value)).

(** A context of [Statement.matches] is typed [object]: a mapping from
    property names to values, in the order of [Object.keys].  Inherited
    properties are not modelled. *)
Definition object := list (string * value).

(** [Boolean(v)] *)
Definition truthy (v : value) : bool :=
  match v with
  | VUndefined | VNull => false
  | VBool b => b
  | VNum n => negb (Z.eqb n 0)
  | VStr s => negb (String.eqb s EmptyString)
  | VArr _ | VObj _ => true
  end.

(** [String(v)]; an array prints as its elements joined by commas, where
    [undefined] and [null] elements print as nothing. *)
Fixpoint ToString (v : value) : string :=
  match v with
  | VUndefined => "undefined"
  | VNull => "null"
  | VBool true => "true"
  | VBool false => "false"
  | VNum n => JsString.ofZ n
  | VStr s => s
  | VArr elems =>
      JsString.join ","
        (map (fun e => match e with
                       | VUndefined | VNull => EmptyString
                       | _ => ToString e
                       end) elems)
  | VObj _ => "[object Object]"
  end.

Fixpoint lookup {A : Type} (key : string) (props : list (string * A)) : option A :=
  match props with
  | [] => None
  | (k, v) :: props' => if String.eqb k key then Some v else lookup key props'
  end.

(** The array index a property name denotes, if it is one below [n]. *)
Fixpoint indexOfKey (key : string) (n : nat) : option nat :=
  match n with
  | O => None
  | S n' =>
      match indexOfKey key n' with
      | Some i => Some i
      | None => if String.eqb (JsString.ofZ (Z.of_nat n')) key then Some n' else None
      end
  end.

(** [v[key]] on a value that is neither [undefined] nor [null]. *)
Definition getProp (v : value) (key : string) : value :=
  match v with
  | VObj props =>
      match lookup key props with Some x => x | None => VUndefined end
  | VArr elems =>
      if String.eqb key "length" then VNum (Z.of_nat (List.length elems))
      else match indexOfKey key (List.length elems) with
           | Some i => nth i elems VUndefined
           | None => VUndefined
           end
  | VStr s =>
      if String.eqb key "length" then VNum (JsString.len s)
      else match indexOfKey key (String.length s) with
           | Some i => VStr (substring i 1 s)
           | None => VUndefined
           end
  | _ => VUndefined
  end.

(** [xs.reduce(f)] without an initial value, on a non-empty array given as
    its first element and the rest: the first element is the first
    accumulator and [f] is first called on the second element. *)
Definition reduce {A : Type} (f : A -> A -> A) (xs : A * list A) : A :=
  fold_left f (snd xs) (fst xs).

(** ** [getValueFromPath] *)

Definition getValueFromPath (data : object) (path : string) : value :=
  let '(first, others) := JsString.split "." path in
  let value :=
    reduce (fun key nextChild =>
              if truthy (getProp (VObj data) (ToString key))
              then getProp (getProp (VObj data) (ToString key)) (ToString nextChild)
              else VUndefined)
           (VStr first, map VStr others) in
  match value with
  | VArr _ => VStr ("{" ++ ToString value ++ "}")
  | _ => value
  end.

(** ** Host regular expressions

    The regular expressions of ECMAScript 2018 with the extensions of its
    Annex B, as the source uses them: no flag but [g], which only matters to
    [replace].  Abstract syntax, the backtracking matcher of the standard in
    continuation-passing style, and the pattern parser. *)

Module RegExp.

Inductive classItem :=
| CChar (c : N)
| CRange (lo hi : N)
| CDigit (neg : bool)
| CSpace (neg : bool)
| CWord (neg : bool).

Inductive regex :=
| Empty
| Char (c : N)
| Dot
| Class (neg : bool) (items : list classItem)
| Seq (r1 r2 : regex)
| Alt (r1 r2 : regex)
| Quant (min : N) (max : option N) (greedy : bool) (r : regex)
| Group (idx : nat) (r : regex)
| Backref (idx : nat)
| AssertStart
| AssertEnd
| WordBoundary (neg : bool)
| Look (behind neg : bool) (r : regex).

(** A matcher state: the input around the current position ([before] is
    reversed) and the captures made so far. *)
Record state := mkState {
  before : list ascii;
  after : string;
  caps : list (nat * string)
}.

Definition position (st : state) : nat := List.length (before st).

Definition isDigit (c : ascii) : bool :=
  let n := JsString.charCode c in N.leb 48 n && N.leb n 57.

Definition isWordChar (c : ascii) : bool :=
  let n := JsString.charCode c in
  (N.leb 97 n && N.leb n 122) || (N.leb 65 n && N.leb n 90)
  || (N.leb 48 n && N.leb n 57) || N.eqb n 95.

Definition classItemMatches (it : classItem) (c : ascii) : bool :=
  match it with
  | CChar x => N.eqb (JsString.charCode c) x
  | CRange lo hi => N.leb lo (JsString.charCode c) && N.leb (JsString.charCode c) hi
  | CDigit neg => xorb neg (isDigit c)
  | CSpace neg => xorb neg (JsString.isWhiteSpace c)
  | CWord neg => xorb neg (isWordChar c)
  end.

Definition classMatches (neg : bool) (items : list classItem) (c : ascii) : bool :=
  xorb neg (existsb (fun it => classItemMatches it c) items).

(** One code unit accepted by [p], forwards or backwards. *)
Definition step (p : ascii -> bool) (back : bool) (st : state)
  (k : state -> option state) : option state :=
  if back then
    match before st with
    | c :: b' => if p c then k (mkState b' (String c (after st)) (caps st)) else None
    | [] => None
    end
  else
    match after st with
    | String c a' => if p c then k (mkState (c :: before st) a' (caps st)) else None
    | EmptyString => None
    end.

(** Move [n] code units forwards or backwards, if there are that many. *)
Fixpoint advance (n : nat) (back : bool) (st : state) : option state :=
  match n with
  | O => Some st
  | S n' => step (fun _ => true) back st (advance n' back)
  end.

Fixpoint groupsIn (r : regex) : list nat :=
  match r with
  | Seq r1 r2 | Alt r1 r2 => (groupsIn r1 ++ groupsIn r2)%list
  | Quant _ _ _ r' | Look _ _ r' => groupsIn r'
  | Group idx r' => idx :: groupsIn r'
  | _ => []
  end.

Definition clearCaps (idxs : list nat) (st : state) : state :=
  mkState (before st) (after st)
    (filter (fun e => negb (existsb (Nat.eqb (fst e)) idxs)) (caps st)).

Fixpoint getCap (idx : nat) (cs : list (nat * string)) : option string :=
  match cs with
  | [] => None
  | (i, s) :: cs' => if Nat.eqb i idx then Some s else getCap idx cs'
  end.

Definition setCap (idx : nat) (s : string) (st : state) : state :=
  mkState (before st) (after st)
    ((idx, s) :: filter (fun e => negb (Nat.eqb (fst e) idx)) (caps st)).

(** The input between two states of one match. *)
Definition between (x y : state) : string :=
  if Nat.leb (position x) (position y)
  then substring 0 (position y - position x) (after x)
  else substring 0 (position x - position y) (after y).

(** Code units left in the direction of the match. *)
Definition remaining (back : bool) (st : state) : nat :=
  if back then position st else String.length (after st).

Definition decr (max : option N) : option N := option_map N.pred max.

(** The iterations of a quantifier over [body], the matcher of its operand
    (which first clears the captures of the operand).

    [mandatory] runs the [n] iterations the quantifier requires and goes on
    with [next].  [optional] runs the iterations it allows beyond those: at
    most [max] ([None] is no bound), greedy ones before the continuation [k],
    lazy ones after it.  An optional iteration that does not move is
    rejected, so at most as many of them follow one another as there are code
    units left: [fuel] starts from that number. *)
Fixpoint mandatory (body : state -> (state -> option state) -> option state)
  (next : state -> option state) (n : nat) (st : state) : option state :=
  match n with
  | S n' => body st (fun st' => mandatory body next n' st')
  | O => next st
  end.

Fixpoint optional (body : state -> (state -> option state) -> option state)
  (greedy : bool) (k : state -> option state) (fuel : nat) (max : option N)
  (st : state) : option state :=
  match max, fuel with
  | Some 0%N, _ => k st
  | _, O => k st
  | _, S fuel' =>
      if greedy then
        match body st (fun st' => if Nat.eqb (position st') (position st) then None
                                  else optional body greedy k fuel' (decr max) st') with
        | Some y => Some y
        | None => k st
        end
      else
        match k st with
        | Some y => Some y
        | None =>
            body st (fun st' => if Nat.eqb (position st') (position st) then None
                                else optional body greedy k fuel' (decr max) st')
        end
  end.

(** The matcher of [r]: [m r back st k] runs [r] from [st] in the given
    direction and hands every end state to the continuation [k], in the
    order of the standard, until [k] succeeds. *)
Fixpoint m (r : regex) (back : bool) (st : state) (k : state -> option state)
  {struct r} : option state :=
  match r with
  | Empty => k st
  | Char c => step (fun x => N.eqb (JsString.charCode x) c) back st k
  | Dot => step (fun x => negb (JsString.isLineTerminator x)) back st k
  | Class neg items => step (classMatches neg items) back st k
  | Seq r1 r2 =>
      if back then m r2 back st (fun st' => m r1 back st' k)
      else m r1 back st (fun st' => m r2 back st' k)
  | Alt r1 r2 =>
      match m r1 back st k with
      | Some y => Some y
      | None => m r2 back st k
      end
  | Quant min max greedy r' =>
      let body := fun st c => m r' back (clearCaps (groupsIn r') st) c in
      mandatory body
        (fun st' => optional body greedy k (remaining back st')
                      (option_map (fun mx => (mx - min)%N) max) st')
        (N.to_nat min) st
  | Group idx r' => m r' back st (fun st' => k (setCap idx (between st st') st'))
  | Backref idx =>
      match getCap idx (caps st) with
      | None => k st
      | Some s =>
          match advance (String.length s) back st with
          | Some st' => if String.eqb (between st st') s then k st' else None
          | None => None
          end
      end
  | AssertStart => match before st with [] => k st | _ => None end
  | AssertEnd => match after st with EmptyString => k st | _ => None end
  | WordBoundary neg =>
      let a := match before st with c :: _ => isWordChar c | [] => false end in
      let b := match after st with String c _ => isWordChar c | EmptyString => false end in
      if xorb (xorb a b) neg then k st else None
  | Look behind neg r' =>
      match m r' behind st Some with
      | Some y => if neg then None else k (mkState (before st) (after st) (caps y))
      | None => if neg then k st else None
      end
  end.

(** The first match at or after the current position: its start and end
    states ([RegExpBuiltinExec] without the sticky flag). *)
Fixpoint execFrom (r : regex) (bef : list ascii) (s : string) : option (state * state) :=
  let st := mkState bef s [] in
  match m r false st Some with
  | Some e => Some (st, e)
  | None =>
      match s with
      | String c s' => execFrom r (c :: bef) s'
      | EmptyString => None
      end
  end.

Definition exec (r : regex) (s : string) : option (state * state) := execFrom r [] s.

(** [r.test(s)], which is also [Boolean(s.match(r))]. *)
Definition test (r : regex) (s : string) : bool :=
  match exec r s with Some _ => true | None => false end.

(** [s.replace(r, f)] for [r] with the global flag: [f] gets the matched text
    and the captures.  [skip] code units of a match are still to be passed
    over; after an empty match the next attempt is one unit further. *)
Fixpoint replaceFrom (r : regex) (f : string -> list (nat * string) -> string)
  (bef : list ascii) (s : string) (skip : nat) {struct s} : string :=
  match skip with
  | S skip' =>
      match s with
      | String c s' => replaceFrom r f (c :: bef) s' skip'
      | EmptyString => EmptyString
      end
  | O =>
      match m r false (mkState bef s []) Some with
      | Some e =>
          let n := position e - List.length bef in
          f (substring 0 n s) (caps e) ++
          match s with
          | String c s' =>
              match n with
              | O => String c (replaceFrom r f (c :: bef) s' O)
              | S n' => replaceFrom r f (c :: bef) s' n'
              end
          | EmptyString => EmptyString
          end
      | None =>
          match s with
          | String c s' => String c (replaceFrom r f (c :: bef) s' O)
          | EmptyString => EmptyString
          end
      end
  end.

Definition replace (r : regex) (f : string -> list (nat * string) -> string)
  (s : string) : string :=
  replaceFrom r f [] s 0.

(** The replacement text ['$1']: the first capture, or nothing. *)
Definition dollar1 (_ : string) (cs : list (nat * string)) : string :=
  match getCap 1 cs with Some s => s | None => EmptyString end.

(** *** The pattern parser

    Patterns are read in three passes: the capturing groups are counted and
    their names collected ([scanGroups]), the source is cut into tokens
    ([lex]), and the tokens are assembled with a stack of open groups
    ([parseTokens]).  A token longer than one code unit is read by looking
    ahead, and the code units it covers are then passed over ([skip]). *)

Definition isC (c x : ascii) : bool := Ascii.eqb c x.
Arguments isC c%_char x%_char.

Definition decVal (c : ascii) : option N :=
  let n := JsString.charCode c in
  if N.leb 48 n && N.leb n 57 then Some (n - 48)%N else None.

Definition octVal (c : ascii) : option N :=
  let n := JsString.charCode c in
  if N.leb 48 n && N.leb n 55 then Some (n - 48)%N else None.

Definition hexVal (c : ascii) : option N :=
  let n := JsString.charCode c in
  if N.leb 48 n && N.leb n 57 then Some (n - 48)%N
  else if N.leb 97 n && N.leb n 102 then Some (n - 87)%N
  else if N.leb 65 n && N.leb n 70 then Some (n - 55)%N
  else None.

Definition isLetter (c : ascii) : bool :=
  let n := JsString.charCode c in
  (N.leb 97 n && N.leb n 122) || (N.leb 65 n && N.leb n 90).

(** Exactly [n] hexadecimal digits at the head of [s]. *)
Fixpoint readHex (n : nat) (s : string) (acc : N) : option N :=
  match n with
  | O => Some acc
  | S n' =>
      match s with
      | String c s' =>
          match hexVal c with
          | Some d => readHex n' s' (acc * 16 + d)%N
          | None => None
          end
      | EmptyString => None
      end
  end.

(** The decimal digits at the head of [s]: their value and their number. *)
Fixpoint readDigits (s : string) (acc : N) (n : nat) : N * nat :=
  match s with
  | String c s' =>
      match decVal c with
      | Some d => readDigits s' (acc * 10 + d)%N (S n)
      | None => (acc, n)
      end
  | EmptyString => (acc, n)
  end.

Fixpoint drop (n : nat) (s : string) : string :=
  match n, s with
  | S n', String _ s' => drop n' s'
  | _, _ => s
  end.

(** Identifier characters of a group name.  Code units from 256 on, which
    only an escape can denote, are all taken as letters. *)
Definition idStart (n : N) : bool :=
  (N.leb 97 n && N.leb n 122) || (N.leb 65 n && N.leb n 90)
  || N.eqb n 36 || N.eqb n 95
  || N.eqb n 170 || N.eqb n 181 || N.eqb n 186
  || (N.leb 192 n && N.leb n 214) || (N.leb 216 n && N.leb n 246)
  || N.leb 248 n.

Definition idPart (n : N) : bool :=
  idStart n || (N.leb 48 n && N.leb n 57) || N.eqb n 183.

(** A group name up to its closing [>]: the name and the code units read,
    [>] included. *)
Fixpoint readName (s : string) (skip : nat) (acc : list N) (n : nat)
  {struct s} : option (list N * nat) :=
  match s with
  | EmptyString => None
  | String c s' =>
      match skip with
      | S skip' => readName s' skip' acc (S n)
      | O =>
          let ok := fun x => match acc with [] => idStart x | _ => idPart x end in
          if isC c ">" then
            match acc with [] => None | _ => Some (rev acc, S n) end
          else if isC c "\" then
            match s' with
            | String u h =>
                if isC u "u" then
                  match readHex 4 h 0 with
                  | Some x => if ok x then readName s' 5 (x :: acc) (S n) else None
                  | None => None
                  end
                else None
            | EmptyString => None
            end
          else if ok (JsString.charCode c)
          then readName s' 0 (JsString.charCode c :: acc) (S n)
          else None
      end
  end.

(** The capturing groups of a pattern in the order of their left
    parentheses, each with its name if it has one. *)
Fixpoint scanGroups (s : string) (inClass escaped : bool) : list (option (list N)) :=
  match s with
  | EmptyString => []
  | String c s' =>
      if escaped then scanGroups s' inClass false
      else if isC c "\" then scanGroups s' inClass true
      else if inClass then scanGroups s' (negb (isC c "]")) false
      else if isC c "[" then scanGroups s' true false
      else if isC c "(" then
        match s' with
        | String q t =>
            if isC q "?" then
              match t with
              | String lt t' =>
                  if isC lt "<" then
                    match t' with
                    | String x _ =>
                        if isC x "=" || isC x "!" then scanGroups s' false false
                        else Some (match readName t' 0 [] 0 with
                                   | Some (nm, _) => nm
                                   | None => []
                                   end) :: scanGroups s' false false
                    | EmptyString => Some [] :: scanGroups s' false false
                    end
                  else scanGroups s' false false
              | EmptyString => scanGroups s' false false
              end
            else None :: scanGroups s' false false
        | EmptyString => [None]
        end
      else scanGroups s' false false
  end.

Fixpoint nameEq (a b : list N) : bool :=
  match a, b with
  | [], [] => true
  | x :: a', y :: b' => N.eqb x y && nameEq a' b'
  | _, _ => false
  end.

(** The number of the group called [nm]. *)
Fixpoint groupNamed (nm : list N) (names : list (option (list N))) (i : nat) : option nat :=
  match names with
  | [] => None
  | Some x :: names' => if nameEq x nm then Some i else groupNamed nm names' (S i)
  | None :: names' => groupNamed nm names' (S i)
  end.

Fixpoint hasDuplicate (names : list (option (list N))) : bool :=
  match names with
  | [] => false
  | Some x :: names' =>
      match groupNamed x names' 0 with
      | Some _ => true
      | None => hasDuplicate names'
      end
  | None :: names' => hasDuplicate names'
  end.

Definition hasNamed (names : list (option (list N))) : bool :=
  existsb (fun o => match o with Some _ => true | None => false end) names.

(** What an escape denotes inside or outside a class. *)
Inductive escaped :=
| EChar (c : N)
| EClass (it : classItem).

(** A legacy octal escape whose first digit is [d1]: its value and length. *)
Definition legacyOctal (d1 : N) (s : string) : N * nat :=
  match s with
  | String c2 s' =>
      match octVal c2 with
      | Some d2 =>
          if N.leb d1 3 then
            match s' with
            | String c3 _ =>
                match octVal c3 with
                | Some d3 => ((d1 * 64 + d2 * 8 + d3)%N, 3)
                | None => ((d1 * 8 + d2)%N, 2)
                end
            | EmptyString => ((d1 * 8 + d2)%N, 2)
            end
          else ((d1 * 8 + d2)%N, 2)
      | None => (d1, 1)
      end
  | EmptyString => (d1, 1)
  end.

(** The escapes common to atoms and classes.  [e] follows the backslash and
    [s] follows [e]; the result comes with the code units read after the
    backslash (none when the backslash stands for itself before [c]). *)
Definition lexCharEscape (inClass named : bool) (e : ascii) (s : string)
  : outcome (escaped * nat) :=
  if isC e "d" then Ok (EClass (CDigit false), 1)
  else if isC e "D" then Ok (EClass (CDigit true), 1)
  else if isC e "s" then Ok (EClass (CSpace false), 1)
  else if isC e "S" then Ok (EClass (CSpace true), 1)
  else if isC e "w" then Ok (EClass (CWord false), 1)
  else if isC e "W" then Ok (EClass (CWord true), 1)
  else if isC e "f" then Ok (EChar 12, 1)
  else if isC e "n" then Ok (EChar 10, 1)
  else if isC e "r" then Ok (EChar 13, 1)
  else if isC e "t" then Ok (EChar 9, 1)
  else if isC e "v" then Ok (EChar 11, 1)
  else if isC e "c" then
    match s with
    | String x _ =>
        if isLetter x || (inClass && (isDigit x || isC x "_"))
        then Ok (EChar (N.modulo (JsString.charCode x) 32), 2)
        else Ok (EChar 92, 0)
    | EmptyString => Ok (EChar 92, 0)
    end
  else if isC e "x" then
    match readHex 2 s 0 with
    | Some x => Ok (EChar x, 3)
    | None => Ok (EChar (JsString.charCode e), 1)
    end
  else if isC e "u" then
    match readHex 4 s 0 with
    | Some x => Ok (EChar x, 5)
    | None => Ok (EChar (JsString.charCode e), 1)
    end
  else if isC e "k" then
    if named then Throw (SyntaxError "Invalid named reference")
    else Ok (EChar (JsString.charCode e), 1)
  else
    match octVal e with
    | Some d1 => let '(x, n) := legacyOctal d1 s in Ok (EChar x, n)
    | None => Ok (EChar (JsString.charCode e), 1)
    end.

Inductive groupKind :=
| GCapture
| GNonCapture
| GLook (behind neg : bool).

Inductive token :=
| TAtom (r : regex)
| TAssert (r : regex)
| TQuant (min : N) (max : option N) (greedy : bool)
| TOpen (k : groupKind)
| TClose
| TBar.

Definition atomOf (e : escaped) : regex :=
  match e with
  | EChar c => Char c
  | EClass it => Class false [it]
  end.

(** An escape in atom position; [s] follows the backslash. *)
Definition lexEscape (names : list (option (list N))) (s : string)
  : outcome (token * nat) :=
  match s with
  | EmptyString => Throw (SyntaxError "\ at end of pattern")
  | String e s' =>
      if isC e "b" then Ok (TAssert (WordBoundary false), 1)
      else if isC e "B" then Ok (TAssert (WordBoundary true), 1)
      else if isC e "k" && hasNamed names then
        match s' with
        | String lt t =>
            if isC lt "<" then
              match readName t 0 [] 0 with
              | Some (nm, n) =>
                  match groupNamed nm names 1 with
                  | Some i => Ok (TAtom (Backref i), 2 + n)
                  | None => Throw (SyntaxError "Invalid named capture referenced")
                  end
              | None => Throw (SyntaxError "Invalid named reference")
              end
            else Throw (SyntaxError "Invalid named reference")
        | EmptyString => Throw (SyntaxError "Invalid named reference")
        end
      else
        let '(x, n) := readDigits s 0 0 in
        if negb (isC e "0") && negb (Nat.eqb n 0)
           && N.leb x (N.of_nat (List.length names))
        then Ok (TAtom (Backref (N.to_nat x)), n)
        else
          r <- lexCharEscape false (hasNamed names) e s' ;;
          Ok (TAtom (atomOf (fst r)), snd r)
  end.

(** An atom of a class at the head of [s], with its length. *)
Definition classAtom (named : bool) (s : string) : outcome (escaped * nat) :=
  match s with
  | EmptyString => Throw (SyntaxError "Unterminated character class")
  | String c s' =>
      if isC c "\" then
        match s' with
        | EmptyString => Throw (SyntaxError "\ at end of pattern")
        | String e s'' =>
            if isC e "b" then Ok (EChar 8, 2)
            else r <- lexCharEscape true named e s'' ;; Ok (fst r, S (snd r))
        end
      else Ok (EChar (JsString.charCode c), 1)
  end.

Definition itemOf (e : escaped) : classItem :=
  match e with
  | EChar c => CChar c
  | EClass it => it
  end.

(** [a-b] in a class: a range, or, when an end is a class escape, both ends
    and the dash. *)
Definition classRange (a b : escaped) : outcome (list classItem) :=
  match a, b with
  | EChar x, EChar y =>
      if N.leb x y then Ok [CRange x y]
      else Throw (SyntaxError "Range out of order in character class")
  | _, _ => Ok [itemOf a; CChar 45; itemOf b]
  end.

(** The items of a class up to its closing bracket, and the code units read,
    the bracket included. *)
Fixpoint lexClassItems (named : bool) (s : string) (skip n : nat) {struct s}
  : outcome (list classItem * nat) :=
  match s with
  | EmptyString => Throw (SyntaxError "Unterminated character class")
  | String c s' =>
      match skip with
      | S skip' => lexClassItems named s' skip' (S n)
      | O =>
          if isC c "]" then Ok ([], S n)
          else
            a <- classAtom named s ;;
            r <- match drop (snd a) s with
                 | String dash (String d t) =>
                     if isC dash "-" && negb (isC d "]") then
                       b <- classAtom named (String d t) ;;
                       items <- classRange (fst a) (fst b) ;;
                       Ok (items, snd a + snd b)
                     else Ok ([itemOf (fst a)], snd a - 1)
                 | _ => Ok ([itemOf (fst a)], snd a - 1)
                 end ;;
            rest <- lexClassItems named s' (snd r) (S n) ;;
            Ok ((fst r ++ fst rest)%list, snd rest)
      end
  end.

(** A class; [s] follows the opening bracket. *)
Definition lexClass (named : bool) (s : string) : outcome (token * nat) :=
  match s with
  | String c s' =>
      if isC c "^" then
        r <- lexClassItems named s' 0 0 ;;
        Ok (TAtom (Class true (fst r)), S (snd r))
      else
        r <- lexClassItems named s 0 0 ;;
        Ok (TAtom (Class false (fst r)), snd r)
  | EmptyString => Throw (SyntaxError "Unterminated character class")
  end.

(** A quantifier may be followed by [?], which makes it lazy. *)
Definition lexLazy (min : N) (max : option N) (n : nat) (s : string) : token * nat :=
  match s with
  | String q _ => if isC q "?" then (TQuant min max false, S n) else (TQuant min max true, n)
  | EmptyString => (TQuant min max true, n)
  end.

(** A braced quantifier; [s] follows the opening brace.  [None] when the
    brace does not open a quantifier and stands for itself. *)
Definition lexBraces (s : string) : option (outcome (token * nat)) :=
  let '(lo, n1) := readDigits s 0 0 in
  match n1 with
  | O => None
  | S _ =>
      match drop n1 s with
      | String c t =>
          if isC c "}" then Some (Ok (lexLazy lo (Some lo) (S n1) t))
          else if isC c "," then
            match t with
            | String c2 t2 =>
                if isC c2 "}" then Some (Ok (lexLazy lo None (2 + n1) t2))
                else
                  let '(hi, n2) := readDigits t 0 0 in
                  match n2 with
                  | O => None
                  | S _ =>
                      match drop n2 t with
                      | String c3 t3 =>
                          if isC c3 "}" then
                            if N.leb lo hi
                            then Some (Ok (lexLazy lo (Some hi) (2 + n1 + n2) t3))
                            else Some (Throw (SyntaxError "numbers out of order in {} quantifier"))
                          else None
                      | EmptyString => None
                      end
                  end
            | EmptyString => None
            end
          else None
      | EmptyString => None
      end
  end.

(** A left parenthesis; [s] follows it. *)
Definition lexOpen (s : string) : outcome (token * nat) :=
  match s with
  | String q t =>
      if isC q "?" then
        match t with
        | String x t' =>
            if isC x ":" then Ok (TOpen GNonCapture, 2)
            else if isC x "=" then Ok (TOpen (GLook false false), 2)
            else if isC x "!" then Ok (TOpen (GLook false true), 2)
            else if isC x "<" then
              match t' with
              | String y _ =>
                  if isC y "=" then Ok (TOpen (GLook true false), 3)
                  else if isC y "!" then Ok (TOpen (GLook true true), 3)
                  else match readName t' 0 [] 0 with
                       | Some (_, n) => Ok (TOpen GCapture, 2 + n)
                       | None => Throw (SyntaxError "Invalid capture group name")
                       end
              | EmptyString => Throw (SyntaxError "Invalid capture group name")
              end
            else Throw (SyntaxError "Invalid group")
        | EmptyString => Throw (SyntaxError "Invalid group")
        end
      else Ok (TOpen GCapture, 0)
  | EmptyString => Ok (TOpen GCapture, 0)
  end.

(** The token that starts with [c], and the code units it covers after [c]. *)
Definition lexOne (names : list (option (list N))) (c : ascii) (s : string)
  : outcome (token * nat) :=
  if isC c "^" then Ok (TAssert AssertStart, 0)
  else if isC c "$" then Ok (TAssert AssertEnd, 0)
  else if isC c "." then Ok (TAtom Dot, 0)
  else if isC c "*" then Ok (lexLazy 0 None 0 s)
  else if isC c "+" then Ok (lexLazy 1 None 0 s)
  else if isC c "?" then Ok (lexLazy 0 (Some 1%N) 0 s)
  else if isC c "{" then
    match lexBraces s with
    | Some r => r
    | None => Ok (TAtom (Char (JsString.charCode c)), 0)
    end
  else if isC c "(" then lexOpen s
  else if isC c ")" then Ok (TClose, 0)
  else if isC c "|" then Ok (TBar, 0)
  else if isC c "[" then lexClass (hasNamed names) s
  else if isC c "\" then lexEscape names s
  else Ok (TAtom (Char (JsString.charCode c)), 0).

Fixpoint lex (names : list (option (list N))) (s : string) (skip : nat) {struct s}
  : outcome (list token) :=
  match s with
  | EmptyString => Ok []
  | String c s' =>
      match skip with
      | S skip' => lex names s' skip'
      | O =>
          r <- lexOne names c s' ;;
          toks <- lex names s' (snd r) ;;
          Ok (fst r :: toks)
      end
  end.

(** An open group while its body is read: the alternatives finished so far
    and the terms of the current one, latest first; a term is paired with
    whether a quantifier may follow it. *)
Record frame := mkFrame {
  fkind : groupKind;
  fidx : nat;
  falts : list regex;
  fseq : list (regex * bool)
}.

Definition seqOf (terms : list (regex * bool)) : regex :=
  fold_left (fun acc t => match acc with
                          | Empty => fst t
                          | _ => Seq (fst t) acc
                          end) terms Empty.

Definition altOf (f : frame) : regex :=
  fold_left (fun acc a => Alt a acc) (falts f) (seqOf (fseq f)).

Definition pushTerm (t : regex * bool) (f : frame) : frame :=
  mkFrame (fkind f) (fidx f) (falts f) (t :: fseq f).

Definition closeGroup (f : frame) : regex * bool :=
  match fkind f with
  | GCapture => (Group (fidx f) (altOf f), true)
  | GNonCapture => (altOf f, true)
  | GLook behind neg => (Look behind neg (altOf f), negb behind)
  end.

Fixpoint parseTokens (toks : list token) (cur : frame) (stack : list frame)
  (next : nat) : outcome regex :=
  match toks with
  | [] =>
      match stack with
      | [] => Ok (altOf cur)
      | _ :: _ => Throw (SyntaxError "Unterminated group")
      end
  | t :: toks' =>
      match t with
      | TAtom r => parseTokens toks' (pushTerm (r, true) cur) stack next
      | TAssert r => parseTokens toks' (pushTerm (r, false) cur) stack next
      | TQuant min max greedy =>
          match fseq cur with
          | (r, true) :: terms =>
              parseTokens toks'
                (mkFrame (fkind cur) (fidx cur) (falts cur)
                   ((Quant min max greedy r, false) :: terms))
                stack next
          | _ => Throw (SyntaxError "Nothing to repeat")
          end
      | TOpen GCapture =>
          parseTokens toks' (mkFrame GCapture next [] []) (cur :: stack) (S next)
      | TOpen k =>
          parseTokens toks' (mkFrame k 0 [] []) (cur :: stack) next
      | TClose =>
          match stack with
          | parent :: stack' =>
              parseTokens toks' (pushTerm (closeGroup cur) parent) stack' next
          | [] => Throw (SyntaxError "Unmatched ')'")
          end
      | TBar =>
          parseTokens toks'
            (mkFrame (fkind cur) (fidx cur) (seqOf (fseq cur) :: falts cur) [])
            stack next
      end
  end.

(** [new RegExp(source)] *)
Definition create (source : string) : outcome regex :=
  let names := scanGroups source false false in
  if hasDuplicate names then Throw (SyntaxError "Duplicate capture group name")
  else
    toks <- lex names source 0 ;;
    parseTokens toks (mkFrame GNonCapture 0 [] []) [] 1.

End RegExp.

(** A regular expression literal of the source: the literals used below are
    all well formed. *)
Definition regExpLiteral (source : string) : RegExp.regex :=
  match RegExp.create source with
  | Ok r => r
  | Throw _ => RegExp.Empty
  end.

(** ** [applyContext] *)

(** [const reDelimiters = /\${([^}])*}/g] *)
Definition reDelimiters : RegExp.regex :=
  Eval vm_compute in regExpLiteral "\${([^}])*}".

(** [const trim = / +(?= )|^\s+|\s+$/g] *)
Definition trim : RegExp.regex :=
  Eval vm_compute in regExpLiteral " +(?= )|^\s+|\s+$".

Definition specialTrim (str : string) : string :=
  RegExp.replace trim (fun _ _ => EmptyString) str.

(** The callback of [str.replace(reDelimiters, ...)] in [applyContext] *)
Definition replacer (context : object) (match_ : string) : string :=
  let path := JsString.substr match_ 2 (JsString.len match_ - 3) in
  if negb (String.eqb match_ EmptyString)
  then ToString (getValueFromPath context path)
  else EmptyString.

Definition applyContext (str : string) (context : option object) : string :=
  match context with
  | None => str
  | Some ctx =>
      specialTrim (RegExp.replace reDelimiters (fun match_ _ => replacer ctx match_) str)
  end.

(** ** [range] and [balanced] *)

Definition range (a b str : string) : Z * Z :=
  let left := JsString.indexOf str a 0 in
  let right := JsString.indexOf str b (left + 1) in
  if (left >=? 0)%Z && (right >? 0)%Z then (left, right) else ((-1)%Z, (-1)%Z).

Record Balance := mkBalance {
  start : Z;
  end_ : Z;
  pre : string;
  body : string;
  post : string
}.

Definition balanced (a b str : string) : Balance :=
  let r := range a b str in
  mkBalance (fst r) (snd r)
    (if (fst r >=? 0)%Z then JsString.slice str 0 (fst r) else EmptyString)
    (if (fst r >=? 0)%Z then JsString.slice str (fst r + JsString.len a) (snd r)
     else EmptyString)
    (if (fst r >=? 0)%Z then JsString.sliceFrom str (snd r + JsString.len b)
     else EmptyString).

(** ** [Matcher] *)

Module Matcher.

(** An element of [set]: a string or a regular expression. *)
Inductive compiled :=
| Literal (s : string)
| Pattern (r : RegExp.regex).

Record t := mk {
  pattern : string;
  set : list compiled;
  empty : bool;
  hasSpecialCharacter : bool
}.

(** [/{.*}/] in [braceExpand] *)
Definition reBraces : RegExp.regex := Eval vm_compute in regExpLiteral "{.*}".

(** [/\$$/] in [expand] *)
Definition reDollarEnd : RegExp.regex := Eval vm_compute in regExpLiteral "\$$".

(** [/\\(.)/g] in [parse] *)
Definition reEscape : RegExp.regex := Eval vm_compute in regExpLiteral "\\(.)".

(** [new RegExp('$.')] in [parse] *)
Definition reNothing : RegExp.regex := Eval vm_compute in regExpLiteral "$.".

(** The body of [expand], with [recur] for the recursive call
    [this.expand(balance.post, false)]. *)
Definition expandBody (recur : string -> list string) (str : string) (isTop : bool)
  : list string :=
  let balance := balanced "{" "}" str in
  if (start balance <? 0)%Z || RegExp.test reDollarEnd (pre balance) then [str]
  else
    let parts :=
      if String.eqb (body balance) EmptyString then [EmptyString]
      else JsString.splitList "," (body balance) in
    let postParts :=
      if negb (Z.eqb (JsString.len (post balance)) 0) then recur (post balance)
      else [EmptyString] in
    flat_map (fun part =>
      flat_map (fun postPart =>
        let expansion := pre balance ++ part ++ postPart in
        if negb isTop || negb (String.eqb expansion EmptyString)
        then [expansion] else [])
      postParts)
    parts.

(** [expand]: the recursive call is on [balance.post], which is shorter than
    [str], so the length of [str] bounds the depth of the recursion. *)
Fixpoint expandFuel (fuel : nat) (str : string) (isTop : bool) : list string :=
  expandBody (match fuel with
              | S fuel' => fun post => expandFuel fuel' post false
              | O => fun _ => []
              end) str isTop.

Definition expand (str : string) (isTop : bool) : list string :=
  expandFuel (String.length str) str isTop.

Definition braceExpand (pattern : string) : list string :=
  if negb (RegExp.test reBraces pattern) then [pattern]
  else
    let pattern :=
      if String.eqb (JsString.substr pattern 0 2) "{}"
      then "\{\}" ++ JsString.substrFrom pattern 2
      else pattern in
    expand pattern true.

(** The loop of [parse]: the translation of the rest of the pattern and the
    flag [hasSpecialCharacter] after it. *)
Fixpoint scan (pattern : string) (flag : bool) : string * bool :=
  match pattern with
  | EmptyString => (EmptyString, flag)
  | String c rest =>
      if Ascii.eqb c "*" then
        let '(re, flag') := scan rest true in ("[^/]*?" ++ re, flag')
      else
        let '(re, flag') := scan rest flag in (String c re, flag')
  end.

(** The argument of [new RegExp] in [parse]: the translation, with the guard
    [(?=.)] in front when it is not empty and the flag is set, between [^]
    and [$]. *)
Definition source (hasSpecialCharacter : bool) (pattern : string) : string :=
  let '(re, flag) := scan pattern hasSpecialCharacter in
  let re := if negb (String.eqb re EmptyString) && flag then "(?=.)" ++ re else re in
  "^" ++ re ++ "$".

(** [parse] reads and writes [this.hasSpecialCharacter]: the flag comes in as
    an argument and goes out with the result. *)
Definition parse (hasSpecialCharacter : bool) (pattern : string)
  : outcome (compiled * bool) :=
  if (JsString.len pattern >? 1024 * 64)%Z then Throw (TypeError "pattern is too long")
  else if String.eqb pattern EmptyString then Ok (Literal EmptyString, hasSpecialCharacter)
  else
    let flag := snd (scan pattern hasSpecialCharacter) in
    if negb flag then Ok (Literal (RegExp.replace reEscape RegExp.dollar1 pattern), flag)
    else
      match RegExp.create (source hasSpecialCharacter pattern) with
      | Ok regExp => Ok (Pattern regExp, flag)
      | Throw _ => Ok (Pattern reNothing, flag)
      end.

(** [set.map(val => this.parse(val))] *)
Fixpoint parseAll (flag : bool) (vals : list string) : outcome (list compiled * bool) :=
  match vals with
  | [] => Ok ([], flag)
  | val :: vals' =>
      r <- parse flag val ;;
      rest <- parseAll (snd r) vals' ;;
      Ok (fst r :: fst rest, snd rest)
  end.

(** [Boolean(s)] on an element of [set] *)
Definition isTruthy (s : compiled) : bool :=
  match s with
  | Literal x => negb (String.eqb x EmptyString)
  | Pattern _ => true
  end.

(** [new Matcher(pattern)] *)
Definition new (pattern : string) : outcome t :=
  let pattern := JsString.trim pattern in
  let empty := String.eqb pattern EmptyString in
  r <- parseAll false (braceExpand pattern) ;;
  Ok (mk pattern (filter isTruthy (fst r)) empty (snd r)).

Definition matchOne (str : string) (pattern : compiled) : bool :=
  if negb (isTruthy pattern) then false
  else
    match pattern with
    | Literal p => String.eqb str p
    | Pattern r => RegExp.test r str
    end.

Definition match_ (m : t) (str : string) : bool :=
  if empty m then String.eqb str EmptyString
  else existsb (matchOne str) (set m).

End Matcher.

(** ** [Statement] *)

(** [xs.some(f)] and [xs.every(f)] for a callback that can throw *)
Fixpoint some {A : Type} (f : A -> outcome bool) (xs : list A) : outcome bool :=
  match xs with
  | [] => Ok false
  | x :: xs' => b <- f x ;; if b then Ok true else some f xs'
  end.

Fixpoint every {A : Type} (f : A -> outcome bool) (xs : list A) : outcome bool :=
  match xs with
  | [] => Ok true
  | x :: xs' => b <- f x ;; if b then every f xs' else Ok false
  end.

Inductive StatementEffect := allow | deny.

Definition StatementPattern := string.

Definition Condition := list (string * value).

Definition StatementConditions := list (string * Condition).

(** [StatementPattern[] | StatementPattern] *)
Inductive patterns :=
| One (p : StatementPattern)
| Many (ps : list StatementPattern).

Record StatementConfig := mkConfig {
  cfg_effect : option StatementEffect;
  cfg_resource : patterns;
  cfg_action : patterns;
  cfg_condition : option StatementConditions
}.

Definition Resolver := value -> value -> bool.

Definition ConditionResolver := list (string * Resolver).

Definition keys {A : Type} (o : list (string * A)) : list string := map fst o.

Module Statement.

Record t := mk {
  effect : StatementEffect;
  resource : list StatementPattern;
  action : list StatementPattern;
  condition : option StatementConditions
}.

Definition new (config : StatementConfig) : t :=
  mk (match cfg_effect config with Some e => e | None => allow end)
     (match cfg_resource config with One p => [p] | Many ps => ps end)
     (match cfg_action config with One p => [p] | Many ps => ps end)
     (cfg_condition config).

(** [new Matcher(applyContext(p, context)).match(str)] *)
Definition matchPattern (context : option object) (str : string) (p : StatementPattern)
  : outcome bool :=
  m <- Matcher.new (applyContext p context) ;;
  Ok (Matcher.match_ m str).

(** [this.condition[condition]] and [this.condition[condition][path]] *)
Definition conditionAt (cond : StatementConditions) (c : string) : Condition :=
  match lookup c cond with Some paths => paths | None => [] end.

Definition expectedAt (cond : StatementConditions) (c path : string) : value :=
  match lookup path (conditionAt cond c) with
  | Some expected => expected
  | None => VUndefined
  end.

(** [conditionResolvers[condition](data, expected)]: calling a missing
    resolver throws. *)
Definition callResolver (resolvers : ConditionResolver) (c : string)
  (data expected : value) : outcome bool :=
  match lookup c resolvers with
  | Some resolver => Ok (resolver data expected)
  | None => Throw (TypeError "conditionResolvers[condition] is not a function")
  end.

Definition matches (this : t) (action_ resource_ : string)
  (context : option object) (conditionResolvers : option ConditionResolver)
  : outcome bool :=
  a <- some (matchPattern context action_) (action this) ;;
  if negb a then Ok false
  else
    r <- some (matchPattern context resource_) (resource this) ;;
    if negb r then Ok false
    else
      match conditionResolvers, condition this, context with
      | Some resolvers, Some cond, Some ctx =>
          every (fun c =>
            every (fun path =>
              callResolver resolvers c (getValueFromPath ctx path) (expectedAt cond c path))
              (keys (conditionAt cond c)))
            (keys cond)
      | _, _, _ => Ok true
      end.

End Statement.

(** ** Vocabulary of the properties *)

(** [c.repeat(n)] *)
Definition repeatChar (n : N) (c : ascii) : string :=
  N.iter n (String c) EmptyString.

(** [s] contains the code unit [c]. *)
Fixpoint contains (c : ascii) (s : string) : bool :=
  match s with
  | EmptyString => false
  | String x s' => Ascii.eqb x c || contains c s'
  end.

(** Some alternative of the brace expansion of the trimmed pattern is longer
    than the guard of [parse] allows. *)
Definition oversized (p : string) : bool :=
  existsb (fun alt => (JsString.len alt >? 1024 * 64)%Z)
    (Matcher.braceExpand (JsString.trim p)).

(** What [new Matcher(p).match(str)] evaluates to. *)
Definition matcherMatch (p str : string) : outcome bool :=
  m <- Matcher.new p ;; Ok (Matcher.match_ m str).

(** The exception of the length guard of [parse] *)
Definition tooLong : exn := TypeError "pattern is too long".

(** The regular expression [parse] builds for a star-free alternative [b]
    once the flag is set: [b] is its source, between the guard and [$]. *)
Definition asExpression (b : string) : Matcher.compiled :=
  Matcher.Pattern
    (match RegExp.create ("^(?=.)" ++ b ++ "$") with
     | Ok r => r
     | Throw _ => Matcher.reNothing
     end).

(** Clauses (i) and (ii) of [Statement.matches]: some pattern of the list,
    interpolated against the context, compiles to a Matcher that matches. *)
Definition somePatternMatches (context : option object) (str : string)
  (ps : list StatementPattern) : Prop :=
  exists p m, In p ps /\ Matcher.new (applyContext p context) = Ok m
              /\ Matcher.match_ m str = true.

(** Clause (iii): when resolvers, conditions and context are all there, every
    resolver named in the conditions returns [true] on every path under its
    name; otherwise nothing is asked. *)
Definition conditionsHold (conditionResolvers : option ConditionResolver)
  (condition : option StatementConditions) (context : option object) : Prop :=
  match conditionResolvers, condition, context with
  | Some resolvers, Some cond, Some ctx =>
      forall c path,
        In c (keys cond) -> In path (keys (Statement.conditionAt cond c)) ->
        exists resolver,
          lookup c resolvers = Some resolver
          /\ resolver (getValueFromPath ctx path) (Statement.expectedAt cond c path) = true
  | _, _, _ => True
  end.

(** Every condition name has an entry among the resolvers. *)
Definition resolversComplete (conditionResolvers : option ConditionResolver)
  (condition : option StatementConditions) : Prop :=
  match conditionResolvers, condition with
  | Some resolvers, Some cond =>
      forall c, In c (keys cond) -> exists resolver, lookup c resolvers = Some resolver
  | _, _ => True
  end.

(** The resolver [(a, b) => a === b] on primitive values *)
Definition equals : Resolver :=
  fun a b =>
    match a, b with
    | VUndefined, VUndefined | VNull, VNull => true
    | VBool x, VBool y => Bool.eqb x y
    | VNum x, VNum y => Z.eqb x y
    | VStr x, VStr y => String.eqb x y
    | _, _ => false
    end.

(** [s] ends with the code unit [c]. *)
Fixpoint endsWith (c : ascii) (s : string) : bool :=
  match s with
  | EmptyString => false
  | String x EmptyString => Ascii.eqb x c
  | String _ s' => endsWith c s'
  end.

(** The cross product of the specification: [pre + part + postPart] for
    every part and every alternative of the remainder, parts first. *)
Definition crossProduct (pre : string) (parts postParts : list string) : list string :=
  flat_map (fun part => map (fun postPart => pre ++ part ++ postPart) postParts) parts.

(** At the top level [expand] leaves the empty concatenations out. *)
Definition keepAtTop (isTop : bool) (alternatives : list string) : list string :=
  filter (fun e => negb isTop || negb (String.eqb e EmptyString)) alternatives.

(** The index of the first [}] of [s]. *)
Fixpoint closing (s : string) : option nat :=
  match s with
  | EmptyString => None
  | String c s' => if Ascii.eqb c "}" then Some 0 else option_map S (closing s')
  end.

(** A placeholder [${path}] at the head of [s], up to the nearest [}]: the
    length of its path. *)
Definition placeholderAt (s : string) : option nat :=
  match s with
  | String d (String b rest) =>
      if Ascii.eqb d "$" && Ascii.eqb b "{" then closing rest else None
  | _ => None
  end.

(** Interpolation in the words of the specification: from left to right,
    every placeholder is replaced by the rendering of its path, and all
    other text is kept.  [skip] code units of a placeholder are still to be
    passed over. *)
Fixpoint substitute (render : string -> string) (s : string) (skip : nat) {struct s}
  : string :=
  match s with
  | EmptyString => EmptyString
  | String c s' =>
      match skip with
      | S skip' => substitute render s' skip'
      | O =>
          match placeholderAt s with
          | Some n => render (substring 2 n s) ++ substitute render s' (2 + n)
          | None => String c (substitute render s' 0)
          end
      end
  end.

Definition interpolate (context : object) (str : string) : string :=
  substitute (fun path => ToString (getValueFromPath context path)) str 0.

(** The two code units [${] occur in [s]. *)
Fixpoint opensPlaceholder (s : string) : bool :=
  match s with
  | EmptyString => false
  | String d rest =>
      (Ascii.eqb d "$" && JsString.startsWith "{" rest) || opensPlaceholder rest
  end.

(** No code unit of [s] is white space. *)
Fixpoint noWhiteSpace (s : string) : bool :=
  match s with
  | EmptyString => true
  | String c rest => negb (JsString.isWhiteSpace c) && noWhiteSpace rest
  end.

(** A code unit with no special meaning in the source of a regular
    expression, and which is not the wildcard. *)
Definition isPlain (c : ascii) : bool :=
  negb (existsb (Ascii.eqb c)
          ["^"; "$"; "."; "*"; "+"; "?"; "{"; "("; ")"; "|"; "["; "\"]%char).

(** An alternative made of wildcards and plain code units. *)
Fixpoint isGlob (alt : string) : bool :=
  match alt with
  | EmptyString => true
  | String c rest => (Ascii.eqb c "*" || isPlain c) && isGlob rest
  end.

(** The wildcard semantics of an alternative: a star stands for any run of
    code units other than [/], every other code unit for itself. *)
Fixpoint globMatch (alt : string) (s : string) : bool :=
  match alt with
  | EmptyString => match s with EmptyString => true | String _ _ => false end
  | String c rest =>
      if Ascii.eqb c "*" then
        (fix star (s : string) : bool :=
           globMatch rest s
           || match s with
              | String x s' => negb (Ascii.eqb x "/") && star s'
              | EmptyString => false
              end) s
      else
        match s with
        | String x s' => Ascii.eqb x c && globMatch rest s'
        | EmptyString => false
        end
  end.

(** The guard [(?=.)]: the candidate starts with a code unit that is not a
    line terminator. *)
Definition startsOnLine (s : string) : bool :=
  match s with
  | String x _ => negb (JsString.isLineTerminator x)
  | EmptyString => false
  end.

(** The translation of the loop of [parse]. *)
Fixpoint translation (alt : string) : string :=
  match alt with
  | EmptyString => EmptyString
  | String c rest =>
      (if Ascii.eqb c "*" then "[^/]*?" else String c EmptyString) ++ translation rest
  end.

(** The regular expression of a wildcard alternative, term by term. *)
Definition globTerm (c : ascii) : RegExp.regex :=
  if Ascii.eqb c "*"
  then RegExp.Quant 0 None false (RegExp.Class true [RegExp.CChar 47])
  else RegExp.Char (JsString.charCode c).

Fixpoint globTerms (alt : string) : list RegExp.regex :=
  match alt with
  | EmptyString => []
  | String c rest => globTerm c :: globTerms rest
  end.

Fixpoint seqList (terms : list RegExp.regex) : RegExp.regex :=
  match terms with
  | [] => RegExp.Empty
  | [t] => t
  | t :: ts => RegExp.Seq t (seqList ts)
  end.

Definition globRegex (alt : string) : RegExp.regex :=
  seqList (RegExp.AssertStart :: RegExp.Look false false RegExp.Dot
           :: (globTerms alt ++ [RegExp.AssertEnd])%list).

(** The tokens of the translation of a wildcard alternative, and the terms
    the parser makes of them (each with whether a quantifier may follow). *)
Fixpoint globTokens (alt : string) : list RegExp.token :=
  match alt with
  | EmptyString => []
  | String c rest =>
      if Ascii.eqb c "*"
      then RegExp.TAtom (RegExp.Class true [RegExp.CChar 47])
           :: RegExp.TQuant 0 None false :: globTokens rest
      else RegExp.TAtom (RegExp.Char (JsString.charCode c)) :: globTokens rest
  end.

Fixpoint globPairs (alt : string) : list (RegExp.regex * bool) :=
  match alt with
  | EmptyString => []
  | String c rest => (globTerm c, negb (Ascii.eqb c "*")) :: globPairs rest
  end.

Definition isSome {A : Type} (o : option A) : bool :=
  match o with Some _ => true | None => false end.

(** What [getValueFromPath] makes of the value it has reached: an array is
    printed between braces. *)
Definition rendered (v : value) : value :=
  match v with
  | VArr _ => VStr ("{" ++ ToString v ++ "}")
  | _ => v
  end.

(** The last key of a dotted path. *)
Definition lastKey (path : string) : string :=
  last (JsString.splitList "." path) EmptyString.

(** A pattern without its escapes: from left to right, a backslash before a
    code unit other than a line terminator is dropped and that code unit is
    kept, whatever it is. *)
Fixpoint unescape (s : string) : string :=
  match s with
  | EmptyString => EmptyString
  | String a s' =>
      match s' with
      | String c rest =>
          if Ascii.eqb a "\" && negb (JsString.isLineTerminator c)
          then String c (unescape rest)
          else String a (unescape s')
      | EmptyString => String a EmptyString
      end
  end.

(** The length of the run of code units satisfying [p] at the head of [s],
    and whether all of [s] is such a run. *)
Fixpoint run (p : ascii -> bool) (s : string) : nat :=
  match s with
  | String c rest => if p c then S (run p rest) else 0
  | EmptyString => 0
  end.

Fixpoint allOf (p : ascii -> bool) (s : string) : bool :=
  match s with
  | EmptyString => true
  | String c rest => p c && allOf p rest
  end.

(** A code unit that means nothing to interpolation, brace expansion or
    wildcard compilation: no white space and none of [{ } , * \ $]. *)
Definition isLiteralChar (c : ascii) : bool :=
  negb (JsString.isWhiteSpace c)
  && negb (existsb (Ascii.eqb c) ["{"; "}"; ","; "*"; "\"; "$"]%char).

Fixpoint isLiteral (s : string) : bool :=
  match s with
  | EmptyString => true
  | String c rest => isLiteralChar c && isLiteral rest
  end.

(** A word: a non-empty string of such code units. *)
Definition isWord (s : string) : bool :=
  negb (String.eqb s EmptyString) && isLiteral s.

(** A code unit that means nothing to interpolation and brace expansion (a
    [*] is allowed), a text of such code units, and such a text in which
    every code unit but [*] is plain in a regular expression too. *)
Definition isSegmentChar (c : ascii) : bool :=
  negb (JsString.isWhiteSpace c)
  && negb (existsb (Ascii.eqb c) ["{"; "}"; ","; "\"; "$"]%char).

Definition isSegment (s : string) : bool := allOf isSegmentChar s.

Definition isGlobSegment (s : string) : bool := isSegment s && isGlob s.

(** A word within the length guard of [parse]. *)
Definition isShortWord (p : string) : bool :=
  isWord p && (JsString.len p <=? 1024 * 64)%Z.

(** The number of occurrences of the code unit [c] in [s]. *)
Fixpoint count (c : ascii) (s : string) : nat :=
  match s with
  | EmptyString => 0
  | String x rest => (if Ascii.eqb x c then 1 else 0) + count c rest
  end.

(** The patterns of a configuration entry, one or many. *)
Definition asList (ps : patterns) : list StatementPattern :=
  match ps with
  | One p => [p]
  | Many l => l
  end.

Definition isSpace (c : ascii) : bool := Ascii.eqb c " ".

Definition nextIsSpace (s : string) : bool :=
  match s with
  | String d _ => isSpace d
  | EmptyString => false
  end.

(** What [specialTrim] does, code unit by code unit.  At the first code unit
    of the string the mode is [AtStart], inside the run of white space that
    starts the string it is [Leading], and [Inside] everywhere else.
    - A space followed by a space is dropped.
    - Otherwise white space at the very start of the string is dropped, with
      all the white space that follows it.
    - Otherwise white space that runs to the end of the string is dropped.
    - Every other code unit is kept. *)
Inductive trimMode := AtStart | Leading | Inside.

Fixpoint squeeze (mode : trimMode) (s : string) : string :=
  match s with
  | EmptyString => EmptyString
  | String c rest =>
      match mode with
      | Leading =>
          if JsString.isWhiteSpace c then squeeze Leading rest
          else String c (squeeze Inside rest)
      | _ =>
          if isSpace c && nextIsSpace rest then squeeze Inside rest
          else if (match mode with AtStart => true | _ => false end)
                  && JsString.isWhiteSpace c then squeeze Leading rest
          else if JsString.isWhiteSpace c && allOf JsString.isWhiteSpace rest
               then EmptyString
          else String c (squeeze Inside rest)
      end
  end.

(** The mode at a position, from the code units before it. *)
Definition modeOf (bef : list ascii) : trimMode :=
  match bef with [] => AtStart | _ :: _ => Inside end.

(** The length of the match of [trim] at the head of [s], if there is one:
    all the spaces of a run but the last, or the white space at the start of
    the string, or the white space up to its end. *)
Definition trimMatch (bef : list ascii) (s : string) : option nat :=
  match s with
  | EmptyString => None
  | String c rest =>
      if isSpace c && nextIsSpace rest then Some (run isSpace rest)
      else if (match bef with [] => true | _ => false end) && JsString.isWhiteSpace c
           then Some (S (run JsString.isWhiteSpace rest))
      else if JsString.isWhiteSpace c && allOf JsString.isWhiteSpace rest
           then Some (S (String.length rest))
      else None
  end.

(** Two spaces in a row somewhere in [s]; white space at its end; white
    space, or two spaces, at its start. *)
Fixpoint doubleSpace (s : string) : bool :=
  match s with
  | EmptyString => false
  | String c rest => (isSpace c && nextIsSpace rest) || doubleSpace rest
  end.

Fixpoint endsWithWhite (s : string) : bool :=
  match s with
  | EmptyString => false
  | String c EmptyString => JsString.isWhiteSpace c
  | String _ rest => endsWithWhite rest
  end.

Definition startsWithWhite (s : string) : bool :=
  match s with
  | String c _ => JsString.isWhiteSpace c
  | EmptyString => false
  end.

Definition startsWithTwoSpaces (s : string) : bool :=
  match s with
  | String c rest => isSpace c && nextIsSpace rest
  | EmptyString => false
  end.

(** ** The part of the host that the values describe *)

(** [getProp] and [ToString] are the property access and the string
    conversion of the host on the plain data of [value]: own properties, and
    conversions that return.  The predicates below say where they are those
    of the host. *)

(** The names every object inherits from [Object.prototype] (ECMAScript 2018
    with Annex B).  For a key that is none of them an object that does not
    hold the key answers [undefined], as [getProp] does. *)
Definition inheritedName (key : string) : bool :=
  existsb (String.eqb key)
    ["constructor"; "hasOwnProperty"; "isPrototypeOf"; "propertyIsEnumerable";
     "toLocaleString"; "toString"; "valueOf"; "__proto__"; "__defineGetter__";
     "__defineSetter__"; "__lookupGetter__"; "__lookupSetter__"].

(** The values [v] on which [String(v)] returns, and returns [ToString v]:
    [undefined], [null], booleans, strings, the integers that a number holds
    exactly and prints in decimal, the objects that have no [toString]
    property of their own (with one, which is data and cannot be called, the
    conversion raises a [TypeError]), and the arrays of such values. *)
Fixpoint printable (v : value) : bool :=
  match v with
  | VUndefined | VNull | VBool _ | VStr _ => true
  | VNum n => (Z.abs n <? 2 ^ 53)%Z
  | VArr elems => forallb printable elems
  | VObj props =>
      match lookup "toString" props with
      | None => true
      | Some _ => false
      end
  end.

(** A context of two levels of plain data: every property of the context is
    falsy or an object, and every property of such an object has a string
    form, which is not an inherited name. *)
Definition plainContext (data : object) : bool :=
  forallb (fun kv =>
             match snd kv with
             | VObj props =>
                 forallb (fun kw => printable (snd kw)
                                    && negb (inheritedName (ToString (snd kw)))) props
             | v => negb (truthy v)
             end) data.

(** No key of a dotted path is an inherited name. *)
Definition plainPath (path : string) : bool :=
  forallb (fun key => negb (inheritedName key)) (JsString.splitList "." path).

(** Every path of every condition of a statement has one key. *)
Definition oneKeyPaths (condition : option StatementConditions) : bool :=
  match condition with
  | Some cond =>
      forallb (fun entry => forallb (fun path => negb (contains "." path)) (keys (snd entry)))
        cond
  | None => true
  end.

(** The paths of the placeholders of a pattern, from left to right, as
    [substitute] meets them. *)
Fixpoint placeholders (s : string) (skip : nat) {struct s} : list string :=
  match s with
  | EmptyString => []
  | String c s' =>
      match skip with
      | S skip' => placeholders s' skip'
      | O =>
          match placeholderAt s with
          | Some n => substring 2 n s :: placeholders s' (2 + n)
          | None => placeholders s' 0
          end
      end
  end.

(** The wildcard semantics without empty segments: a star stands for a run
    of one or more code units other than [/], every other code unit for
    itself. *)
Fixpoint segmentMatch (alt : string) (s : string) : bool :=
  match alt with
  | EmptyString => match s with EmptyString => true | String _ _ => false end
  | String c rest =>
      if Ascii.eqb c "*" then
        (fix star (s : string) : bool :=
           match s with
           | String x s' => negb (Ascii.eqb x "/") && (segmentMatch rest s' || star s')
           | EmptyString => false
           end) s
      else
        match s with
        | String x s' => Ascii.eqb x c && segmentMatch rest s'
        | EmptyString => false
        end
  end.

(** ** The regular expressions of the source *)

(** The literals of the source are well formed: each constant above is what
    [new RegExp] makes of its text. *)
Lemma source_literals_are_well_formed :
  RegExp.create "\${([^}])*}" = Ok reDelimiters
  /\ RegExp.create " +(?= )|^\s+|\s+$" = Ok trim
  /\ RegExp.create "{.*}" = Ok Matcher.reBraces
  /\ RegExp.create "\$$" = Ok Matcher.reDollarEnd
  /\ RegExp.create "\\(.)" = Ok Matcher.reEscape
  /\ RegExp.create "$." = Ok Matcher.reNothing.
Proof. repeat split; vm_compute; reflexivity. Qed.

(** ** Properties of [getValueFromPath] *)

Lemma split_without sep s :
  contains sep s = false -> JsString.split sep s = (s, []).
Proof.
  induction s as [|c s IH]; [reflexivity|].
  cbn [contains JsString.split]. intros H. apply orb_false_iff in H.
  destruct H as [Hc H]. rewrite (IH H), Hc. reflexivity.
Qed.

Lemma split_first sep k rest :
  contains sep k = false ->
  JsString.split sep (k ++ String sep rest) = (k, JsString.splitList sep rest).
Proof.
  induction k as [|c k IH]; intros H.
  - cbn [append JsString.split]. unfold JsString.splitList.
    destruct (JsString.split sep rest). rewrite Ascii.eqb_refl. reflexivity.
  - cbn [contains] in H. apply orb_false_iff in H. destruct H as [Hc H].
    cbn [append JsString.split]. rewrite (IH H), Hc. reflexivity.
Qed.

(** C3: the reducer of [getValueFromPath] has no initial value, so the
    first key is the first accumulator and every accumulator is used as a
    key of the context.  A one-key path returns the key itself, not the
    value stored under it; a two-key path [a.b] returns the value at [a]
    then [b]; a three-key path [a.b.c] looks the value of [a.b] up as a key
    of the context and returns what is under [c] there. *)
Theorem getValueFromPath_single_key_returns_key :
  (forall data k, contains "." k = false -> getValueFromPath data k = VStr k)
  /\ (forall data a b,
        contains "." a = false -> contains "." b = false ->
        getValueFromPath data (a ++ "." ++ b)
        = let value := if truthy (getProp (VObj data) a)
                       then getProp (getProp (VObj data) a) b
                       else VUndefined in
          match value with
          | VArr _ => VStr ("{" ++ ToString value ++ "}")
          | _ => value
          end)
  /\ (forall data a b c,
        contains "." a = false -> contains "." b = false -> contains "." c = false ->
        getValueFromPath data (a ++ "." ++ b ++ "." ++ c)
        = let ab := if truthy (getProp (VObj data) a)
                    then getProp (getProp (VObj data) a) b
                    else VUndefined in
          let value := if truthy (getProp (VObj data) (ToString ab))
                       then getProp (getProp (VObj data) (ToString ab)) c
                       else VUndefined in
          match value with
          | VArr _ => VStr ("{" ++ ToString value ++ "}")
          | _ => value
          end)
  /\ getValueFromPath [("k", VStr "v")] "k" = VStr "k"
  /\ getValueFromPath [("a", VObj [("b", VObj [("c", VStr "x")])])] "a.b.c" = VUndefined
  /\ getValueFromPath [("a", VObj [("b", VStr "z")]); ("z", VObj [("c", VStr "y")])]
       "a.b.c" = VStr "y".
Proof.
  split.
  { intros data k H. unfold getValueFromPath. rewrite split_without by exact H.
    reflexivity. }
  split.
  { intros data a b Ha Hb. unfold getValueFromPath.
    change (a ++ "." ++ b) with (a ++ String "." b).
    rewrite split_first by exact Ha. unfold JsString.splitList.
    rewrite split_without by exact Hb. reflexivity. }
  split.
  { intros data a b c Ha Hb Hc. unfold getValueFromPath.
    change (a ++ "." ++ b ++ "." ++ c) with (a ++ String "." (b ++ String "." c)).
    rewrite split_first by exact Ha. unfold JsString.splitList.
    rewrite split_first by exact Hb. unfold JsString.splitList.
    rewrite split_without by exact Hc. reflexivity. }
  repeat split; reflexivity.
Qed.

(** ** Properties of [Matcher] *)

Section ParseLemmas.

Local Open Scope Z_scope.

Lemma scan_flag_true pattern : snd (Matcher.scan pattern true) = true.
Proof.
  induction pattern as [|c rest IH]; simpl; [reflexivity|].
  destruct (Ascii.eqb c "*"); destruct (Matcher.scan rest true); exact IH.
Qed.

Lemma scan_no_star pattern flag :
  contains "*" pattern = false -> Matcher.scan pattern flag = (pattern, flag).
Proof.
  induction pattern as [|c rest IH]; simpl; [reflexivity|].
  destruct (Ascii.eqb c "*"); simpl; [discriminate|].
  intros H. rewrite (IH H). reflexivity.
Qed.

Lemma scan_star pattern flag :
  contains "*" pattern = true -> snd (Matcher.scan pattern flag) = true.
Proof.
  revert flag. induction pattern as [|c rest IH]; simpl; [discriminate|].
  intros flag. destruct (Ascii.eqb c "*"); simpl.
  - intros _. generalize (scan_flag_true rest).
    destruct (Matcher.scan rest true); simpl; auto.
  - intros H. generalize (IH flag H).
    destruct (Matcher.scan rest flag); simpl; auto.
Qed.

(** The only exception [parse] raises is the one of its length guard. *)
Lemma parse_too_long flag pattern :
  JsString.len pattern > 1024 * 64 ->
  Matcher.parse flag pattern = Throw (TypeError "pattern is too long").
Proof.
  intros H. unfold Matcher.parse.
  destruct (Z.gtb_spec (JsString.len pattern) (1024 * 64)); [reflexivity|lia].
Qed.

Lemma parse_within_guard flag pattern :
  JsString.len pattern <= 1024 * 64 ->
  exists c, Matcher.parse flag pattern = Ok (c, snd (Matcher.scan pattern flag)).
Proof.
  intros H. unfold Matcher.parse.
  destruct (Z.gtb_spec (JsString.len pattern) (1024 * 64)); [lia|].
  destruct (String.eqb_spec pattern EmptyString) as [->|_]; [eexists; reflexivity|].
  destruct (snd (Matcher.scan pattern flag)); simpl; [|eexists; reflexivity].
  destruct (RegExp.create _); eexists; reflexivity.
Qed.

Lemma parseAll_too_long vals : forall flag,
  existsb (fun alt => JsString.len alt >? 1024 * 64) vals = true ->
  Matcher.parseAll flag vals = Throw (TypeError "pattern is too long").
Proof.
  induction vals as [|v vals IH]; simpl; [discriminate|].
  intros flag H.
  destruct (Z.gtb_spec (JsString.len v) (1024 * 64)) as [Hv|Hv].
  - rewrite parse_too_long by lia. reflexivity.
  - destruct (parse_within_guard flag v) as [c ->]; [lia|].
    apply orb_true_iff in H. destruct H as [H|H].
    + apply Z.gtb_lt in H. lia.
    + cbn [bind fst snd]. rewrite IH by exact H. reflexivity.
Qed.

Lemma parseAll_within_guard vals : forall flag,
  existsb (fun alt => JsString.len alt >? 1024 * 64) vals = false ->
  exists cs flag', Matcher.parseAll flag vals = Ok (cs, flag').
Proof.
  induction vals as [|v vals IH]; simpl; intros flag H; [eauto|].
  apply orb_false_iff in H. destruct H as [Hv H].
  destruct (parse_within_guard flag v) as [c ->].
  { rewrite Z.gtb_ltb in Hv. apply Z.ltb_ge in Hv. lia. }
  simpl. destruct (IH (snd (Matcher.scan v flag)) H) as (cs & f & ->).
  simpl. eauto.
Qed.

Lemma new_oversized p :
  oversized p = true -> Matcher.new p = Throw (TypeError "pattern is too long").
Proof.
  intros H. unfold Matcher.new. rewrite parseAll_too_long by exact H. reflexivity.
Qed.

Lemma new_within_guard p :
  oversized p = false -> exists m, Matcher.new p = Ok m.
Proof.
  intros H. unfold Matcher.new.
  destruct (parseAll_within_guard (Matcher.braceExpand (JsString.trim p)) false H)
    as (cs & f & ->).
  simpl. eauto.
Qed.

End ParseLemmas.

(** C6: the escaped braces of a leading [{}] are still seen by [expand],
    which knows no escapes: the group between them is expanded, the pattern
    ["{}abc"] compiles to the literal [\abc] and does not match ["{}abc"]. *)
Theorem leading_empty_braces_are_expanded :
  Matcher.braceExpand "{}abc" = ["\\abc"]
  /\ (exists m, Matcher.new "{}abc" = Ok m /\ Matcher.set m = [Matcher.Literal "\abc"])
  /\ matcherMatch "{}abc" "{}abc" = Ok false
  /\ matcherMatch "{}abc" "\abc" = Ok true.
Proof.
  split; [vm_compute; reflexivity|].
  split; [eexists; split; vm_compute; reflexivity|].
  split; vm_compute; reflexivity.
Qed.

Section SomeEvery.

Local Open Scope list_scope.

Context {A : Type} (f : A -> outcome bool).

Lemma some_skip l1 l2 :
  (forall x, In x l1 -> f x = Ok false) -> some f (l1 ++ l2) = some f l2.
Proof.
  induction l1 as [|x l1 IH]; simpl; intros H; [reflexivity|].
  rewrite (H x) by auto. simpl. apply IH. auto.
Qed.

Lemma some_throw l1 x l2 e :
  (forall y, In y l1 -> f y = Ok false) -> f x = Throw e ->
  some f (l1 ++ x :: l2) = Throw e.
Proof.
  intros H Hx. rewrite some_skip by exact H. simpl. rewrite Hx. reflexivity.
Qed.

Lemma some_true_iff l :
  some f l = Ok true <->
  exists l1 x l2, l = l1 ++ x :: l2 /\ (forall y, In y l1 -> f y = Ok false) /\ f x = Ok true.
Proof.
  induction l as [|x l IH]; simpl.
  - split; [discriminate|]. intros (l1 & y & l2 & H & _). destruct l1; discriminate.
  - destruct (f x) as [[|]|e] eqn:E; simpl.
    + split; [|reflexivity]. intros _. exists [], x, l. simpl. repeat split; auto.
      intros y [].
    + rewrite IH. split.
      * intros (l1 & y & l2 & -> & H1 & H2). exists (x :: l1), y, l2.
        repeat split; auto. intros z [<-|Hz]; auto.
      * intros (l1 & y & l2 & H & H1 & H2). destruct l1 as [|z l1]; simpl in H.
        -- injection H as -> ->. congruence.
        -- injection H as -> ->. exists l1, y, l2. repeat split; auto.
           intros w Hw. apply H1. right. exact Hw.
    + split; [discriminate|].
      intros (l1 & y & l2 & H & H1 & H2). destruct l1 as [|z l1]; simpl in H.
      * injection H as -> ->. congruence.
      * injection H as -> ->. rewrite (H1 z) in E by (left; reflexivity). discriminate.
Qed.

Lemma some_false_iff l :
  some f l = Ok false <-> forall x, In x l -> f x = Ok false.
Proof.
  induction l as [|x l IH]; simpl.
  - split; [intros _ x []|reflexivity].
  - destruct (f x) as [[|]|e] eqn:E; simpl.
    + split; [discriminate|]. intros H. rewrite (H x) in E by auto. discriminate.
    + rewrite IH. split; [intros H y [<-|Hy]; auto|auto].
    + split; [discriminate|]. intros H. rewrite (H x) in E by auto. discriminate.
Qed.

Lemma every_true_iff l :
  every f l = Ok true <-> forall x, In x l -> f x = Ok true.
Proof.
  induction l as [|x l IH]; simpl.
  - split; [intros _ x []|reflexivity].
  - destruct (f x) as [[|]|e] eqn:E; simpl.
    + rewrite IH. split; [intros H y [<-|Hy]; auto|auto].
    + split; [discriminate|]. intros H. rewrite (H x) in E by auto. discriminate.
    + split; [discriminate|]. intros H. rewrite (H x) in E by auto. discriminate.
Qed.

Lemma every_total l :
  (forall x, In x l -> exists b, f x = Ok b) -> exists b, every f l = Ok b.
Proof.
  induction l as [|x l IH]; simpl; intros H; [eauto|].
  destruct (H x) as [b ->]; [auto|]. simpl.
  destruct b; [apply IH; auto|eauto].
Qed.

Lemma some_total l :
  (forall x, In x l -> exists b, f x = Ok b) -> exists b, some f l = Ok b.
Proof.
  induction l as [|x l IH]; simpl; intros H; [eauto|].
  destruct (H x) as [b ->]; [auto|]. simpl.
  destruct b; [eauto|apply IH; auto].
Qed.

End SomeEvery.

Lemma matchPattern_oversized context str q :
  oversized (applyContext q context) = true ->
  Statement.matchPattern context str q = Throw tooLong.
Proof.
  intros H. unfold Statement.matchPattern. rewrite new_oversized by exact H. reflexivity.
Qed.

(** C8: an alternative longer than 65536 code units makes [new Matcher]
    throw, and [Statement.matches] throws with it as soon as it reaches that
    pattern, among the actions or among the resources: no pattern before it
    has matched.  The result is never [false]. *)
Theorem oversized_pattern_is_fatal (p : string) (H : oversized p = true) :
  Matcher.new p = Throw tooLong
  /\ (forall context q l1 l2 this action_ resource_ resolvers,
        applyContext q context = p ->
        Statement.action this = (l1 ++ q :: l2)%list ->
        (forall x, In x l1 -> Statement.matchPattern context action_ x = Ok false) ->
        Statement.matches this action_ resource_ context resolvers = Throw tooLong)
  /\ (forall context q l1 l2 this action_ resource_ resolvers,
        applyContext q context = p ->
        some (Statement.matchPattern context action_) (Statement.action this) = Ok true ->
        Statement.resource this = (l1 ++ q :: l2)%list ->
        (forall x, In x l1 -> Statement.matchPattern context resource_ x = Ok false) ->
        Statement.matches this action_ resource_ context resolvers = Throw tooLong).
Proof.
  split; [apply new_oversized; exact H|].
  split.
  - intros context q l1 l2 this action_ resource_ resolvers Hq Ha Hl1.
    unfold Statement.matches. rewrite Ha.
    rewrite (some_throw _ l1 q l2 tooLong); auto.
    apply matchPattern_oversized. rewrite Hq. exact H.
  - intros context q l1 l2 this action_ resource_ resolvers Hq Ha Hr Hl1.
    unfold Statement.matches. rewrite Ha. simpl. rewrite Hr.
    rewrite (some_throw _ l1 q l2 tooLong); auto.
    apply matchPattern_oversized. rewrite Hq. exact H.
Qed.

(** A pattern of 70000 code units is one oversized alternative. *)
Lemma oversized_pattern_is_fatal_witness :
  oversized (repeatChar 70000 "a") = true
  /\ oversized (repeatChar 65536 "a") = false
  /\ Matcher.new (repeatChar 70000 "a") = Throw tooLong
  /\ Statement.matches
       (Statement.new (mkConfig None (One "*") (One (repeatChar 70000 "a")) None))
       "read" "docs" None None = Throw tooLong.
Proof.
  assert (H : oversized (repeatChar 70000 "a") = true) by (vm_compute; reflexivity).
  destruct (oversized_pattern_is_fatal (repeatChar 70000 "a") H) as (H1 & H2 & _).
  split; [exact H|]. split; [vm_compute; reflexivity|]. split; [exact H1|].
  apply (H2 None (repeatChar 70000 "a") [] []); [reflexivity|reflexivity|].
  intros x [].
Defined.

Lemma reNothing_fails_from str : forall bef,
  RegExp.execFrom Matcher.reNothing bef str = None.
Proof.
  induction str as [|c str IH]; intros bef; simpl; [reflexivity|apply IH].
Qed.

Lemma reNothing_never str : RegExp.test Matcher.reNothing str = false.
Proof.
  unfold RegExp.test, RegExp.exec. rewrite reNothing_fails_from. reflexivity.
Qed.

(** C9: when [parse] gets as far as [new RegExp] (the alternative passes the
    length guard and the flag is set) and the translation is not a valid
    regular expression, [parse] returns normally, with the expression [$.],
    and no string matches that alternative. *)
Theorem malformed_translation_matches_nothing (flag : bool) (pattern : string) (e : exn)
  (Hlen : (JsString.len pattern <= 1024 * 64)%Z)
  (Hflag : snd (Matcher.scan pattern flag) = true)
  (Hbad : RegExp.create (Matcher.source flag pattern) = Throw e) :
  Matcher.parse flag pattern = Ok (Matcher.Pattern Matcher.reNothing, true)
  /\ forall str, Matcher.matchOne str (Matcher.Pattern Matcher.reNothing) = false.
Proof.
  split.
  - unfold Matcher.parse.
    destruct (Z.gtb_spec (JsString.len pattern) (1024 * 64)); [lia|].
    destruct (String.eqb_spec pattern EmptyString) as [->|_].
    + simpl in Hflag. subst flag. vm_compute in Hbad. discriminate.
    + rewrite Hflag. simpl. rewrite Hbad. reflexivity.
  - intros str. unfold Matcher.matchOne. simpl. apply reNothing_never.
Qed.

Lemma malformed_translation_matches_nothing_witness :
  Matcher.source false "(*" = "^(?=.)([^/]*?$"
  /\ Matcher.parse false "(*" = Ok (Matcher.Pattern Matcher.reNothing, true)
  /\ Matcher.matchOne "(x" (Matcher.Pattern Matcher.reNothing) = false.
Proof.
  split; [reflexivity|].
  destruct (malformed_translation_matches_nothing false "(*"
              (SyntaxError "Unterminated group")) as [H1 H2].
  - vm_compute. discriminate.
  - reflexivity.
  - vm_compute. reflexivity.
  - split; [exact H1|apply H2].
Defined.

Section StaleFlag.

Local Open Scope list_scope.

Lemma parseAll_app l1 : forall flag l2,
  Matcher.parseAll flag (l1 ++ l2) =
  (r1 <- Matcher.parseAll flag l1 ;;
   r2 <- Matcher.parseAll (snd r1) l2 ;;
   Ok (fst r1 ++ fst r2, snd r2)).
Proof.
  induction l1 as [|v l1 IH]; intros flag l2; simpl.
  - destruct (Matcher.parseAll flag l2) as [[cs f]|]; reflexivity.
  - destruct (Matcher.parse flag v) as [[c f]|]; simpl; [|reflexivity].
    rewrite IH. destruct (Matcher.parseAll f l1) as [[cs1 f1]|]; simpl; [|reflexivity].
    destruct (Matcher.parseAll f1 l2) as [[cs2 f2]|]; reflexivity.
Qed.

Lemma parseAll_length vals : forall flag cs flag',
  Matcher.parseAll flag vals = Ok (cs, flag') -> length cs = length vals.
Proof.
  induction vals as [|v vals IH]; simpl; intros flag cs flag' H.
  - injection H as <- _. reflexivity.
  - destruct (Matcher.parse flag v) as [[c f]|]; simpl in H; [|discriminate].
    destruct (Matcher.parseAll f vals) as [[cs1 f1]|] eqn:E; simpl in H; [|discriminate].
    injection H as <- _. simpl. f_equal. eapply IH. exact E.
Qed.

Lemma parse_flag flag v c flag' :
  Matcher.parse flag v = Ok (c, flag') -> flag' = snd (Matcher.scan v flag).
Proof.
  unfold Matcher.parse.
  destruct (JsString.len v >? 1024 * 64)%Z; [discriminate|].
  destruct (String.eqb_spec v EmptyString) as [->|_].
  - intros H. injection H as _ <-. reflexivity.
  - destruct (snd (Matcher.scan v flag)); simpl.
    + destruct (RegExp.create _); intros H; injection H as _ <-; reflexivity.
    + intros H; injection H as _ <-; reflexivity.
Qed.

(** Once set, the flag stays set. *)
Lemma parseAll_flag_true vals : forall cs flag',
  Matcher.parseAll true vals = Ok (cs, flag') -> flag' = true.
Proof.
  induction vals as [|v vals IH]; simpl; intros cs flag' H.
  - injection H as _ <-. reflexivity.
  - destruct (Matcher.parse true v) as [[c f]|] eqn:E; simpl in H; [|discriminate].
    apply parse_flag in E. rewrite scan_flag_true in E. subst f.
    destruct (Matcher.parseAll true vals) as [[cs1 f1]|]; simpl in H; [|discriminate].
    injection H as _ <-. eapply IH. reflexivity.
Qed.

End StaleFlag.

(** [parse] on a star-free alternative, with the flag clear and set. *)
Lemma parse_literal b :
  (JsString.len b <= 1024 * 64)%Z -> contains "*" b = false ->
  Matcher.parse false b =
  Ok (Matcher.Literal (RegExp.replace Matcher.reEscape RegExp.dollar1 b), false).
Proof.
  intros Hlen Hb. unfold Matcher.parse.
  destruct (Z.gtb_spec (JsString.len b) (1024 * 64)); [lia|].
  destruct (String.eqb_spec b EmptyString) as [->|_]; [reflexivity|].
  rewrite scan_no_star by exact Hb. reflexivity.
Qed.

Lemma source_no_star b :
  b <> EmptyString -> contains "*" b = false ->
  Matcher.source true b = "^(?=.)" ++ b ++ "$".
Proof.
  intros Hne Hb. unfold Matcher.source. rewrite scan_no_star by exact Hb.
  destruct (String.eqb_spec b EmptyString); [contradiction|reflexivity].
Qed.

Lemma parse_stale b :
  (JsString.len b <= 1024 * 64)%Z -> b <> EmptyString -> contains "*" b = false ->
  Matcher.parse true b = Ok (asExpression b, true).
Proof.
  intros Hlen Hne Hb. unfold Matcher.parse.
  destruct (Z.gtb_spec (JsString.len b) (1024 * 64)); [lia|].
  destruct (String.eqb_spec b EmptyString); [contradiction|].
  rewrite scan_no_star by exact Hb. simpl negb. cbv iota.
  rewrite source_no_star by assumption. unfold asExpression.
  destruct (RegExp.create _); reflexivity.
Qed.

Lemma within_guard_head v vals :
  existsb (fun alt => (JsString.len alt >? 1024 * 64)%Z) (v :: vals) = false ->
  (JsString.len v <= 1024 * 64)%Z
  /\ existsb (fun alt => (JsString.len alt >? 1024 * 64)%Z) vals = false.
Proof.
  simpl. intros H. apply orb_false_iff in H. destruct H as [Hv H].
  split; [|exact H]. rewrite Z.gtb_ltb in Hv. apply Z.ltb_ge in Hv. lia.
Qed.

(** After an alternative with a star, a star-free alternative is compiled
    as a regular expression. *)
Lemma parseAll_stale_flag (flag : bool) (l1 l2 l3 : list string) (a b : string) :
  existsb (fun alt => (JsString.len alt >? 1024 * 64)%Z)
    (l1 ++ a :: l2 ++ b :: l3)%list = false ->
  contains "*" a = true -> contains "*" b = false -> b <> EmptyString ->
  exists cs, Matcher.parseAll flag (l1 ++ a :: l2 ++ b :: l3)%list = Ok (cs, true)
             /\ nth_error cs (List.length l1 + S (List.length l2)) = Some (asExpression b).
Proof.
  intros Hlen Ha Hb Hne.
  rewrite existsb_app in Hlen. apply orb_false_iff in Hlen. destruct Hlen as [H1 H2].
  apply within_guard_head in H2. destruct H2 as [Hla H2].
  rewrite existsb_app in H2. apply orb_false_iff in H2. destruct H2 as [H2 H3].
  apply within_guard_head in H3. destruct H3 as [Hlb H3].
  destruct (parseAll_within_guard l1 flag H1) as (cs1 & f1 & E1).
  destruct (parse_within_guard f1 a Hla) as (ca & Ea).
  rewrite scan_star in Ea by exact Ha.
  destruct (parseAll_within_guard l2 true H2) as (cs2 & f2 & E2).
  assert (f2 = true) by (eapply parseAll_flag_true; exact E2). subst f2.
  destruct (parseAll_within_guard l3 true H3) as (cs3 & f3 & E3).
  assert (f3 = true) by (eapply parseAll_flag_true; exact E3). subst f3.
  exists (cs1 ++ ca :: cs2 ++ asExpression b :: cs3)%list. split.
  - rewrite parseAll_app, E1. cbn [bind fst snd Matcher.parseAll].
    rewrite Ea. cbn [bind fst snd]. rewrite parseAll_app, E2.
    cbn [bind fst snd Matcher.parseAll].
    rewrite parse_stale by assumption. cbn [bind fst snd]. rewrite E3. reflexivity.
  - apply parseAll_length in E1. apply parseAll_length in E2.
    rewrite nth_error_app2 by lia.
    replace (List.length l1 + S (List.length l2) - List.length cs1)
      with (S (List.length cs2)) by lia.
    cbn [nth_error]. rewrite nth_error_app2 by lia.
    replace (List.length cs2 - List.length cs2) with 0 by lia. reflexivity.
Qed.

(** ** Properties of [Statement.matches] *)

Lemma matchPattern_true context str p :
  Statement.matchPattern context str p = Ok true <->
  exists m, Matcher.new (applyContext p context) = Ok m /\ Matcher.match_ m str = true.
Proof.
  unfold Statement.matchPattern.
  destruct (Matcher.new (applyContext p context)) as [m|e]; simpl.
  - split.
    + intros H. injection H as H. eauto.
    + intros (m' & H & H'). injection H as <-. rewrite H'. reflexivity.
  - split; [discriminate|]. intros (m & H & _). discriminate.
Qed.

Lemma some_matchPattern_true context str ps :
  some (Statement.matchPattern context str) ps = Ok true ->
  somePatternMatches context str ps.
Proof.
  intros H. apply some_true_iff in H. destruct H as (l1 & p & l2 & -> & _ & H).
  apply matchPattern_true in H. destruct H as (m & H1 & H2).
  exists p, m. split; [apply in_or_app; right; left; reflexivity|auto].
Qed.

Lemma some_matchPattern_false context str ps :
  some (Statement.matchPattern context str) ps = Ok false ->
  ~ somePatternMatches context str ps.
Proof.
  intros H (p & m & Hin & H1 & H2).
  rewrite some_false_iff in H. specialize (H p Hin).
  assert (H' : Statement.matchPattern context str p = Ok true)
    by (apply matchPattern_true; eauto).
  congruence.
Qed.

Lemma conditions_true resolvers cond ctx :
  every (fun c =>
    every (fun path =>
      Statement.callResolver resolvers c (getValueFromPath ctx path)
        (Statement.expectedAt cond c path))
      (keys (Statement.conditionAt cond c)))
    (keys cond) = Ok true <->
  conditionsHold (Some resolvers) (Some cond) (Some ctx).
Proof.
  unfold conditionsHold. rewrite every_true_iff. split.
  - intros H c path Hc Hp. specialize (H c Hc). rewrite every_true_iff in H.
    specialize (H path Hp). unfold Statement.callResolver in H.
    destruct (lookup c resolvers) as [resolver|]; [|discriminate].
    injection H as H. eauto.
  - intros H c Hc. rewrite every_true_iff. intros path Hp.
    destruct (H c path Hc Hp) as (resolver & H1 & H2).
    unfold Statement.callResolver. rewrite H1, H2. reflexivity.
Qed.

(** C1: when every condition name has a resolver, whatever [matches]
    returns is the conjunction of the three clauses: some action pattern
    matches the action, some resource pattern matches the resource, and the
    conditions hold (they are not asked for when resolvers, conditions or
    context are missing). *)
Theorem matches_is_conjunction_of_clauses
  (this : Statement.t) (action_ resource_ : string)
  (context : option object) (conditionResolvers : option ConditionResolver)
  (Hres : resolversComplete conditionResolvers (Statement.condition this)) :
  forall b,
    Statement.matches this action_ resource_ context conditionResolvers = Ok b ->
    (b = true <->
     somePatternMatches context action_ (Statement.action this)
     /\ somePatternMatches context resource_ (Statement.resource this)
     /\ conditionsHold conditionResolvers (Statement.condition this) context).
Proof.
  intros b. unfold Statement.matches.
  destruct (some (Statement.matchPattern context action_) (Statement.action this))
    as [[|]|e] eqn:Ea; simpl; [| |discriminate].
  2:{ intros H. injection H as <-. apply some_matchPattern_false in Ea.
      split; [discriminate|]. intros (H & _). contradiction. }
  apply some_matchPattern_true in Ea.
  destruct (some (Statement.matchPattern context resource_) (Statement.resource this))
    as [[|]|e] eqn:Er; simpl; [| |discriminate].
  2:{ intros H. injection H as <-. apply some_matchPattern_false in Er.
      split; [discriminate|]. intros (_ & H & _). contradiction. }
  apply some_matchPattern_true in Er.
  destruct conditionResolvers as [resolvers|];
    [|intros H; injection H as <-; simpl; tauto].
  destruct (Statement.condition this) as [cond|];
    [|intros H; injection H as <-; simpl; tauto].
  destruct context as [ctx|]; [|intros H; injection H as <-; simpl; tauto].
  intros H. split.
  - intros ->. apply conditions_true in H. auto.
  - intros (_ & _ & Hc). apply conditions_true in Hc. congruence.
Qed.

(** The statement [{resource: "*", action: "*", condition: {equals:
    {"user.role": "admin"}}}] on an administrator and on a guest. *)
Lemma matches_is_conjunction_of_clauses_witness :
  let this := Statement.new
    (mkConfig None (One "*") (One "*") (Some [("equals", [("user.role", VStr "admin")])])) in
  let admin := Some [("user", VObj [("role", VStr "admin")])] in
  let guest := Some [("user", VObj [("role", VStr "guest")])] in
  Statement.matches this "x" "y" admin (Some [("equals", equals)]) = Ok true
  /\ conditionsHold (Some [("equals", equals)]) (Statement.condition this) admin
  /\ Statement.matches this "x" "y" guest (Some [("equals", equals)]) = Ok false
  /\ ~ conditionsHold (Some [("equals", equals)]) (Statement.condition this) guest
  /\ Statement.matches this "x" "y" guest None = Ok true.
Proof.
  intros this admin guest.
  assert (Hres : resolversComplete (Some [("equals", equals)]) (Statement.condition this)).
  { intros c [<-|[]]. eexists. reflexivity. }
  split; [vm_compute; reflexivity|].
  split.
  { apply (matches_is_conjunction_of_clauses this "x" "y" admin
             (Some [("equals", equals)]) Hres true);
      [vm_compute; reflexivity|reflexivity]. }
  split; [vm_compute; reflexivity|].
  split; [|vm_compute; reflexivity].
  intros Hc.
  assert (E : Statement.matches this "x" "y" guest (Some [("equals", equals)]) = Ok false)
    by (vm_compute; reflexivity).
  destruct (matches_is_conjunction_of_clauses this "x" "y" guest
              (Some [("equals", equals)]) Hres false E) as [_ H].
  assert (false = true); [|discriminate].
  apply H. split; [|split; [|exact Hc]].
  - apply some_matchPattern_true. vm_compute. reflexivity.
  - apply some_matchPattern_true. vm_compute. reflexivity.
Defined.

(** ** Strings *)

Section StringLemmas.

Lemma append_nil_r s : s ++ EmptyString = s.
Proof. induction s as [|c s IH]; simpl; [reflexivity|rewrite IH; reflexivity]. Qed.

Lemma append_assoc s1 s2 s3 : (s1 ++ s2) ++ s3 = s1 ++ (s2 ++ s3).
Proof. induction s1 as [|c s1 IH]; simpl; [reflexivity|rewrite IH; reflexivity]. Qed.

Lemma length_append s1 s2 :
  String.length (s1 ++ s2) = String.length s1 + String.length s2.
Proof. induction s1 as [|c s1 IH]; simpl; [reflexivity|rewrite IH; reflexivity]. Qed.

Lemma substring_zero_zero s : substring 0 0 s = EmptyString.
Proof. destruct s; reflexivity. Qed.

Lemma substring_prefix s1 s2 : substring 0 (String.length s1) (s1 ++ s2) = s1.
Proof.
  induction s1 as [|c s1 IH]; simpl; [apply substring_zero_zero|].
  rewrite IH. reflexivity.
Qed.

Lemma substring_skip s1 s2 n k :
  substring (String.length s1 + n) k (s1 ++ s2) = substring n k s2.
Proof. induction s1 as [|c s1 IH]; simpl; [reflexivity|exact IH]. Qed.

Lemma substring_all s : substring 0 (String.length s) s = s.
Proof.
  induction s as [|c s IH]; simpl; [reflexivity|rewrite IH; reflexivity].
Qed.

Lemma substring_length_le s : forall n k,
  String.length (substring n k s) <= String.length s - n.
Proof.
  induction s as [|c s IH]; intros n k.
  - destruct n, k; simpl; lia.
  - destruct n; simpl.
    + destruct k; simpl; [lia|]. specialize (IH 0 k). lia.
    + apply IH.
Qed.

Lemma contains_append c s1 s2 :
  contains c (s1 ++ s2) = contains c s1 || contains c s2.
Proof.
  induction s1 as [|x s1 IH]; simpl; [reflexivity|].
  rewrite IH. apply orb_assoc.
Qed.

(** A string without [c], or the text before and after its first [c]. *)
Lemma first_occurrence c s :
  contains c s = false \/
  exists s1 s2, s = s1 ++ String c s2 /\ contains c s1 = false.
Proof.
  induction s as [|x s IH]; simpl; [left; reflexivity|].
  destruct (Ascii.eqb_spec x c) as [->|Hx].
  - right. exists EmptyString, s. split; reflexivity.
  - destruct IH as [IH|(s1 & s2 & -> & H)]; [left; exact IH|].
    right. exists (String x s1), s2. split; [reflexivity|]. simpl.
    destruct (Ascii.eqb_spec x c); [contradiction|exact H].
Qed.

Lemma indexOfAux_absent c s : forall skip k,
  contains c s = false ->
  JsString.indexOfAux (String c EmptyString) s skip k = (-1)%Z.
Proof.
  induction s as [|x s IH]; intros skip k; simpl; [reflexivity|].
  rewrite (Ascii.eqb_sym c x).
  destruct (Ascii.eqb x c); simpl; [discriminate|].
  intros H. destruct skip; apply IH; exact H.
Qed.

Lemma indexOfAux_first c s1 s2 : forall k,
  contains c s1 = false ->
  JsString.indexOfAux (String c EmptyString) (s1 ++ String c s2) 0 k
  = Z.of_nat (k + String.length s1).
Proof.
  induction s1 as [|x s1 IH]; intros k; simpl.
  - intros _. rewrite Ascii.eqb_refl. simpl. f_equal. lia.
  - rewrite (Ascii.eqb_sym c x). destruct (Ascii.eqb x c); simpl; [discriminate|].
    intros H. rewrite IH by exact H. f_equal. lia.
Qed.

Lemma indexOfAux_skip needle s1 s2 : forall k,
  JsString.indexOfAux needle (s1 ++ s2) (String.length s1) k
  = JsString.indexOfAux needle s2 0 (k + String.length s1).
Proof.
  induction s1 as [|x s1 IH]; intros k; simpl.
  - rewrite Nat.add_0_r. destruct s2; reflexivity.
  - rewrite IH. f_equal. lia.
Qed.

End StringLemmas.

(** ** Properties of [balanced] and [expand] *)

Section Expand.

Lemma clampIndex_inside s i :
  (0 <= i <= JsString.len s)%Z -> JsString.clampIndex s i = Z.to_nat i.
Proof.
  intros H. unfold JsString.clampIndex.
  destruct (Z.ltb_spec i 0); [lia|]. f_equal. lia.
Qed.

(** [balanced] on a string with a group: the first [{] and the first [}]
    after it delimit the body. *)
Lemma balanced_group pre_ body_ post_ :
  contains "{" pre_ = false -> contains "}" body_ = false ->
  balanced "{" "}" (pre_ ++ "{" ++ body_ ++ "}" ++ post_) =
  mkBalance (Z.of_nat (String.length pre_))
            (Z.of_nat (String.length pre_ + 1 + String.length body_))
            pre_ body_ post_.
Proof.
  intros Hpre Hbody.
  set (str := pre_ ++ "{" ++ body_ ++ "}" ++ post_).
  assert (Hlen : String.length str
                 = String.length pre_ + 1 + String.length body_ + 1 + String.length post_).
  { unfold str. rewrite !length_append. simpl. lia. }
  assert (Hleft : JsString.indexOf str "{" 0 = Z.of_nat (String.length pre_)).
  { unfold JsString.indexOf, str. simpl Z.to_nat.
    change ("{" ++ body_ ++ "}" ++ post_) with (String "{" (body_ ++ "}" ++ post_)).
    rewrite indexOfAux_first by exact Hpre. reflexivity. }
  assert (Hright : JsString.indexOf str "}" (Z.of_nat (String.length pre_) + 1)
                   = Z.of_nat (String.length pre_ + 1 + String.length body_)).
  { unfold JsString.indexOf.
    replace (Z.to_nat (Z.of_nat (String.length pre_) + 1))
      with (String.length (pre_ ++ "{")) by (rewrite length_append; simpl; lia).
    replace str with ((pre_ ++ "{") ++ body_ ++ String "}" post_)
      by (unfold str; rewrite append_assoc; reflexivity).
    rewrite indexOfAux_skip, indexOfAux_first by exact Hbody.
    rewrite length_append. simpl. lia. }
  unfold balanced, range. rewrite Hleft, Hright.
  assert (Hge : (Z.of_nat (String.length pre_) >=? 0)%Z = true)
    by (apply Z.geb_le; lia).
  assert (Hgt : (Z.of_nat (String.length pre_ + 1 + String.length body_) >? 0)%Z = true)
    by (apply Z.gtb_lt; lia).
  rewrite Hge, Hgt. cbn [andb fst snd]. rewrite Hge. f_equal.
  - unfold JsString.slice.
    rewrite !clampIndex_inside by (unfold JsString.len; lia).
    rewrite Nat2Z.id. simpl Z.to_nat. rewrite Nat.sub_0_r.
    unfold str. apply substring_prefix.
  - unfold JsString.slice.
    rewrite !clampIndex_inside by (unfold JsString.len; simpl; lia).
    replace (Z.to_nat (Z.of_nat (String.length pre_) + JsString.len "{"))
      with (String.length (pre_ ++ "{") + 0)
      by (rewrite length_append; unfold JsString.len; simpl; lia).
    rewrite Nat2Z.id.
    replace (String.length pre_ + 1 + String.length body_ - (String.length (pre_ ++ "{") + 0))
      with (String.length body_) by (rewrite length_append; simpl; lia).
    replace str with ((pre_ ++ "{") ++ body_ ++ String "}" post_)
      by (unfold str; rewrite append_assoc; reflexivity).
    rewrite substring_skip. apply substring_prefix.
  - unfold JsString.sliceFrom, JsString.slice.
    rewrite !clampIndex_inside by (unfold JsString.len; simpl; lia).
    replace (Z.to_nat (Z.of_nat (String.length pre_ + 1 + String.length body_) + JsString.len "}"))
      with (String.length (pre_ ++ "{" ++ body_ ++ "}") + 0)
      by (rewrite !length_append; unfold JsString.len; simpl; lia).
    replace (Z.to_nat (JsString.len str) - (String.length (pre_ ++ "{" ++ body_ ++ "}") + 0))
      with (String.length post_)
      by (unfold JsString.len; rewrite Nat2Z.id, Hlen, !length_append; simpl; lia).
    replace str with ((pre_ ++ "{" ++ body_ ++ "}") ++ post_)
      by (unfold str; rewrite !append_assoc; reflexivity).
    rewrite substring_skip. apply substring_all.
Qed.

(** Either [balanced] finds no group, or the string splits around one. *)
Lemma balanced_cases str :
  (start (balanced "{" "}" str) = (-1)%Z
   /\ forall pre_ body_ post_, contains "{" pre_ = false -> contains "}" body_ = false ->
        str <> pre_ ++ "{" ++ body_ ++ "}" ++ post_)
  \/ exists pre_ body_ post_,
       str = pre_ ++ "{" ++ body_ ++ "}" ++ post_
       /\ contains "{" pre_ = false /\ contains "}" body_ = false.
Proof.
  destruct (first_occurrence "{" str) as [H|(s1 & s2 & -> & H1)].
  - left. split.
    + unfold balanced, range, JsString.indexOf.
      rewrite (indexOfAux_absent _ _ _ _ H). reflexivity.
    + intros p b q _ _ ->. rewrite contains_append in H. simpl in H.
      rewrite orb_true_r in H. discriminate.
  - destruct (first_occurrence "}" s2) as [H|(b & q & -> & H2)].
    + left. split.
      * unfold balanced, range, JsString.indexOf. simpl Z.to_nat.
        rewrite indexOfAux_first by exact H1.
        replace (Z.to_nat (Z.of_nat (0 + String.length s1) + 1))
          with (String.length (s1 ++ "{")) by (rewrite length_append; simpl; lia).
        replace (s1 ++ String "{" s2) with ((s1 ++ "{") ++ s2)
          by (rewrite append_assoc; reflexivity).
        rewrite indexOfAux_skip, (indexOfAux_absent _ _ _ _ H).
        rewrite andb_false_r. reflexivity.
      * intros p b q Hp Hb E.
        assert (Hs : balanced "{" "}" (s1 ++ String "{" s2)
                     = balanced "{" "}" (p ++ "{" ++ b ++ "}" ++ q)) by (rewrite E; reflexivity).
        rewrite (balanced_group p b q Hp Hb) in Hs.
        assert (Hpre : pre (balanced "{" "}" (s1 ++ String "{" s2)) = p)
          by (rewrite Hs; reflexivity).
        assert (Hbody : body (balanced "{" "}" (s1 ++ String "{" s2)) = b)
          by (rewrite Hs; reflexivity).
        assert (Hstart : start (balanced "{" "}" (s1 ++ String "{" s2)) 
                         = Z.of_nat (String.length p)) by (rewrite Hs; reflexivity).
        clear Hs. revert Hstart.
        unfold balanced, range, JsString.indexOf. simpl Z.to_nat.
        rewrite indexOfAux_first by exact H1.
        replace (Z.to_nat (Z.of_nat (0 + String.length s1) + 1))
          with (String.length (s1 ++ "{")) by (rewrite length_append; simpl; lia).
        replace (s1 ++ String "{" s2) with ((s1 ++ "{") ++ s2)
          by (rewrite append_assoc; reflexivity).
        rewrite indexOfAux_skip, (indexOfAux_absent _ _ _ _ H).
        rewrite andb_false_r. simpl. lia.
    + right. exists s1, b, q. auto.
Qed.

Lemma charCode_eqb x c :
  N.eqb (JsString.charCode x) (JsString.charCode c) = Ascii.eqb x c.
Proof.
  destruct (Ascii.eqb_spec x c) as [->|H]; [apply N.eqb_refl|].
  apply N.eqb_neq. intros E. apply H.
  rewrite <- (ascii_N_embedding x), <- (ascii_N_embedding c).
  unfold JsString.charCode in E. rewrite E. reflexivity.
Qed.

(** [/\$$/.test(s)] says whether [s] ends with a dollar. *)
Lemma reDollarEnd_from s : forall bef,
  match RegExp.execFrom Matcher.reDollarEnd bef s with
  | Some _ => true
  | None => false
  end = endsWith "$" s.
Proof.
  induction s as [|x s IH]; intros bef; [reflexivity|].
  cbn [RegExp.execFrom Matcher.reDollarEnd RegExp.m RegExp.step RegExp.after
       RegExp.before RegExp.caps].
  change 36%N with (JsString.charCode "$"). rewrite charCode_eqb.
  destruct (Ascii.eqb x "$") eqn:E.
  - destruct s as [|y s]; [simpl; rewrite E; reflexivity|].
    rewrite IH. reflexivity.
  - rewrite IH. destruct s; [simpl; rewrite E|]; reflexivity.
Qed.

Lemma test_reDollarEnd s : RegExp.test Matcher.reDollarEnd s = endsWith "$" s.
Proof. apply reDollarEnd_from. Qed.

(** [expandBody] calls [recur] on a shorter string only. *)
Lemma expandBody_ext recur1 recur2 str isTop :
  (forall s, String.length s < String.length str -> recur1 s = recur2 s) ->
  Matcher.expandBody recur1 str isTop = Matcher.expandBody recur2 str isTop.
Proof.
  intros H. unfold Matcher.expandBody.
  destruct (balanced_cases str) as [[E _]|(p & b & q & -> & Hp & Hb)].
  - rewrite E. reflexivity.
  - rewrite (balanced_group p b q Hp Hb). cbn [start pre body post].
    rewrite H; [reflexivity|]. rewrite !length_append. simpl. lia.
Qed.

Lemma expandFuel_enough n : forall k str isTop,
  String.length str <= n -> String.length str <= k ->
  Matcher.expandFuel n str isTop = Matcher.expandFuel k str isTop.
Proof.
  induction n as [|n IH]; intros k str isTop Hn Hk.
  - destruct k; cbn [Matcher.expandFuel]; apply expandBody_ext; intros s Hs; lia.
  - destruct k; cbn [Matcher.expandFuel]; apply expandBody_ext; intros s Hs; [lia|].
    apply IH; lia.
Qed.

(** The equation of [expand]: enough fuel is always given. *)
Lemma expand_unfold str isTop :
  Matcher.expand str isTop
  = Matcher.expandBody (fun post => Matcher.expand post false) str isTop.
Proof.
  unfold Matcher.expand at 1.
  destruct (String.length str) as [|n] eqn:E; cbn [Matcher.expandFuel];
    apply expandBody_ext; intros s Hs; [lia|].
  unfold Matcher.expand. apply expandFuel_enough; lia.
Qed.

Lemma flat_map_keep (c : string -> bool) (g : string -> string -> string) parts posts :
  flat_map (fun part =>
    flat_map (fun postPart => if c (g part postPart) then [g part postPart] else []) posts)
    parts
  = filter c (flat_map (fun part => map (g part) posts) parts).
Proof.
  induction parts as [|part parts IH]; simpl; [reflexivity|].
  rewrite filter_app, IH. apply (f_equal (fun l => (l ++ _)%list)).
  clear IH. induction posts as [|q posts IHq]; simpl; [reflexivity|].
  rewrite IHq. destruct (c (g part q)); reflexivity.
Qed.

Lemma expand_group pre_ body_ post_ isTop :
  contains "{" pre_ = false -> contains "}" body_ = false ->
  endsWith "$" pre_ = false ->
  Matcher.expand (pre_ ++ "{" ++ body_ ++ "}" ++ post_) isTop
  = keepAtTop isTop
      (crossProduct pre_ (JsString.splitList "," body_) (Matcher.expand post_ false)).
Proof.
  intros Hp Hb Hd. rewrite expand_unfold. unfold Matcher.expandBody.
  rewrite (balanced_group pre_ body_ post_ Hp Hb). cbn [start pre body post].
  rewrite test_reDollarEnd, Hd.
  destruct (Z.ltb_spec (Z.of_nat (String.length pre_)) 0); [lia|]. cbn [orb].
  replace (if String.eqb body_ EmptyString then [EmptyString]
           else JsString.splitList "," body_)
    with (JsString.splitList "," body_)
    by (destruct (String.eqb_spec body_ EmptyString) as [->|]; reflexivity).
  replace (if negb (Z.eqb (JsString.len post_) 0) then Matcher.expand post_ false
           else [EmptyString])
    with (Matcher.expand post_ false)
    by (destruct post_; reflexivity).
  unfold keepAtTop, crossProduct.
  apply (flat_map_keep (fun e => negb isTop || negb (String.eqb e EmptyString))
           (fun part postPart => pre_ ++ part ++ postPart)).
Qed.

Lemma expand_after_dollar pre_ body_ post_ isTop :
  contains "{" pre_ = false -> contains "}" body_ = false ->
  endsWith "$" pre_ = true ->
  Matcher.expand (pre_ ++ "{" ++ body_ ++ "}" ++ post_) isTop
  = [pre_ ++ "{" ++ body_ ++ "}" ++ post_].
Proof.
  intros Hp Hb Hd. rewrite expand_unfold. unfold Matcher.expandBody.
  rewrite (balanced_group pre_ body_ post_ Hp Hb). cbn [start pre body post].
  rewrite test_reDollarEnd, Hd, orb_true_r. reflexivity.
Qed.

Lemma expand_no_group str isTop :
  (forall pre_ body_ post_, str <> pre_ ++ "{" ++ body_ ++ "}" ++ post_) ->
  Matcher.expand str isTop = [str].
Proof.
  intros H. rewrite expand_unfold. unfold Matcher.expandBody.
  destruct (balanced_cases str) as [[E _]|(p & b & q & E & _)].
  - rewrite E. reflexivity.
  - exfalso. exact (H p b q E).
Qed.

End Expand.

(** ** Properties of [applyContext] *)

Section Interpolation.

Lemma closing_some s : forall n,
  closing s = Some n ->
  exists path rest, s = path ++ String "}" rest
                    /\ String.length path = n /\ contains "}" path = false.
Proof.
  induction s as [|c s IH]; simpl; intros n H; [discriminate|].
  destruct (Ascii.eqb_spec c "}") as [->|Hc].
  - injection H as <-. exists EmptyString, s. auto.
  - destruct (closing s) as [k|]; [|discriminate]. injection H as <-.
    destruct (IH k eq_refl) as (path & rest & -> & <- & Hp).
    exists (String c path), rest. simpl.
    destruct (Ascii.eqb_spec c "}"); [contradiction|auto].
Qed.

Lemma closing_none s : closing s = None -> contains "}" s = false.
Proof.
  induction s as [|c s IH]; simpl; [reflexivity|].
  destruct (Ascii.eqb c "}"); [discriminate|].
  destruct (closing s); [discriminate|]. intros _. apply IH. reflexivity.
Qed.

Lemma closing_first path rest :
  contains "}" path = false -> closing (path ++ String "}" rest) = Some (String.length path).
Proof.
  induction path as [|c path IH]; simpl; [reflexivity|].
  destruct (Ascii.eqb c "}"); [discriminate|].
  intros H. rewrite (IH H). reflexivity.
Qed.

Lemma eqb_succ n : Nat.eqb (S n) n = false.
Proof. apply Nat.eqb_neq. lia. Qed.

(** The loop of [([^}])*] followed by [}], for any [body] that takes one
    code unit other than [}] and any continuation [k] that takes a [}]. *)
Section DelimiterLoop.

Variable body : RegExp.state -> (RegExp.state -> option RegExp.state) -> option RegExp.state.
Variable k : RegExp.state -> option RegExp.state.

Hypothesis body_other : forall bef x rest cs,
  Ascii.eqb x "}" = false ->
  exists cs', forall c,
    body (RegExp.mkState bef (String x rest) cs) c = c (RegExp.mkState (x :: bef) rest cs').
Hypothesis body_close : forall bef rest cs c,
  body (RegExp.mkState bef (String "}" rest) cs) c = None.
Hypothesis body_end : forall bef cs c,
  body (RegExp.mkState bef EmptyString cs) c = None.
Hypothesis k_close : forall bef rest cs,
  k (RegExp.mkState bef (String "}" rest) cs) = Some (RegExp.mkState ("}"%char :: bef) rest cs).
Hypothesis k_other : forall bef x rest cs,
  Ascii.eqb x "}" = false -> k (RegExp.mkState bef (String x rest) cs) = None.
Hypothesis k_end : forall bef cs, k (RegExp.mkState bef EmptyString cs) = None.

(** With a [}] ahead the loop takes the whole path, and the [}] matches. *)
Lemma optional_close path : forall post_ bef cs fuel,
  contains "}" path = false -> String.length path <= fuel ->
  exists e,
    RegExp.optional body true k fuel None
      (RegExp.mkState bef (path ++ String "}" post_) cs) = Some e
    /\ RegExp.position e = List.length bef + String.length path + 1.
Proof.
  induction path as [|x path IH]; intros post_ bef cs fuel Hp Hf.
  - exists (RegExp.mkState ("}"%char :: bef) post_ cs).
    split; [|unfold RegExp.position; simpl; lia].
    destruct fuel; cbn [RegExp.optional append]; [apply k_close|].
    rewrite body_close. apply k_close.
  - simpl in Hp. apply orb_false_iff in Hp. destruct Hp as [Hx Hp].
    destruct fuel as [|fuel]; [simpl in Hf; lia|].
    cbn [RegExp.optional append].
    destruct (body_other bef x (path ++ String "}" post_) cs Hx) as [cs' Hb].
    rewrite Hb. cbn [RegExp.position RegExp.before List.length].
    rewrite eqb_succ. cbn [RegExp.decr option_map].
    destruct (IH post_ (x :: bef) cs' fuel Hp) as (e & He & Hpos); [simpl in Hf; lia|].
    rewrite He. exists e. split; [reflexivity|]. rewrite Hpos. simpl. lia.
Qed.

(** Without a [}] ahead the loop fails, however far it goes. *)
Lemma optional_open rest : forall bef cs fuel,
  contains "}" rest = false ->
  RegExp.optional body true k fuel None (RegExp.mkState bef rest cs) = None.
Proof.
  induction rest as [|x rest IH]; intros bef cs fuel Hp.
  - destruct fuel; cbn [RegExp.optional]; [apply k_end|].
    rewrite body_end. apply k_end.
  - simpl in Hp. apply orb_false_iff in Hp. destruct Hp as [Hx Hp].
    destruct fuel as [|fuel]; cbn [RegExp.optional]; [apply k_other; exact Hx|].
    destruct (body_other bef x rest cs Hx) as [cs' Hb].
    rewrite Hb. cbn [RegExp.position RegExp.before List.length].
    rewrite eqb_succ. cbn [RegExp.decr option_map].
    rewrite IH by exact Hp. apply k_other. exact Hx.
Qed.

End DelimiterLoop.

(** [reDelimiters] at the head of [s]: it matches exactly a placeholder. *)
Lemma reDelimiters_at s bef :
  match placeholderAt s with
  | Some n =>
      exists e, RegExp.m reDelimiters false (RegExp.mkState bef s []) Some = Some e
                /\ RegExp.position e = List.length bef + 3 + n
  | None => RegExp.m reDelimiters false (RegExp.mkState bef s []) Some = None
  end.
Proof.
  destruct s as [|d [|b rest]]; [reflexivity| |].
  { cbn. destruct (N.eqb _ _); reflexivity. }
  unfold placeholderAt.
  cbn [reDelimiters RegExp.m RegExp.step RegExp.after RegExp.before RegExp.caps
       RegExp.mandatory N.to_nat RegExp.groupsIn RegExp.remaining option_map].
  change 36%N with (JsString.charCode "$"). change 123%N with (JsString.charCode "{").
  rewrite !charCode_eqb.
  destruct (Ascii.eqb d "$"); [|reflexivity].
  destruct (Ascii.eqb b "{"); [|reflexivity].
  cbn [andb].
  assert (Hother : forall bef0 x rest0 cs, Ascii.eqb x "}" = false ->
            exists cs', forall c,
              RegExp.step (RegExp.classMatches true [RegExp.CChar 125]) false
                (RegExp.clearCaps [1] (RegExp.mkState bef0 (String x rest0) cs))
                (fun st' => c (RegExp.setCap 1
                                 (RegExp.between
                                    (RegExp.clearCaps [1]
                                       (RegExp.mkState bef0 (String x rest0) cs)) st') st'))
              = c (RegExp.mkState (x :: bef0) rest0 cs')).
  { intros bef0 x rest0 cs Hx. eexists. intros c.
    cbn [RegExp.step RegExp.clearCaps RegExp.after RegExp.before RegExp.caps].
    unfold RegExp.classMatches. cbn [existsb RegExp.classItemMatches].
    change 125%N with (JsString.charCode "}"). rewrite charCode_eqb, Hx.
    cbn [orb xorb]. unfold RegExp.setCap at 1.
    cbn [RegExp.after RegExp.before RegExp.caps]. reflexivity. }
  assert (Hclose : forall bef0 rest0 cs c,
            RegExp.step (RegExp.classMatches true [RegExp.CChar 125]) false
              (RegExp.clearCaps [1] (RegExp.mkState bef0 (String "}" rest0) cs)) c = None)
    by reflexivity.
  assert (Hend : forall bef0 cs c,
            RegExp.step (RegExp.classMatches true [RegExp.CChar 125]) false
              (RegExp.clearCaps [1] (RegExp.mkState bef0 EmptyString cs)) c = None)
    by reflexivity.
  assert (Hkother : forall bef0 x rest0 cs, Ascii.eqb x "}" = false ->
            RegExp.step (fun y => N.eqb (JsString.charCode y) 125) false
              (RegExp.mkState bef0 (String x rest0) cs) Some = None).
  { intros bef0 x rest0 cs Hx. cbn [RegExp.step RegExp.after].
    change 125%N with (JsString.charCode "}"). rewrite charCode_eqb, Hx. reflexivity. }
  destruct (closing rest) as [n|] eqn:E.
  - destruct (closing_some rest n E) as (path & post_ & -> & <- & Hp).
    edestruct (optional_close
                 (fun st c =>
                    RegExp.step (RegExp.classMatches true [RegExp.CChar 125]) false
                      (RegExp.clearCaps [1] st)
                      (fun st' => c (RegExp.setCap 1
                                       (RegExp.between (RegExp.clearCaps [1] st) st') st')))
                 (fun st' => RegExp.step (fun y => N.eqb (JsString.charCode y) 125)
                               false st' Some)
                 Hother Hclose (fun bef0 rest0 cs => eq_refl)
                 path post_ (b :: d :: bef) [] (String.length (path ++ String "}" post_)) Hp)
      as (e & He & Hpos).
    { rewrite length_append. lia. }
    exists e. split; [exact He|]. rewrite Hpos. simpl. lia.
  - apply closing_none in E.
    apply (optional_open
             (fun st c =>
                RegExp.step (RegExp.classMatches true [RegExp.CChar 125]) false
                  (RegExp.clearCaps [1] st)
                  (fun st' => c (RegExp.setCap 1
                                   (RegExp.between (RegExp.clearCaps [1] st) st') st')))
             (fun st' => RegExp.step (fun y => N.eqb (JsString.charCode y) 125)
                           false st' Some)
             Hother Hend Hkother (fun bef0 cs => eq_refl)).
    exact E.
Qed.

Lemma placeholderAt_some s n :
  placeholderAt s = Some n ->
  exists path post_, s = "${" ++ path ++ "}" ++ post_
                     /\ String.length path = n /\ contains "}" path = false.
Proof.
  destruct s as [|d [|b rest]]; simpl; try discriminate.
  destruct (Ascii.eqb_spec d "$") as [->|]; [|discriminate].
  destruct (Ascii.eqb_spec b "{") as [->|]; [|discriminate].
  simpl. intros H. destruct (closing_some rest n H) as (path & post_ & -> & Hn & Hp).
  exists path, post_. auto.
Qed.

(** The callback of [applyContext] on a placeholder renders its path. *)
Lemma replacer_placeholder context path :
  replacer context ("${" ++ path ++ "}") = ToString (getValueFromPath context path).
Proof.
  unfold replacer. cbn [append String.eqb negb].
  unfold JsString.substr.
  rewrite clampIndex_inside
    by (unfold JsString.len; cbn [String.length]; rewrite length_append;
        cbn [String.length]; lia).
  replace (Z.to_nat (JsString.len (String "$" (String "{" (path ++ "}"))) - 3))
    with (String.length path)
    by (unfold JsString.len; cbn [String.length]; rewrite length_append;
        cbn [String.length]; lia).
  change (Z.to_nat 2) with 2. cbn [substring].
  rewrite substring_prefix. reflexivity.
Qed.

(** The replacement of [applyContext] is the substitution of the
    specification. *)
Lemma replace_reDelimiters context s : forall bef skip,
  RegExp.replaceFrom reDelimiters (fun match_ _ => replacer context match_) bef s skip
  = substitute (fun path => ToString (getValueFromPath context path)) s skip.
Proof.
  induction s as [|c s IH]; intros bef skip.
  - destruct skip; reflexivity.
  - destruct skip as [|skip]; cbn [RegExp.replaceFrom substitute]; [|apply IH].
    generalize (reDelimiters_at (String c s) bef).
    destruct (placeholderAt (String c s)) as [n|] eqn:E.
    + intros (e & -> & Hpos). rewrite Hpos.
      replace (List.length bef + 3 + n - List.length bef) with (S (2 + n)) by lia.
      rewrite IH. f_equal.
      destruct (placeholderAt_some _ n E) as (path & post_ & Hs & <- & Hp).
      rewrite Hs.
      replace (substring 0 (S (2 + String.length path)) ("${" ++ path ++ "}" ++ post_))
        with ("${" ++ path ++ "}").
      * rewrite replacer_placeholder. cbn [append substring].
        rewrite substring_prefix. reflexivity.
      * replace ("${" ++ path ++ "}" ++ post_) with (("${" ++ path ++ "}") ++ post_)
          by (cbn [append]; rewrite append_assoc; reflexivity).
        replace (S (2 + String.length path)) with (String.length ("${" ++ path ++ "}"))
          by (cbn [append String.length]; rewrite length_append; simpl; lia).
        rewrite substring_prefix. reflexivity.
    + intros ->. rewrite IH. reflexivity.
Qed.

Lemma substitute_skip render s1 : forall s2,
  substitute render (s1 ++ s2) (String.length s1) = substitute render s2 0.
Proof.
  induction s1 as [|c s1 IH]; intros s2; simpl; [|apply IH].
  destruct s2; reflexivity.
Qed.

Lemma substitute_head render c s :
  substitute render (String c s) 0
  = match placeholderAt (String c s) with
    | Some n => render (substring 2 n (String c s)) ++ substitute render s (2 + n)
    | None => String c (substitute render s 0)
    end.
Proof. reflexivity. Qed.

(** Text without [${] is kept up to the first placeholder, which is replaced
    by the rendering of its path. *)
Lemma substitute_placeholder render pre_ : forall path post_,
  opensPlaceholder pre_ = false -> contains "}" path = false ->
  substitute render (pre_ ++ "${" ++ path ++ "}" ++ post_) 0
  = pre_ ++ render path ++ substitute render post_ 0.
Proof.
  induction pre_ as [|c pre_ IH]; intros path post_ Hpre Hp.
  - change ("" ++ "${" ++ path ++ "}" ++ post_)
      with (String "$" (String "{" (path ++ String "}" post_))).
    rewrite substitute_head.
    change (placeholderAt (String "$" (String "{" (path ++ String "}" post_))))
      with (closing (path ++ String "}" post_)).
    rewrite closing_first by exact Hp.
    cbn [substring append]. rewrite substring_prefix. f_equal.
    replace (String "{" (path ++ String "}" post_))
      with (("{" ++ path ++ "}") ++ post_)
      by (cbn [append]; rewrite append_assoc; reflexivity).
    replace (2 + String.length path) with (String.length ("{" ++ path ++ "}"))
      by (cbn [append String.length]; rewrite length_append; simpl; lia).
    apply substitute_skip.
  - cbn [opensPlaceholder] in Hpre. apply orb_false_iff in Hpre.
    destruct Hpre as [Hc Hpre].
    change (String c pre_ ++ "${" ++ path ++ "}" ++ post_)
      with (String c (pre_ ++ "${" ++ path ++ "}" ++ post_)).
    rewrite substitute_head.
    replace (placeholderAt (String c (pre_ ++ "${" ++ path ++ "}" ++ post_)))
      with (@None nat).
    + rewrite IH by assumption. reflexivity.
    + unfold placeholderAt. destruct pre_ as [|b pre_]; cbn [append].
      * destruct (Ascii.eqb c "$"); reflexivity.
      * destruct (Ascii.eqb c "$") eqn:Ec; [|reflexivity].
        cbn [JsString.startsWith andb] in Hc. rewrite andb_true_r in Hc.
        cbn [andb]. rewrite Ascii.eqb_sym, Hc. reflexivity.
Qed.

Lemma substitute_plain render s :
  opensPlaceholder s = false -> substitute render s 0 = s.
Proof.
  induction s as [|c s IH]; [reflexivity|].
  intros H. cbn [opensPlaceholder] in H. apply orb_false_iff in H.
  destruct H as [Hc H]. rewrite substitute_head.
  replace (placeholderAt (String c s)) with (@None nat).
  - rewrite IH by exact H. reflexivity.
  - unfold placeholderAt. destruct s as [|b s]; [reflexivity|].
    destruct (Ascii.eqb c "$") eqn:Ec; [|reflexivity].
    cbn [JsString.startsWith andb] in Hc. rewrite andb_true_r in Hc.
    cbn [andb]. rewrite Ascii.eqb_sym, Hc. reflexivity.
Qed.

Lemma isWhiteSpace_space c :
  JsString.isWhiteSpace c = false -> N.eqb (JsString.charCode c) 32 = false.
Proof.
  unfold JsString.isWhiteSpace. intros H.
  apply orb_false_iff in H. destruct H as [H _].
  apply orb_false_iff in H. destruct H as [_ H]. exact H.
Qed.

Lemma m_alt r1 r2 back st k :
  RegExp.m (RegExp.Alt r1 r2) back st k
  = match RegExp.m r1 back st k with
    | Some y => Some y
    | None => RegExp.m r2 back st k
    end.
Proof. reflexivity. Qed.

Lemma m_seq r1 r2 st k :
  RegExp.m (RegExp.Seq r1 r2) false st k
  = RegExp.m r1 false st (fun st' => RegExp.m r2 false st' k).
Proof. reflexivity. Qed.

Lemma m_assertStart back st k :
  RegExp.m RegExp.AssertStart back st k
  = match RegExp.before st with [] => k st | _ :: _ => None end.
Proof. reflexivity. Qed.

(** [r+] fails where [r] fails. *)
Lemma m_plus_fails r greedy st k :
  (forall c, RegExp.m r false (RegExp.clearCaps (RegExp.groupsIn r) st) c = None) ->
  RegExp.m (RegExp.Quant 1 None greedy r) false st k = None.
Proof.
  intros H. cbn [RegExp.m]. change (N.to_nat 1) with 1. cbn [RegExp.mandatory]. apply H.
Qed.

(** [trim] matches nowhere in a string without white space. *)
Lemma trim_fails_at c rest bef :
  JsString.isWhiteSpace c = false ->
  RegExp.m trim false (RegExp.mkState bef (String c rest) []) Some = None.
Proof.
  intros H. unfold trim. rewrite !m_alt, !m_seq.
  rewrite m_plus_fails.
  2:{ intros k. cbn [RegExp.m RegExp.step RegExp.clearCaps RegExp.after].
      rewrite (isWhiteSpace_space _ H). reflexivity. }
  assert (Hs : forall bef0 k,
            RegExp.m (RegExp.Quant 1 None true (RegExp.Class false [RegExp.CSpace false]))
              false (RegExp.mkState bef0 (String c rest) []) k = None).
  { intros bef0 k. apply m_plus_fails. intros k'.
    cbn [RegExp.m RegExp.step RegExp.clearCaps RegExp.after].
    unfold RegExp.classMatches. cbn [existsb RegExp.classItemMatches xorb orb].
    rewrite H. reflexivity. }
  rewrite Hs, m_assertStart. cbn [RegExp.before].
  destruct bef; [rewrite Hs|]; reflexivity.
Qed.

Lemma trim_fails_end bef :
  RegExp.m trim false (RegExp.mkState bef EmptyString []) Some = None.
Proof.
  unfold trim. rewrite !m_alt, !m_seq.
  rewrite !m_plus_fails by reflexivity.
  rewrite m_assertStart. cbn [RegExp.before].
  destruct bef; [rewrite m_plus_fails by reflexivity|]; reflexivity.
Qed.

Lemma replace_trim_id s : forall bef,
  noWhiteSpace s = true ->
  RegExp.replaceFrom trim (fun _ _ => EmptyString) bef s 0 = s.
Proof.
  induction s as [|c s IH]; intros bef H.
  - cbn [RegExp.replaceFrom]. rewrite trim_fails_end. reflexivity.
  - cbn [noWhiteSpace] in H. apply andb_true_iff in H. destruct H as [Hc H].
    apply negb_true_iff in Hc.
    cbn [RegExp.replaceFrom]. rewrite trim_fails_at by exact Hc.
    rewrite IH by exact H. reflexivity.
Qed.

End Interpolation.

(** C7, the claim as it stands fails: the text put in place of a
    placeholder is not always the string form of the value, since the result
    of the replacement goes through [specialTrim]. *)
Lemma applyContext_trims_the_replacement :
  ToString (getValueFromPath [("a", VObj [("b", VStr "x  y")])] "a.b") = "x  y"
  /\ applyContext "${a.b}" (Some [("a", VObj [("b", VStr "x  y")])]) = "x y"
  /\ applyContext "${a.b}" (Some [("a", VObj [("b", VStr "x  y")])])
     <> interpolate [("a", VObj [("b", VStr "x  y")])] "${a.b}".
Proof.
  split; [vm_compute; reflexivity|].
  split; [vm_compute; reflexivity|].
  vm_compute. discriminate.
Qed.

(** C4, the claim as it stands fails: after a [$] the group is not expanded,
    and at the top level the empty concatenations are dropped. *)
Lemma expand_is_not_always_the_cross_product :
  Matcher.expand ("$" ++ "{" ++ "a,b" ++ "}" ++ "") true
    <> crossProduct "$" (JsString.splitList "," "a,b") (Matcher.expand "" false)
  /\ Matcher.expand ("" ++ "{" ++ ",a" ++ "}" ++ "") true
    <> crossProduct "" (JsString.splitList "," ",a") (Matcher.expand "" false).
Proof. split; vm_compute; discriminate. Qed.

(** C4 as amended: for a pattern [pre{body}post], where the group is the
    first [{] and the first [}] after it and [pre] does not end with [$],
    [expand] returns the cross product of the comma-separated parts of the
    body with the expansion of [post], without the empty concatenations at
    the top level; a pattern whose [pre] ends with [$], or without a group,
    is its own single alternative. *)
Theorem expand_is_cross_product_unless_after_dollar
  (pre_ body_ post_ : string) (isTop : bool)
  (Hpre : contains "{" pre_ = false) (Hbody : contains "}" body_ = false) :
  (endsWith "$" pre_ = false ->
   Matcher.expand (pre_ ++ "{" ++ body_ ++ "}" ++ post_) isTop
   = keepAtTop isTop
       (crossProduct pre_ (JsString.splitList "," body_) (Matcher.expand post_ false)))
  /\ (endsWith "$" pre_ = true ->
      Matcher.expand (pre_ ++ "{" ++ body_ ++ "}" ++ post_) isTop
      = [pre_ ++ "{" ++ body_ ++ "}" ++ post_])
  /\ (forall alternatives, keepAtTop false alternatives = alternatives)
  /\ (forall str top,
        (forall p b q, str <> p ++ "{" ++ b ++ "}" ++ q) -> Matcher.expand str top = [str])
  /\ matcherMatch "a{b,c}d" "abd" = Ok true
  /\ matcherMatch "a{b,c}d" "acd" = Ok true
  /\ matcherMatch "a{b,c}d" "aed" = Ok false.
Proof.
  split; [intros H; apply expand_group; assumption|].
  split; [intros H; apply expand_after_dollar; assumption|].
  split.
  { intros l. unfold keepAtTop. induction l as [|x l IH]; [reflexivity|].
    cbn [filter negb orb]. f_equal. exact IH. }
  split; [intros str top H; apply expand_no_group; exact H|].
  repeat split; vm_compute; reflexivity.
Qed.

Lemma expand_is_cross_product_unless_after_dollar_witness :
  Matcher.expand "a{b,c}d" true = ["abd"; "acd"]
  /\ Matcher.expand "x{a,b}y{c,d}" false = ["xayc"; "xayd"; "xbyc"; "xbyd"].
Proof.
  split.
  - destruct (expand_is_cross_product_unless_after_dollar "a" "b,c" "d" true
                eq_refl eq_refl) as [H _].
    change ("a" ++ "{" ++ "b,c" ++ "}" ++ "d") with "a{b,c}d" in H.
    rewrite H by reflexivity. vm_compute. reflexivity.
  - destruct (expand_is_cross_product_unless_after_dollar "x" "a,b" "y{c,d}" false
                eq_refl eq_refl) as [H _].
    change ("x" ++ "{" ++ "a,b" ++ "}" ++ "y{c,d}") with "x{a,b}y{c,d}" in H.
    rewrite H by reflexivity. vm_compute. reflexivity.
Defined.

(** ** Wildcard compilation *)

Section Wildcards.

Lemma seqList_cons t ts :
  ts <> [] -> seqList (t :: ts) = RegExp.Seq t (seqList ts).
Proof. destruct ts; [contradiction|reflexivity]. Qed.

Lemma globMatch_star rest s :
  globMatch (String "*" rest) s
  = globMatch rest s
    || match s with
       | String x s' => negb (Ascii.eqb x "/") && globMatch (String "*" rest) s'
       | EmptyString => false
       end.
Proof. destruct s; reflexivity. Qed.

(** The lazy loop of [[^/]*?] followed by a continuation that behaves as the
    rest of the wildcard pattern. *)
Lemma optional_lazy_star rest (k : RegExp.state -> option RegExp.state) :
  (forall bef s cs, isSome (k (RegExp.mkState bef s cs)) = globMatch rest s) ->
  forall s bef cs fuel,
    String.length s <= fuel ->
    isSome (RegExp.optional
              (fun st c =>
                 RegExp.m (RegExp.Class true [RegExp.CChar 47]) false
                   (RegExp.clearCaps [] st) c)
              false k fuel None (RegExp.mkState bef s cs))
    = globMatch (String "*" rest) s.
Proof.
  intros Hk. induction s as [|x s IH]; intros bef cs fuel Hf.
  - rewrite globMatch_star, orb_false_r, <- (Hk bef EmptyString cs).
    destruct fuel; cbn [RegExp.optional]; [reflexivity|].
    destruct (k _); reflexivity.
  - destruct fuel as [|fuel]; [simpl in Hf; lia|].
    rewrite globMatch_star, <- (Hk bef (String x s) cs).
    cbn [RegExp.optional].
    destruct (k (RegExp.mkState bef (String x s) cs)); [reflexivity|].
    cbn [isSome orb RegExp.m RegExp.step RegExp.clearCaps RegExp.after RegExp.before
         RegExp.caps].
    unfold RegExp.classMatches. cbn [existsb RegExp.classItemMatches orb].
    change 47%N with (JsString.charCode "/"). rewrite charCode_eqb, orb_false_r.
    destruct (Ascii.eqb x "/"); [reflexivity|].
    cbn [xorb negb andb RegExp.position RegExp.before List.length].
    rewrite eqb_succ. cbn [RegExp.decr option_map].
    apply IH. simpl in Hf. lia.
Qed.

(** The terms of a wildcard alternative followed by [$] match as the
    wildcard semantics says. *)
Lemma m_globTerms alt : forall bef s cs,
  isSome (RegExp.m (seqList (globTerms alt ++ [RegExp.AssertEnd])%list) false
            (RegExp.mkState bef s cs) Some)
  = globMatch alt s.
Proof.
  induction alt as [|c alt IH]; intros bef s cs.
  - destruct s; reflexivity.
  - cbn [globTerms app]. rewrite seqList_cons by (destruct (globTerms alt); discriminate).
    rewrite m_seq. unfold globTerm. destruct (Ascii.eqb c "*") eqn:Ec.
    + apply Ascii.eqb_eq in Ec. subst c.
      cbn [RegExp.m RegExp.groupsIn option_map]. change (N.to_nat 0) with 0.
      cbn [RegExp.mandatory RegExp.remaining RegExp.after].
      apply optional_lazy_star; [exact IH|lia].
    + cbn [RegExp.m RegExp.step RegExp.after RegExp.before RegExp.caps globMatch].
      rewrite Ec. destruct s as [|x s]; [reflexivity|].
      rewrite charCode_eqb. destruct (Ascii.eqb x c); [apply IH|reflexivity].
Qed.

Lemma assertStart_fails_later r s : forall x bef,
  RegExp.execFrom (RegExp.Seq RegExp.AssertStart r) (x :: bef) s = None.
Proof.
  induction s as [|c s IH]; intros x bef; [reflexivity|].
  cbn [RegExp.execFrom]. rewrite m_seq, m_assertStart. cbn [RegExp.before]. apply IH.
Qed.

(** The expression of a wildcard alternative accepts the candidates that
    start on a line and match the wildcards. *)
Lemma test_globRegex alt s :
  RegExp.test (globRegex alt) s = startsOnLine s && globMatch alt s.
Proof.
  unfold RegExp.test, RegExp.exec, globRegex.
  rewrite seqList_cons by discriminate.
  rewrite seqList_cons by (destruct (globTerms alt); discriminate).
  generalize (m_globTerms alt). set (R := seqList _). intros HR.
  destruct s as [|x s].
  - reflexivity.
  - cbn [RegExp.execFrom]. rewrite m_seq, m_assertStart. cbn [RegExp.before].
    rewrite m_seq. cbn [RegExp.m RegExp.step RegExp.after RegExp.before RegExp.caps
                        startsOnLine].
    destruct (JsString.isLineTerminator x); cbn [negb andb].
    + rewrite assertStart_fails_later. reflexivity.
    + rewrite <- (HR [] (String x s) []).
      destruct (RegExp.m R false _ Some); [reflexivity|].
      rewrite assertStart_fails_later. reflexivity.
Qed.

Lemma scan_translation alt flag : fst (Matcher.scan alt flag) = translation alt.
Proof.
  revert flag. induction alt as [|c alt IH]; intros flag; [reflexivity|].
  cbn [Matcher.scan translation]. destruct (Ascii.eqb c "*").
  - specialize (IH true). destruct (Matcher.scan alt true). simpl in *.
    rewrite IH. reflexivity.
  - specialize (IH flag). destruct (Matcher.scan alt flag). simpl in *.
    rewrite IH. reflexivity.
Qed.

Lemma source_wildcard alt flag :
  contains "*" alt = true ->
  Matcher.source flag alt = "^(?=.)" ++ translation alt ++ "$".
Proof.
  intros H. unfold Matcher.source.
  generalize (scan_translation alt flag) (scan_star alt flag H).
  destruct (Matcher.scan alt flag) as [re flag']. cbn [fst snd].
  intros -> ->.
  replace (String.eqb (translation alt) EmptyString) with false; [reflexivity|].
  destruct alt as [|c alt]; [discriminate|].
  cbn [translation]. destruct (Ascii.eqb c "*"); reflexivity.
Qed.

(** What makes a code unit plain. *)
Lemma isPlain_inv c :
  isPlain c = true ->
  RegExp.isC c "^" = false /\ RegExp.isC c "$" = false /\ RegExp.isC c "." = false
  /\ RegExp.isC c "*" = false /\ RegExp.isC c "+" = false /\ RegExp.isC c "?" = false
  /\ RegExp.isC c "{" = false /\ RegExp.isC c "(" = false /\ RegExp.isC c ")" = false
  /\ RegExp.isC c "|" = false /\ RegExp.isC c "[" = false /\ RegExp.isC c "\" = false.
Proof.
  unfold isPlain, RegExp.isC. cbn [existsb]. intros H. apply negb_true_iff in H.
  repeat (apply orb_false_iff in H; destruct H as [? H]).
  repeat split; assumption.
Qed.

Lemma scanGroups_translation alt : forall rest,
  isGlob alt = true ->
  RegExp.scanGroups (translation alt ++ rest) false false
  = RegExp.scanGroups rest false false.
Proof.
  induction alt as [|c alt IH]; intros rest H; [reflexivity|].
  cbn [isGlob] in H. apply andb_true_iff in H. destruct H as [Hc H].
  cbn [translation]. rewrite append_assoc.
  destruct (Ascii.eqb c "*").
  - cbn. apply IH. exact H.
  - cbn [orb] in Hc. destruct (isPlain_inv c Hc) as (_ & _ & _ & _ & _ & _ & _ & H1 & _ & _ & H2 & H3).
    cbn [append RegExp.scanGroups]. rewrite H1, H2, H3. apply IH. exact H.
Qed.

Lemma lex_translation alt : forall rest toks,
  isGlob alt = true ->
  RegExp.lex [] rest 0 = Ok toks ->
  RegExp.lex [] (translation alt ++ rest) 0 = Ok (globTokens alt ++ toks)%list.
Proof.
  induction alt as [|c alt IH]; intros rest toks H Hrest; [exact Hrest|].
  cbn [isGlob] in H. apply andb_true_iff in H. destruct H as [Hc H].
  cbn [translation globTokens]. rewrite append_assoc.
  specialize (IH rest toks H Hrest).
  destruct (Ascii.eqb c "*").
  - cbn. rewrite IH. reflexivity.
  - cbn [orb] in Hc.
    destruct (isPlain_inv c Hc)
      as (H1 & H2 & H3 & H4 & H5 & H6 & H7 & H8 & H9 & H10 & H11 & H12).
    cbn [append RegExp.lex]. unfold RegExp.lexOne.
    rewrite H1, H2, H3, H4, H5, H6, H7, H8, H9, H10, H11, H12.
    cbn [bind fst snd]. rewrite IH. reflexivity.
Qed.

Lemma parseTokens_glob alt : forall toks kind idx alts terms stack next,
  RegExp.parseTokens (globTokens alt ++ toks)%list
    (RegExp.mkFrame kind idx alts terms) stack next
  = RegExp.parseTokens toks
      (RegExp.mkFrame kind idx alts (rev (globPairs alt) ++ terms)%list) stack next.
Proof.
  induction alt as [|c alt IH]; intros toks kind idx alts terms stack next;
    [reflexivity|].
  cbn [globTokens globPairs rev]. rewrite <- app_assoc. cbn [app].
  unfold globTerm. destruct (Ascii.eqb c "*");
    cbn [app RegExp.parseTokens RegExp.pushTerm RegExp.fkind RegExp.fidx RegExp.falts
         RegExp.fseq negb];
    apply IH.
Qed.

Lemma globPairs_terms alt : map fst (globPairs alt) = globTerms alt.
Proof.
  induction alt as [|c alt IH]; [reflexivity|].
  cbn [globPairs globTerms map fst]. rewrite IH. reflexivity.
Qed.

Lemma seqList_last l a b :
  seqList (l ++ [RegExp.Seq a b])%list = seqList (l ++ [a; b])%list.
Proof.
  induction l as [|x l IH]; [reflexivity|].
  cbn [app]. rewrite !seqList_cons by (destruct l; discriminate).
  rewrite IH. reflexivity.
Qed.

(** The sequence the parser folds from the terms of an alternative. *)
Lemma fold_seq terms : forall acc,
  acc <> RegExp.Empty ->
  fold_left (fun acc (t : RegExp.regex * bool) =>
               match acc with
               | RegExp.Empty => fst t
               | _ => RegExp.Seq (fst t) acc
               end) terms acc
  = seqList (rev (map fst terms) ++ [acc])%list.
Proof.
  induction terms as [|t terms IH]; intros acc Hacc; [reflexivity|].
  cbn [fold_left map rev]. 
  replace (match acc with RegExp.Empty => fst t | _ => RegExp.Seq (fst t) acc end)
    with (RegExp.Seq (fst t) acc) by (destruct acc; [contradiction| | | | | | | | | | | |]; reflexivity).
  rewrite IH by discriminate. rewrite seqList_last, <- app_assoc. reflexivity.
Qed.

(** [new RegExp] on the source of a wildcard alternative. *)
Lemma create_wildcard alt :
  isGlob alt = true ->
  RegExp.create ("^(?=.)" ++ translation alt ++ "$") = Ok (globRegex alt).
Proof.
  intros H. unfold RegExp.create.
  replace (RegExp.scanGroups ("^(?=.)" ++ translation alt ++ "$") false false)
    with (@nil (option (list N)))
    by (cbn; rewrite scanGroups_translation by exact H; reflexivity).
  cbn [RegExp.hasDuplicate].
  replace (RegExp.lex [] ("^(?=.)" ++ translation alt ++ "$") 0)
    with (Ok ([RegExp.TAssert RegExp.AssertStart; RegExp.TOpen (RegExp.GLook false false);
               RegExp.TAtom RegExp.Dot; RegExp.TClose]
              ++ globTokens alt ++ [RegExp.TAssert RegExp.AssertEnd])%list)
    by (cbn; rewrite (lex_translation alt "$" [RegExp.TAssert RegExp.AssertEnd] H eq_refl);
        reflexivity).
  cbn [bind app RegExp.parseTokens RegExp.pushTerm RegExp.closeGroup RegExp.fkind
       RegExp.fidx RegExp.falts RegExp.fseq RegExp.altOf RegExp.seqOf fold_left fst negb].
  unfold RegExp.pushTerm.
  cbn [RegExp.fkind RegExp.fidx RegExp.falts RegExp.fseq].
  rewrite parseTokens_glob.
  cbn [RegExp.parseTokens]. unfold RegExp.pushTerm, RegExp.altOf, RegExp.seqOf.
  cbn [RegExp.fkind RegExp.fidx RegExp.falts RegExp.fseq fold_left fst].
  rewrite fold_seq by discriminate.
  rewrite map_app, rev_app_distr, map_rev, rev_involutive, globPairs_terms.
  reflexivity.
Qed.

End Wildcards.

Lemma translation_app s1 : forall c s2,
  Ascii.eqb c "*" = false ->
  translation (s1 ++ String c s2) = translation s1 ++ String c (translation s2).
Proof.
  induction s1 as [|x s1 IH]; intros c s2 Hc.
  - cbn [append translation]. rewrite Hc. reflexivity.
  - cbn [append translation]. rewrite IH by exact Hc. rewrite append_assoc. reflexivity.
Qed.

Lemma parse_wildcard flag alt :
  (JsString.len alt <= 1024 * 64)%Z -> contains "*" alt = true -> isGlob alt = true ->
  Matcher.parse flag alt = Ok (Matcher.Pattern (globRegex alt), true).
Proof.
  intros Hlen Hstar Hglob. unfold Matcher.parse.
  destruct (Z.gtb_spec (JsString.len alt) (1024 * 64)); [lia|].
  destruct (String.eqb_spec alt EmptyString) as [->|_]; [discriminate|].
  rewrite scan_star by exact Hstar. cbn [negb].
  rewrite source_wildcard by exact Hstar.
  rewrite create_wildcard by exact Hglob. reflexivity.
Qed.

(** C5, the claim as it stands fails: in an alternative with a star a dot
    matches any character and a plus repeats the character before it, and an
    opening parenthesis does not even match itself. *)
Lemma metacharacters_are_not_literal :
  matcherMatch "a.*" "abc" = Ok true
  /\ matcherMatch "a+*" "aaa" = Ok true
  /\ matcherMatch "(*" "(x" = Ok false.
Proof. repeat split; vm_compute; reflexivity. Qed.

Lemma translation_star s1 : forall s2,
  translation (s1 ++ String "*" s2) = translation s1 ++ "[^/]*?" ++ translation s2.
Proof.
  induction s1 as [|x s1 IH]; intros s2; [reflexivity|].
  cbn [append translation]. rewrite IH, append_assoc. reflexivity.
Qed.

Lemma segmentMatch_star rest s :
  segmentMatch (String "*" rest) s
  = match s with
    | String x s' =>
        negb (Ascii.eqb x "/") && (segmentMatch rest s' || segmentMatch (String "*" rest) s')
    | EmptyString => false
    end.
Proof. destruct s; reflexivity. Qed.

(** A candidate whose segments are matched without an empty run is matched
    when empty runs are allowed. *)
Lemma segmentMatch_globMatch alt : forall s,
  segmentMatch alt s = true -> globMatch alt s = true.
Proof.
  induction alt as [|c rest IH]; intros s H.
  - destruct s; [reflexivity|discriminate H].
  - destruct (Ascii.eqb_spec c "*") as [->|Hc].
    + induction s as [|x s IHs]; rewrite segmentMatch_star in H; [discriminate H|].
      apply andb_true_iff in H. destruct H as [Hx H].
      rewrite globMatch_star. apply orb_true_iff. right. rewrite Hx. cbn [andb].
      apply orb_true_iff in H. destruct H as [H|H].
      * rewrite globMatch_star, (IH _ H). reflexivity.
      * apply IHs. exact H.
    + apply Ascii.eqb_neq in Hc. cbn [segmentMatch globMatch] in *. rewrite Hc in *.
      destruct s as [|x s]; [discriminate H|].
      apply andb_true_iff in H. destruct H as [Hx H].
      rewrite Hx, (IH _ H). reflexivity.
Qed.

(** C5 as amended: [parse] turns every star into [[^/]*?] and copies every
    other character into the source of the regular expression as it is,
    without escaping.  An alternative made of stars and of characters that
    mean nothing special in a regular expression compiles to an expression
    that accepts every candidate that starts on a line and in which every
    star stands for a run of one or more characters other than [/] and every
    other character for itself, and that accepts no candidate that is not
    the alternative with some text free of [/] in place of every star.  A
    metacharacter keeps its meaning: a dot before a star matches any
    character, and an opening parenthesis before a star does not match
    itself. *)
Theorem wildcard_source_is_unescaped (flag : bool) (alt : string)
  (Hlen : (JsString.len alt <= 1024 * 64)%Z) (Hstar : contains "*" alt = true) :
  Matcher.source flag alt = "^(?=.)" ++ translation alt ++ "$"
  /\ (forall s1 c s2,
        Ascii.eqb c "*" = false ->
        translation (s1 ++ String c s2) = translation s1 ++ String c (translation s2))
  /\ (forall s1 s2,
        translation (s1 ++ String "*" s2) = translation s1 ++ "[^/]*?" ++ translation s2)
  /\ (isGlob alt = true ->
      exists c,
        Matcher.parse flag alt = Ok (c, true)
        /\ (forall str,
              startsOnLine str = true -> segmentMatch alt str = true ->
              Matcher.matchOne str c = true)
        /\ (forall str, Matcher.matchOne str c = true -> globMatch alt str = true))
  /\ matcherMatch "a.*" "abc" = Ok true
  /\ matcherMatch "(*" "(x" = Ok false.
Proof.
  split; [apply source_wildcard; exact Hstar|].
  split; [intros s1 c s2 Hc; apply translation_app; exact Hc|].
  split; [intros s1 s2; apply translation_star|].
  split; [|split; vm_compute; reflexivity].
  intros Hglob. exists (Matcher.Pattern (globRegex alt)).
  split; [apply parse_wildcard; assumption|].
  unfold Matcher.matchOne. cbn [Matcher.isTruthy negb].
  split; intros str.
  - intros Hline Hseg. rewrite test_globRegex, Hline.
    apply segmentMatch_globMatch. exact Hseg.
  - rewrite test_globRegex. intros H. apply andb_true_iff in H. apply H.
Qed.

Lemma wildcard_source_is_unescaped_witness :
  Matcher.source false "docs/*" = "^(?=.)docs/[^/]*?$"
  /\ exists c,
       Matcher.parse false "docs/*" = Ok (c, true)
       /\ Matcher.matchOne "docs/readme" c = true
       /\ Matcher.matchOne "docs/a/b" c = false.
Proof.
  destruct (wildcard_source_is_unescaped false "docs/*") as (H1 & _ & _ & H2 & _).
  - vm_compute. discriminate.
  - reflexivity.
  - destruct (H2 eq_refl) as (c & H3 & H4 & H5).
    split; [exact H1|]. exists c. split; [exact H3|]. split.
    + apply H4; reflexivity.
    + destruct (Matcher.matchOne "docs/a/b" c) eqn:E; [|reflexivity].
      apply H5 in E. discriminate E.
Defined.

(** ** The flag [hasSpecialCharacter] across alternatives *)

(** [keepAtTop]: at the top level no alternative of a group is empty. *)
Lemma expandBody_top_nonempty recur str :
  Matcher.expandBody recur str true = [str]
  \/ forall e, In e (Matcher.expandBody recur str true) -> e <> EmptyString.
Proof.
  unfold Matcher.expandBody.
  destruct (_ || _); [left; reflexivity|]. right.
  intros e He.
  rewrite (flat_map_keep (fun e => negb true || negb (String.eqb e EmptyString))
             (fun part postPart => pre (balanced "{" "}" str) ++ part ++ postPart)) in He.
  apply filter_In in He. destruct He as [_ He]. cbn [negb orb] in He.
  intros ->. discriminate.
Qed.

Lemma braceExpand_nonempty p :
  (exists alt, Matcher.braceExpand p = [alt])
  \/ forall e, In e (Matcher.braceExpand p) -> e <> EmptyString.
Proof.
  unfold Matcher.braceExpand.
  destruct (negb (RegExp.test Matcher.reBraces p)); [left; eauto|].
  rewrite expand_unfold.
  destruct (expandBody_top_nonempty (fun post => Matcher.expand post false)
              (if String.eqb (JsString.substr p 0 2) "{}"
               then "\{\}" ++ JsString.substrFrom p 2 else p)) as [->|H];
    [left; eauto|right; exact H].
Qed.

(** C10: the flag [hasSpecialCharacter] is set by the first alternative with
    a star and never cleared.  For every pattern whose brace expansion puts
    an alternative [a] with a star before a star-free alternative [b], a
    Matcher built from it holds for [b] the regular expression of source
    [^(?=.)b$], whose characters have their regular-expression meaning,
    whereas [b] alone, with the flag clear, compiles to a literal.  In
    [{a*,b.c}] the dot of [b.c] therefore matches any character. *)
Theorem stale_flag_compiles_later_alternative_as_expression
  (p : string) (m : Matcher.t) (l1 l2 l3 : list string) (a b : string)
  (Hm : Matcher.new p = Ok m)
  (Hexp : Matcher.braceExpand (JsString.trim p) = (l1 ++ a :: l2 ++ b :: l3)%list)
  (Ha : contains "*" a = true) (Hb : contains "*" b = false) :
  Matcher.parse false b =
    Ok (Matcher.Literal (RegExp.replace Matcher.reEscape RegExp.dollar1 b), false)
  /\ In (asExpression b) (Matcher.set m)
  /\ Matcher.hasSpecialCharacter m = true
  /\ matcherMatch "{a*,b.c}" "bXc" = Ok true
  /\ matcherMatch "{b.c,a*}" "bXc" = Ok false.
Proof.
  assert (Hsize : oversized p = false).
  { destruct (oversized p) eqn:E; [|reflexivity].
    rewrite (new_oversized p E) in Hm. discriminate. }
  assert (Hlen : existsb (fun alt => (JsString.len alt >? 1024 * 64)%Z)
                   (l1 ++ a :: l2 ++ b :: l3)%list = false)
    by (rewrite <- Hexp; exact Hsize).
  assert (Hne : b <> EmptyString).
  { destruct (braceExpand_nonempty (JsString.trim p)) as [[alt H]|H].
    - rewrite Hexp in H. apply (f_equal (@List.length string)) in H.
      rewrite length_app in H. cbn [List.length] in H.
      rewrite length_app in H. cbn [List.length] in H. lia.
    - apply H. rewrite Hexp. apply in_or_app. right. right.
      apply in_or_app. right. left. reflexivity. }
  split.
  { assert (Hlen' := Hlen).
    rewrite existsb_app in Hlen'. apply orb_false_iff in Hlen'. destruct Hlen' as [_ H2].
    apply within_guard_head in H2. destruct H2 as [_ H2].
    rewrite existsb_app in H2. apply orb_false_iff in H2. destruct H2 as [_ H3].
    apply within_guard_head in H3. destruct H3 as [Hlb _].
    apply parse_literal; assumption. }
  destruct (parseAll_stale_flag false l1 l2 l3 a b Hlen Ha Hb Hne) as (cs & Hcs & Hnth).
  unfold Matcher.new in Hm. rewrite Hexp, Hcs in Hm. cbn [bind fst snd] in Hm.
  injection Hm as <-. cbn [Matcher.set Matcher.hasSpecialCharacter].
  split; [|split; [reflexivity|split; vm_compute; reflexivity]].
  apply filter_In. split; [|reflexivity].
  eapply nth_error_In. exact Hnth.
Qed.

Lemma stale_flag_compiles_later_alternative_as_expression_witness :
  Matcher.braceExpand (JsString.trim "{a*,b.c}") = ["a*"; "b.c"]
  /\ exists m, Matcher.new "{a*,b.c}" = Ok m
               /\ In (asExpression "b.c") (Matcher.set m)
               /\ Matcher.hasSpecialCharacter m = true.
Proof.
  assert (H : Matcher.braceExpand (JsString.trim "{a*,b.c}") = ["a*"; "b.c"])
    by (vm_compute; reflexivity).
  split; [exact H|].
  destruct (Matcher.new "{a*,b.c}") as [m|e] eqn:Hm; [|vm_compute in Hm; discriminate].
  exists m. split; [reflexivity|].
  destruct (stale_flag_compiles_later_alternative_as_expression
              "{a*,b.c}" m [] [] [] "a*" "b.c" Hm H eq_refl eq_refl) as (_ & H1 & H2 & _).
  split; assumption.
Defined.

(** ** The guard against empty segments *)

Lemma globMatch_prefix p : forall q s,
  contains "*" p = false -> globMatch (p ++ q) (p ++ s) = globMatch q s.
Proof.
  induction p as [|c p IH]; intros q s H; [reflexivity|].
  cbn [contains] in H. apply orb_false_iff in H. destruct H as [Hc H].
  cbn [append globMatch]. rewrite Hc, Ascii.eqb_refl. apply IH. exact H.
Qed.

Lemma isGlob_append p q : isGlob (p ++ q) = isGlob p && isGlob q.
Proof.
  induction p as [|c p IH]; [reflexivity|].
  cbn [append isGlob]. rewrite IH. apply andb_assoc.
Qed.

(** C2: [new Matcher("a/*").match("a/")] is [true].  The guard [(?=.)]
    stands once, in front of the whole expression, so it only asks the
    candidate to start with a character on a line; the star after the
    separator is free to match nothing.  The same holds after every literal
    prefix: [p/*] matches [p/]. *)
Theorem trailing_wildcard_matches_empty_segment :
  Matcher.source false "a/*" = "^(?=.)a/[^/]*?$"
  /\ matcherMatch "a/*" "a/" = Ok true
  /\ matcherMatch "a/*" "a/b" = Ok true
  /\ (forall p,
        isGlob p = true -> contains "*" p = false -> startsOnLine p = true ->
        (JsString.len (p ++ "/*") <= 1024 * 64)%Z ->
        Matcher.parse false (p ++ "/*") = Ok (Matcher.Pattern (globRegex (p ++ "/*")), true)
        /\ Matcher.matchOne (p ++ "/") (Matcher.Pattern (globRegex (p ++ "/*"))) = true).
Proof.
  split; [vm_compute; reflexivity|].
  split; [vm_compute; reflexivity|].
  split; [vm_compute; reflexivity|].
  intros p Hglob Hstar Hline Hlen.
  assert (Hg : isGlob (p ++ "/*") = true) by (rewrite isGlob_append, Hglob; reflexivity).
  assert (Hs : contains "*" (p ++ "/*") = true)
    by (rewrite contains_append; apply orb_true_iff; right; reflexivity).
  split; [apply parse_wildcard; assumption|].
  unfold Matcher.matchOne. cbn [Matcher.isTruthy negb].
  rewrite test_globRegex, globMatch_prefix by exact Hstar.
  destruct p; [discriminate|]. cbn [append startsOnLine] in *. rewrite Hline. reflexivity.
Qed.

(** * Further properties of the code *)

(** ** More on [getValueFromPath] *)

Lemma split_with sep s :
  contains sep s = true -> snd (JsString.split sep s) <> [].
Proof.
  induction s as [|c s IH]; cbn [contains JsString.split]; [discriminate|].
  destruct (JsString.split sep s) as [h t] eqn:E.
  destruct (Ascii.eqb c sep); cbn [orb snd]; [discriminate|exact IH].
Qed.

(** X1: on a context of two levels of plain data and a path with at least
    one dot whose keys are not inherited names, [getValueFromPath] never
    reads deeper than two levels of the context: the result is [undefined],
    or it is the property named by the last key of the path in some truthy
    property of the context itself, printed between braces when it is an
    array. *)
Theorem getValueFromPath_reads_two_levels (data : object) (path : string)
  (Hdata : plainContext data = true) (Hpath : plainPath path = true)
  (Hdot : contains "." path = true) :
  getValueFromPath data path = VUndefined
  \/ exists k,
       truthy (getProp (VObj data) k) = true
       /\ getValueFromPath data path
          = rendered (getProp (getProp (VObj data) k) (lastKey path)).
Proof.
  unfold getValueFromPath, lastKey, JsString.splitList.
  generalize (split_with "." path Hdot).
  destruct (JsString.split "." path) as [first others]. cbn [snd]. intros Hne.
  destruct (exists_last Hne) as (init & lastk & ->).
  unfold reduce. cbn [fst snd]. rewrite map_app, fold_left_app. cbn [map fold_left].
  change (last (first :: init ++ [lastk]) EmptyString)
    with (last ((first :: init) ++ [lastk]) EmptyString).
  rewrite last_last.
  set (acc := fold_left _ (map VStr init) (VStr first)).
  destruct (truthy (getProp (VObj data) (ToString acc))) eqn:E.
  - right. exists (ToString acc). split; [exact E|]. reflexivity.
  - left. reflexivity.
Qed.

Lemma getValueFromPath_reads_two_levels_witness :
  getValueFromPath [("a", VObj [("b", VStr "z")]); ("z", VObj [("c", VArr [VStr "x"; VStr "y"])])]
                   "a.b.c" = VStr "{x,y}"
  /\ (getValueFromPath [("a", VObj [("b", VObj [("c", VStr "x")])])] "a.b.c" = VUndefined
      \/ exists k,
           truthy (getProp (VObj [("a", VObj [("b", VObj [("c", VStr "x")])])]) k) = true
           /\ getValueFromPath [("a", VObj [("b", VObj [("c", VStr "x")])])] "a.b.c"
              = rendered (getProp (getProp (VObj [("a", VObj [("b", VObj [("c", VStr "x")])])]) k)
                            (lastKey "a.b.c"))).
Proof.
  split; [vm_compute; reflexivity|].
  apply (getValueFromPath_reads_two_levels
           [("a", VObj [("b", VObj [("c", VStr "x")])])] "a.b.c");
    reflexivity.
Defined.

(** ** More on [range] and [balanced] *)

Lemma group_normal str p y q :
  str = p ++ "{" ++ y ++ "}" ++ q ->
  exists p' y' q', str = p' ++ "{" ++ y' ++ "}" ++ q'
                   /\ contains "{" p' = false /\ contains "}" y' = false.
Proof.
  intros ->.
  destruct (first_occurrence "{" p) as [Hp|(s1 & s2 & -> & H1)].
  - destruct (first_occurrence "}" y) as [Hy|(t1 & t2 & -> & H2)].
    + exists p, y, q. auto.
    + exists p, t1, (t2 ++ "}" ++ q). repeat split; auto.
      cbn [append]. rewrite !append_assoc. reflexivity.
  - destruct (first_occurrence "}" (s2 ++ "{" ++ y)) as [Hy|(t1 & t2 & E & H2)].
    + rewrite contains_append in Hy. apply orb_false_iff in Hy. destruct Hy as [Hs2 Hy].
      cbn [append contains] in Hy. cbn [Ascii.eqb orb] in Hy.
      exists s1, (s2 ++ "{" ++ y), q. repeat split; auto.
      * rewrite !append_assoc. reflexivity.
      * rewrite contains_append, Hs2. cbn [append contains]. exact Hy.
    + exists s1, t1, (t2 ++ "}" ++ q). repeat split; auto.
      rewrite append_assoc. cbn [append]. f_equal. f_equal.
      change (s2 ++ String "{" (y ++ String "}" q)) with (s2 ++ ("{" ++ y) ++ "}" ++ q).
      rewrite <- append_assoc. 
      change ("{" ++ y) with (String "{" y) in *. cbn [append] in E. rewrite E.
      rewrite append_assoc. reflexivity.
Qed.

Lemma range_cases a b str :
  range a b str = ((-1)%Z, (-1)%Z) \/ (fst (range a b str) >= 0)%Z.
Proof.
  unfold range.
  destruct (Z.geb_spec (JsString.indexOf str a 0) 0) as [H|H]; cbn [andb].
  - destruct (_ >? 0)%Z; [right; cbn [fst]; lia|left; reflexivity].
  - left. reflexivity.
Qed.

Lemma balanced_none str :
  (start (balanced "{" "}" str) < 0)%Z ->
  balanced "{" "}" str = mkBalance (-1) (-1) "" "" "".
Proof.
  unfold balanced. destruct (range_cases "{" "}" str) as [->|H]; [reflexivity|].
  cbn [start]. lia.
Qed.

(** X2: [balanced], through [range], splits a string around its first group.
    When [start] is not negative the string is [pre{body}post], where [pre]
    has no [{] and [body] has no [}] (the group ends at the first [}] after
    its [{]: groups do not nest), and [start] and [end] are the indices of
    the two braces.  When [start] is negative the result is
    [{start: -1, end: -1, pre: '', body: '', post: ''}] and the string has
    no [{] with a [}] after it. *)
Theorem balanced_splits_around_first_group (str : string) :
  ((start (balanced "{" "}" str) >= 0)%Z ->
   str = pre (balanced "{" "}" str) ++ "{" ++ body (balanced "{" "}" str)
         ++ "}" ++ post (balanced "{" "}" str)
   /\ contains "{" (pre (balanced "{" "}" str)) = false
   /\ contains "}" (body (balanced "{" "}" str)) = false
   /\ start (balanced "{" "}" str) = JsString.len (pre (balanced "{" "}" str))
   /\ end_ (balanced "{" "}" str)
      = (start (balanced "{" "}" str) + 1 + JsString.len (body (balanced "{" "}" str)))%Z)
  /\ ((start (balanced "{" "}" str) < 0)%Z ->
      balanced "{" "}" str = mkBalance (-1) (-1) "" "" ""
      /\ forall p y q, str <> p ++ "{" ++ y ++ "}" ++ q).
Proof.
  destruct (balanced_cases str) as [[E Hno]|(p & y & q & -> & Hp & Hy)].
  - split; [rewrite E; lia|]. intros H. split; [apply balanced_none; exact H|].
    intros p y q E'. destruct (group_normal _ _ _ _ E') as (p' & y' & q' & E'' & H1 & H2).
    exact (Hno p' y' q' H1 H2 E'').
  - rewrite (balanced_group p y q Hp Hy). cbn [start end_ pre body post]. split.
    + intros _. repeat split; auto. unfold JsString.len. lia.
    + lia.
Qed.

(** ** The size of an expansion *)

Lemma split_length sep s :
  String.length (fst (JsString.split sep s)) <= String.length s
  /\ forall x, In x (snd (JsString.split sep s)) -> String.length x <= String.length s.
Proof.
  induction s as [|c s IH]; cbn [JsString.split].
  - split; [reflexivity|]. intros x [].
  - destruct (JsString.split sep s) as [h t]. cbn [fst snd] in IH.
    destruct IH as [IH1 IH2].
    destruct (Ascii.eqb c sep); cbn [fst snd String.length].
    + split; [lia|]. intros x [<-|Hx]; [lia|]. specialize (IH2 x Hx). lia.
    + split; [lia|]. intros x Hx. specialize (IH2 x Hx). lia.
Qed.

Lemma splitList_length sep s x :
  In x (JsString.splitList sep s) -> String.length x <= String.length s.
Proof.
  unfold JsString.splitList. generalize (split_length sep s).
  destruct (JsString.split sep s) as [h t]. cbn [fst snd].
  intros [H1 H2] [<-|Hx]; auto.
Qed.

Lemma in_crossProduct e pre_ parts posts :
  In e (crossProduct pre_ parts posts) <->
  exists part q, In part parts /\ In q posts /\ e = pre_ ++ part ++ q.
Proof.
  unfold crossProduct. rewrite in_flat_map. split.
  - intros (part & Hp & He). apply in_map_iff in He. destruct He as (q & <- & Hq).
    exists part, q. auto.
  - intros (part & q & Hp & Hq & ->). exists part. split; [exact Hp|].
    apply in_map_iff. exists q. auto.
Qed.

Lemma in_keepAtTop e isTop l :
  In e (keepAtTop isTop l) -> In e l.
Proof. unfold keepAtTop. intros H. apply filter_In in H. tauto. Qed.

Lemma expand_length n : forall str isTop e,
  String.length str <= n -> In e (Matcher.expand str isTop) ->
  String.length e <= String.length str.
Proof.
  induction n as [|n IH]; intros str isTop e Hn He.
  - destruct str; [|simpl in Hn; lia]. vm_compute in He.
    destruct He as [<-|[]]. reflexivity.
  - destruct (balanced_cases str) as [[E _]|(p & y & q & -> & Hp & Hy)].
    + rewrite expand_unfold in He. unfold Matcher.expandBody in He.
      rewrite E in He. cbn in He. destruct He as [<-|[]]. reflexivity.
    + destruct (endsWith "$" p) eqn:Hd.
      * rewrite expand_after_dollar in He by assumption.
        destruct He as [<-|[]]. reflexivity.
      * rewrite expand_group in He by assumption.
        apply in_keepAtTop, in_crossProduct in He.
        destruct He as (part & e' & Hpart & He' & ->).
        apply splitList_length in Hpart.
        rewrite !length_append in Hn. cbn [String.length] in Hn.
        apply IH in He'; [|lia].
        rewrite !length_append. cbn [String.length]. lia.
Qed.

Lemma splitList_nonempty sep s : JsString.splitList sep s <> [].
Proof. unfold JsString.splitList. destruct (JsString.split sep s). discriminate. Qed.

Lemma crossProduct_nonempty pre_ parts posts :
  parts <> [] -> posts <> [] -> crossProduct pre_ parts posts <> [].
Proof.
  destruct parts as [|part parts]; [contradiction|].
  destruct posts as [|q posts]; [contradiction|]. discriminate.
Qed.

Lemma keepAtTop_false l : keepAtTop false l = l.
Proof.
  unfold keepAtTop. induction l as [|x l IH]; [reflexivity|].
  cbn [filter negb orb]. f_equal. exact IH.
Qed.

Lemma expand_nested_nonempty n : forall str,
  String.length str <= n -> Matcher.expand str false <> [].
Proof.
  induction n as [|n IH]; intros str Hn.
  - destruct str; [|simpl in Hn; lia]. vm_compute. discriminate.
  - destruct (balanced_cases str) as [[E _]|(p & y & q & -> & Hp & Hy)].
    + rewrite expand_unfold. unfold Matcher.expandBody. rewrite E. discriminate.
    + destruct (endsWith "$" p) eqn:Hd.
      * rewrite expand_after_dollar by assumption. discriminate.
      * rewrite expand_group by assumption. rewrite keepAtTop_false.
        apply crossProduct_nonempty; [apply splitList_nonempty|].
        apply IH. rewrite !length_append in Hn. cbn [String.length] in Hn. lia.
Qed.

(** X3: no alternative that [expand] returns is longer than the string it
    expands; below the top level [expand] returns at least one alternative,
    whereas at the top level it can return none, as for [{,}]. *)
Theorem expand_alternatives_are_bounded :
  (forall str isTop e,
     In e (Matcher.expand str isTop) -> String.length e <= String.length str)
  /\ (forall str, Matcher.expand str false <> [])
  /\ Matcher.expand "{,}" true = [].
Proof.
  split; [intros str isTop e; apply (expand_length (String.length str)); lia|].
  split; [intros str; apply (expand_nested_nonempty (String.length str)); lia|].
  vm_compute. reflexivity.
Qed.

(** ** When the constructor throws *)

Lemma new_throw p e :
  Matcher.new p = Throw e -> e = tooLong /\ oversized p = true.
Proof.
  intros H. destruct (oversized p) eqn:E.
  - rewrite (new_oversized p E) in H. injection H as <-. auto.
  - destruct (new_within_guard p E) as [m Hm]. congruence.
Qed.

Lemma substring_beyond s : forall n,
  String.length s <= n -> substring 0 n s = s.
Proof.
  induction s as [|c s IH]; intros n H; [destruct n; reflexivity|].
  destruct n; [simpl in H; lia|]. simpl. rewrite IH; [reflexivity|simpl in H; lia].
Qed.

Lemma leading_braces q :
  String.eqb (JsString.substr q 0 2) "{}" = true ->
  exists rest, q = "{}" ++ rest /\ JsString.substrFrom q 2 = rest.
Proof.
  unfold JsString.substr at 1.
  rewrite clampIndex_inside by (unfold JsString.len; lia).
  change (Z.to_nat 0) with 0. change (Z.to_nat 2) with 2.
  intros H. apply String.eqb_eq in H.
  destruct q as [|a [|b rest]]; try discriminate.
  cbn [substring] in H. rewrite substring_zero_zero in H. injection H as -> ->.
  exists rest. split; [reflexivity|].
  unfold JsString.substrFrom, JsString.substr.
  rewrite clampIndex_inside by (unfold JsString.len; cbn [String.length]; lia).
  change (Z.to_nat 2) with 2. cbn [substring].
  apply substring_beyond. unfold JsString.len. rewrite Nat2Z.id. cbn [String.length]. lia.
Qed.

Lemma braceExpand_length q e :
  In e (Matcher.braceExpand q) -> String.length e <= String.length q.
Proof.
  unfold Matcher.braceExpand.
  destruct (negb (RegExp.test Matcher.reBraces q)).
  { intros [<-|[]]. reflexivity. }
  destruct (String.eqb (JsString.substr q 0 2) "{}") eqn:E.
  - destruct (leading_braces q E) as (rest & -> & ->).
    change ("\{\}" ++ rest) with ("\" ++ "{" ++ "\" ++ "}" ++ rest).
    rewrite expand_group by reflexivity.
    intros H. apply in_keepAtTop, in_crossProduct in H.
    destruct H as (part & e' & Hpart & He' & ->).
    destruct Hpart as [<-|[]].
    apply (expand_length (String.length rest)) in He'; [|lia].
    cbn [append String.length]. lia.
  - apply (expand_length (String.length q)). lia.
Qed.


(** X4: [new Matcher(p)] throws exactly when an alternative of the brace
    expansion of the trimmed pattern is longer than 65536 code units, and
    what it throws is the [TypeError] of [parse]. *)
Theorem new_throws_only_on_oversized_alternative (p : string) (e : exn) :
  Matcher.new p = Throw e <-> e = TypeError "pattern is too long" /\ oversized p = true.
Proof.
  split.
  - apply new_throw.
  - intros [-> H]. apply new_oversized. exact H.
Qed.



(** ** White space around a pattern *)

Lemma trimEnd_idem s : JsString.trimEnd (JsString.trimEnd s) = JsString.trimEnd s.
Proof.
  induction s as [|c s IH]; [reflexivity|].
  cbn [JsString.trimEnd].
  destruct (JsString.trimEnd s) as [|d t] eqn:E.
  - destruct (JsString.isWhiteSpace c) eqn:Ec; [reflexivity|].
    cbn [JsString.trimEnd]. rewrite Ec. reflexivity.
  - cbn [JsString.trimEnd]. cbn [JsString.trimEnd] in IH. rewrite IH. reflexivity.
Qed.

Lemma trimEnd_head c s :
  JsString.isWhiteSpace c = false ->
  exists t, JsString.trimEnd (String c s) = String c t.
Proof.
  intros H. cbn [JsString.trimEnd]. destruct (JsString.trimEnd s).
  - rewrite H. eauto.
  - eauto.
Qed.

Lemma trimStart_head s :
  JsString.trimStart s = EmptyString
  \/ exists c t, JsString.trimStart s = String c t /\ JsString.isWhiteSpace c = false.
Proof.
  induction s as [|c s IH]; [left; reflexivity|].
  cbn [JsString.trimStart]. destruct (JsString.isWhiteSpace c) eqn:E; [exact IH|].
  right. eauto.
Qed.

Lemma trim_idem s : JsString.trim (JsString.trim s) = JsString.trim s.
Proof.
  unfold JsString.trim.
  destruct (trimStart_head s) as [->|(c & t & -> & Hc)]; [reflexivity|].
  destruct (trimEnd_head c t Hc) as [u Hu]. rewrite Hu.
  cbn [JsString.trimStart]. rewrite Hc, <- Hu. apply trimEnd_idem.
Qed.

(** X6: white space around a pattern is ignored: a pattern and its trimmed
    text make the same Matcher and match the same candidates. *)
Theorem new_ignores_surrounding_white_space (p : string) :
  Matcher.new (JsString.trim p) = Matcher.new p
  /\ forall str, matcherMatch (JsString.trim p) str = matcherMatch p str.
Proof.
  assert (H : Matcher.new (JsString.trim p) = Matcher.new p)
    by (unfold Matcher.new; rewrite trim_idem; reflexivity).
  split; [exact H|]. intros str. unfold matcherMatch. rewrite H. reflexivity.
Qed.

(** X7: an empty or blank pattern matches the empty candidate and no
    other. *)
Theorem blank_pattern_matches_only_the_empty_string (p str : string)
  (Hblank : JsString.trim p = EmptyString) :
  matcherMatch p str = Ok (String.eqb str EmptyString).
Proof.
  unfold matcherMatch, Matcher.new. rewrite Hblank. reflexivity.
Qed.

Lemma blank_pattern_matches_only_the_empty_string_witness :
  matcherMatch "   " "" = Ok true /\ matcherMatch "   " " " = Ok false.
Proof.
  split.
  - apply (blank_pattern_matches_only_the_empty_string "   " ""). reflexivity.
  - apply (blank_pattern_matches_only_the_empty_string "   " " "). reflexivity.
Defined.

(** ** Patterns without wildcard and without group *)

Lemma reEscape_at a s' bef :
  RegExp.m Matcher.reEscape false (RegExp.mkState bef (String a s') []) Some
  = match s' with
    | String c rest =>
        if Ascii.eqb a "\" && negb (JsString.isLineTerminator c)
        then Some (RegExp.mkState (c :: a :: bef) rest [(1, String c EmptyString)])
        else None
    | EmptyString => None
    end.
Proof.
  cbn [Matcher.reEscape RegExp.m RegExp.step RegExp.after RegExp.before RegExp.caps].
  change 92%N with (JsString.charCode "\"). rewrite charCode_eqb.
  destruct (Ascii.eqb a "\"); [|destruct s'; reflexivity].
  destruct s' as [|c rest]; [reflexivity|].
  cbn [andb]. destruct (JsString.isLineTerminator c); [reflexivity|].
  cbn [negb]. unfold RegExp.setCap, RegExp.between, RegExp.position.
  cbn [RegExp.before RegExp.after RegExp.caps List.length filter].
  replace (Nat.leb (S (List.length bef)) (S (S (List.length bef)))) with true
    by (symmetry; apply Nat.leb_le; lia).
  replace (S (S (List.length bef)) - S (List.length bef)) with 1 by lia.
  cbn [substring]. rewrite substring_zero_zero. reflexivity.
Qed.

Lemma replace_reEscape n : forall s bef,
  String.length s <= n ->
  RegExp.replaceFrom Matcher.reEscape RegExp.dollar1 bef s 0 = unescape s.
Proof.
  induction n as [|n IH]; intros s bef Hn.
  - destruct s; [reflexivity|simpl in Hn; lia].
  - destruct s as [|a s']; [reflexivity|].
    cbn [RegExp.replaceFrom]. rewrite reEscape_at.
    destruct s' as [|c rest].
    + cbn [RegExp.replaceFrom unescape]. reflexivity.
    + cbn [unescape]. cbn [String.length] in Hn.
      destruct (Ascii.eqb a "\" && negb (JsString.isLineTerminator c)).
      * unfold RegExp.position. cbn [RegExp.before RegExp.caps List.length].
        replace (S (S (List.length bef)) - List.length bef) with 2 by lia.
        cbn [RegExp.replaceFrom RegExp.dollar1 RegExp.getCap Nat.eqb append].
        rewrite IH by lia. reflexivity.
      * rewrite IH by (cbn [String.length]; lia). reflexivity.
Qed.

Lemma unescape_spec s : RegExp.replace Matcher.reEscape RegExp.dollar1 s = unescape s.
Proof. apply (replace_reEscape (String.length s)). lia. Qed.

Lemma unescape_plain s : contains "\" s = false -> unescape s = s.
Proof.
  induction s as [|a s IH]; [reflexivity|].
  cbn [contains]. intros H. apply orb_false_iff in H. destruct H as [Ha H].
  cbn [unescape]. rewrite Ha. cbn [andb]. rewrite (IH H). destruct s; reflexivity.
Qed.

Lemma unescape_nonempty s : s <> EmptyString -> unescape s <> EmptyString.
Proof.
  destruct s as [|a [|c rest]]; [contradiction| |]; intros _; cbn [unescape].
  - discriminate.
  - destruct (_ && _); discriminate.
Qed.

Lemma braceExpand_no_group q :
  (start (balanced "{" "}" q) < 0)%Z -> Matcher.braceExpand q = [q].
Proof.
  intros H. unfold Matcher.braceExpand.
  destruct (negb (RegExp.test Matcher.reBraces q)); [reflexivity|].
  destruct (String.eqb (JsString.substr q 0 2) "{}") eqn:E.
  - destruct (leading_braces q E) as (rest & -> & _).
    change ("{}" ++ rest) with ("" ++ "{" ++ "" ++ "}" ++ rest) in H.
    rewrite balanced_group in H by reflexivity. cbn [start String.length] in H. lia.
  - rewrite expand_unfold. unfold Matcher.expandBody.
    destruct (Z.ltb_spec (start (balanced "{" "}" q)) 0); [reflexivity|lia].
Qed.

Lemma match_literal q str :
  Matcher.match_
    (Matcher.mk q (filter Matcher.isTruthy [Matcher.Literal (unescape q)])
       (String.eqb q EmptyString) false) str
  = String.eqb str (unescape q).
Proof.
  unfold Matcher.match_. cbn [Matcher.empty Matcher.set].
  destruct (String.eqb_spec q EmptyString) as [->|Hq]; [reflexivity|].
  apply unescape_nonempty in Hq.
  cbn [filter Matcher.isTruthy].
  destruct (String.eqb_spec (unescape q) EmptyString) as [E|_]; [contradiction|].
  cbn [negb existsb]. unfold Matcher.matchOne. cbn [Matcher.isTruthy].
  destruct (String.eqb_spec (unescape q) EmptyString) as [E|_]; [contradiction|].
  cbn [negb]. apply orb_false_r.
Qed.

Lemma matcherMatch_literal p str :
  contains "*" (JsString.trim p) = false ->
  Matcher.braceExpand (JsString.trim p) = [JsString.trim p] ->
  (JsString.len (JsString.trim p) <= 1024 * 64)%Z ->
  matcherMatch p str = Ok (String.eqb str (unescape (JsString.trim p))).
Proof.
  intros Hstar Hexp Hlen. unfold matcherMatch, Matcher.new.
  rewrite Hexp. cbn [Matcher.parseAll].
  rewrite parse_literal by assumption. cbn [bind fst snd].
  rewrite unescape_spec, match_literal. reflexivity.
Qed.

(** X8: a pattern without [*] and without a brace group, within the length
    guard, matches exactly one candidate: its trimmed text with the escapes
    removed (a backslash before a code unit is dropped); without a backslash
    that is the trimmed pattern itself. *)
Theorem literal_pattern_matches_its_unescaped_text (p str : string)
  (Hstar : contains "*" (JsString.trim p) = false)
  (Hgroup : (start (balanced "{" "}" (JsString.trim p)) < 0)%Z)
  (Hlen : (JsString.len (JsString.trim p) <= 1024 * 64)%Z) :
  matcherMatch p str = Ok (String.eqb str (unescape (JsString.trim p)))
  /\ (contains "\" (JsString.trim p) = false -> unescape (JsString.trim p) = JsString.trim p).
Proof.
  split; [|apply unescape_plain].
  apply matcherMatch_literal; try assumption.
  apply braceExpand_no_group. exact Hgroup.
Qed.

Lemma literal_pattern_matches_its_unescaped_text_witness :
  matcherMatch " docs/read\me " "docs/readme" = Ok true
  /\ matcherMatch " docs/read\me " "docs/read\me" = Ok false
  /\ matcherMatch "a\\b" "a\b" = Ok true.
Proof.
  split; [|split].
  - apply (literal_pattern_matches_its_unescaped_text " docs/read\me " "docs/readme");
      [reflexivity|reflexivity|vm_compute; discriminate].
  - apply (literal_pattern_matches_its_unescaped_text " docs/read\me " "docs/read\me");
      [reflexivity|reflexivity|vm_compute; discriminate].
  - apply (literal_pattern_matches_its_unescaped_text "a\\b" "a\b");
      [reflexivity|reflexivity|vm_compute; discriminate].
Defined.

(** ** Wildcard patterns, from the constructor to [match] *)

Lemma isGlob_no_open q : isGlob q = true -> contains "{" q = false.
Proof.
  induction q as [|c q IH]; [reflexivity|].
  cbn [isGlob contains]. intros H. apply andb_true_iff in H. destruct H as [Hc H].
  rewrite (IH H), orb_false_r.
  destruct (Ascii.eqb_spec c "{") as [->|]; [discriminate Hc|reflexivity].
Qed.

Lemma no_open_no_group q :
  contains "{" q = false -> (start (balanced "{" "}" q) < 0)%Z.
Proof.
  intros H. unfold balanced, range, JsString.indexOf.
  rewrite (indexOfAux_absent _ _ _ _ H). cbn. lia.
Qed.

Lemma star_nonempty q : contains "*" q = true -> String.eqb q EmptyString = false.
Proof. destruct q; [discriminate|reflexivity]. Qed.

Lemma matcherMatch_glob p str :
  isGlob (JsString.trim p) = true -> contains "*" (JsString.trim p) = true ->
  (JsString.len (JsString.trim p) <= 1024 * 64)%Z ->
  matcherMatch p str = Ok (startsOnLine str && globMatch (JsString.trim p) str).
Proof.
  intros Hglob Hstar Hlen. unfold matcherMatch, Matcher.new.
  rewrite braceExpand_no_group by (apply no_open_no_group, isGlob_no_open; exact Hglob).
  cbn [Matcher.parseAll]. rewrite parse_wildcard by assumption.
  cbn [bind fst snd filter Matcher.isTruthy].
  unfold Matcher.match_. cbn [Matcher.empty Matcher.set].
  rewrite star_nonempty by exact Hstar.
  cbn [existsb]. unfold Matcher.matchOne. cbn [Matcher.isTruthy negb].
  rewrite test_globRegex, orb_false_r. reflexivity.
Qed.

(** X9: a pattern made of [*] and of code units that mean nothing in a
    regular expression, with at least one [*], matches exactly the
    candidates that start with a code unit other than a line terminator and
    in which every [*] stands for a run, possibly empty, of code units other
    than [/] and every other code unit for itself. *)
Theorem wildcard_pattern_matches_as_glob (p str : string)
  (Hglob : isGlob (JsString.trim p) = true)
  (Hstar : contains "*" (JsString.trim p) = true)
  (Hlen : (JsString.len (JsString.trim p) <= 1024 * 64)%Z) :
  matcherMatch p str = Ok (startsOnLine str && globMatch (JsString.trim p) str).
Proof. apply matcherMatch_glob; assumption. Qed.

Lemma wildcard_pattern_matches_as_glob_witness :
  matcherMatch "books/*/pages/*" "books/12/pages/7" = Ok true
  /\ matcherMatch "books/*/pages/*" "books/12/34/pages/7" = Ok false
  /\ matcherMatch "books/*/pages/*" "books//pages/" = Ok true.
Proof.
  split; [|split].
  - apply (wildcard_pattern_matches_as_glob "books/*/pages/*" "books/12/pages/7");
      [reflexivity|reflexivity|vm_compute; discriminate].
  - apply (wildcard_pattern_matches_as_glob "books/*/pages/*" "books/12/34/pages/7");
      [reflexivity|reflexivity|vm_compute; discriminate].
  - apply (wildcard_pattern_matches_as_glob "books/*/pages/*" "books//pages/");
      [reflexivity|reflexivity|vm_compute; discriminate].
Defined.

Lemma globMatch_star_only t : globMatch "*" t = negb (contains "/" t).
Proof.
  induction t as [|x t IH]; [reflexivity|].
  rewrite globMatch_star, IH. cbn [globMatch orb contains].
  symmetry. apply negb_orb.
Qed.

Lemma globMatch_literal_prefix w : forall q str,
  contains "*" w = false ->
  (globMatch (w ++ q) str = true <-> exists s, str = w ++ s /\ globMatch q s = true).
Proof.
  induction w as [|c w IH]; intros q str H.
  - cbn [append]. split; [eauto|]. intros (s & -> & Hs). exact Hs.
  - cbn [contains] in H. apply orb_false_iff in H. destruct H as [Hc H].
    cbn [append globMatch]. rewrite Hc.
    destruct str as [|x str].
    + split; [discriminate|]. intros (s & E & _). discriminate.
    + rewrite andb_true_iff, (IH q str H). split.
      * intros [Hx (s & -> & Hs)]. apply Ascii.eqb_eq in Hx. subst x. eauto.
      * intros (s & E & Hs). injection E as -> ->. rewrite Ascii.eqb_refl. eauto.
Qed.

(** X10: a pattern [w*], where [w] has no wildcard and no code unit special
    in a regular expression, matches exactly the candidates [w] followed by
    a text without [/], provided they are not empty and do not start with a
    line terminator.  So ["*"] alone matches ["anything"], but neither [""]
    nor ["a/b"]. *)
Theorem prefix_wildcard_matches_one_segment (p w str : string)
  (Hp : JsString.trim p = w ++ "*")
  (Hw : isGlob w = true) (Hws : contains "*" w = false)
  (Hlen : (JsString.len (w ++ "*") <= 1024 * 64)%Z) :
  exists b, matcherMatch p str = Ok b
            /\ (b = true <->
                startsOnLine str = true
                /\ exists t, str = w ++ t /\ contains "/" t = false).
Proof.
  exists (startsOnLine str && globMatch (w ++ "*") str). split.
  - rewrite <- Hp. apply matcherMatch_glob; rewrite Hp.
    + rewrite isGlob_append, Hw. reflexivity.
    + rewrite contains_append. apply orb_true_iff. right. reflexivity.
    + exact Hlen.
  - rewrite andb_true_iff, (globMatch_literal_prefix w "*" str Hws). split.
    + intros [H1 (t & -> & Ht)]. rewrite globMatch_star_only in Ht.
      apply negb_true_iff in Ht. eauto.
    + intros [H1 (t & -> & Ht)]. split; [exact H1|]. exists t. split; [reflexivity|].
      rewrite globMatch_star_only, Ht. reflexivity.
Qed.

Lemma prefix_wildcard_matches_one_segment_witness :
  (exists b, matcherMatch "*" "a/b" = Ok b
             /\ (b = true <->
                 startsOnLine "a/b" = true
                 /\ exists t, "a/b" = "" ++ t /\ contains "/" t = false))
  /\ matcherMatch "*" "a/b" = Ok false
  /\ matcherMatch "*" "" = Ok false
  /\ matcherMatch "*" "anything" = Ok true.
Proof.
  split; [|repeat split; vm_compute; reflexivity].
  apply (prefix_wildcard_matches_one_segment "*" "" "a/b");
    [reflexivity|reflexivity|reflexivity|vm_compute; discriminate].
Defined.

(** ** Brace groups, from the constructor to [match] *)

Lemma isLiteralChar_inv c :
  isLiteralChar c = true ->
  JsString.isWhiteSpace c = false
  /\ Ascii.eqb c "{" = false /\ Ascii.eqb c "}" = false /\ Ascii.eqb c "," = false
  /\ Ascii.eqb c "*" = false /\ Ascii.eqb c "\" = false /\ Ascii.eqb c "$" = false.
Proof.
  unfold isLiteralChar. cbn [existsb]. intros H.
  apply andb_true_iff in H. destruct H as [H1 H2].
  apply negb_true_iff in H1. apply negb_true_iff in H2.
  repeat (apply orb_false_iff in H2; destruct H2 as [? H2]).
  repeat split; assumption.
Qed.

Lemma isLiteral_inv s :
  isLiteral s = true ->
  noWhiteSpace s = true
  /\ contains "{" s = false /\ contains "}" s = false /\ contains "," s = false
  /\ contains "*" s = false /\ contains "\" s = false /\ contains "$" s = false.
Proof.
  induction s as [|c s IH]; [repeat split; reflexivity|].
  cbn [isLiteral]. intros H. apply andb_true_iff in H. destruct H as [Hc H].
  destruct (isLiteralChar_inv c Hc) as (H0 & H1 & H2 & H3 & H4 & H5 & H6).
  destruct (IH H) as (I0 & I1 & I2 & I3 & I4 & I5 & I6).
  cbn [noWhiteSpace contains].
  rewrite H0, H1, H2, H3, H4, H5, H6, I0, I1, I2, I3, I4, I5, I6.
  repeat split; reflexivity.
Qed.

Lemma endsWith_contains c s : contains c s = false -> endsWith c s = false.
Proof.
  induction s as [|x s IH]; [reflexivity|].
  cbn [contains]. intros H. apply orb_false_iff in H. destruct H as [Hx H].
  cbn [endsWith]. destruct s; [exact Hx|apply IH; exact H].
Qed.

Lemma lineTerminator_is_white c :
  JsString.isWhiteSpace c = false -> JsString.isLineTerminator c = false.
Proof.
  unfold JsString.isWhiteSpace, JsString.isLineTerminator.
  intros H. apply orb_false_iff in H. destruct H as [H _].
  apply orb_false_iff in H. destruct H as [H _].
  apply orb_false_iff. split; apply N.eqb_neq; intros E; rewrite E in H; discriminate.
Qed.

Lemma noWhiteSpace_append s1 s2 :
  noWhiteSpace (s1 ++ s2) = noWhiteSpace s1 && noWhiteSpace s2.
Proof.
  induction s1 as [|c s1 IH]; [reflexivity|].
  cbn [append noWhiteSpace]. rewrite IH. apply andb_assoc.
Qed.

Lemma trimEnd_noWhiteSpace s : noWhiteSpace s = true -> JsString.trimEnd s = s.
Proof.
  induction s as [|c s IH]; [reflexivity|].
  cbn [noWhiteSpace]. intros H. apply andb_true_iff in H. destruct H as [Hc H].
  apply negb_true_iff in Hc.
  cbn [JsString.trimEnd]. rewrite (IH H). destruct s; [rewrite Hc|]; reflexivity.
Qed.

Lemma trim_noWhiteSpace s : noWhiteSpace s = true -> JsString.trim s = s.
Proof.
  intros H. unfold JsString.trim.
  replace (JsString.trimStart s) with s; [apply trimEnd_noWhiteSpace; exact H|].
  destruct s as [|c s]; [reflexivity|].
  cbn [noWhiteSpace] in H. apply andb_true_iff in H. destruct H as [Hc _].
  apply negb_true_iff in Hc. cbn [JsString.trimStart]. rewrite Hc. reflexivity.
Qed.

(** The greedy loop of [.*] before [}]: with a [}] ahead on the same line
    the expression finds a match. *)
Section BraceLoop.

Variable body : RegExp.state -> (RegExp.state -> option RegExp.state) -> option RegExp.state.
Variable k : RegExp.state -> option RegExp.state.

Hypothesis body_other : forall bef x rest cs,
  JsString.isLineTerminator x = false ->
  exists cs', forall c,
    body (RegExp.mkState bef (String x rest) cs) c = c (RegExp.mkState (x :: bef) rest cs').
Hypothesis k_close : forall bef rest cs,
  isSome (k (RegExp.mkState bef (String "}" rest) cs)) = true.

Lemma greedy_reaches_close y : forall z bef cs fuel,
  noWhiteSpace y = true -> String.length y <= fuel ->
  isSome (RegExp.optional body true k fuel None
            (RegExp.mkState bef (y ++ String "}" z) cs)) = true.
Proof.
  induction y as [|x y IH]; intros z bef cs fuel Hy Hf.
  - cbn [append]. destruct fuel; cbn [RegExp.optional]; [apply k_close|].
    destruct (body _ _); [reflexivity|apply k_close].
  - cbn [noWhiteSpace] in Hy. apply andb_true_iff in Hy. destruct Hy as [Hx Hy].
    apply negb_true_iff in Hx. apply lineTerminator_is_white in Hx.
    destruct fuel as [|fuel]; [simpl in Hf; lia|].
    cbn [append RegExp.optional].
    destruct (body_other bef x (y ++ String "}" z) cs Hx) as [cs' Hb].
    rewrite Hb. cbn [RegExp.position RegExp.before List.length].
    rewrite eqb_succ. cbn [RegExp.decr option_map].
    assert (Hf' : String.length y <= fuel) by (simpl in Hf; lia).
    specialize (IH z (x :: bef) cs' fuel Hy Hf').
    destruct (RegExp.optional body true k fuel None _); [reflexivity|discriminate IH].
Qed.

End BraceLoop.

Lemma reBraces_at y z bef :
  noWhiteSpace y = true ->
  isSome (RegExp.m Matcher.reBraces false
            (RegExp.mkState bef ("{" ++ y ++ "}" ++ z) []) Some) = true.
Proof.
  intros Hy.
  cbn [append Matcher.reBraces RegExp.m RegExp.step RegExp.after RegExp.before RegExp.caps
       RegExp.mandatory N.to_nat RegExp.groupsIn RegExp.remaining option_map].
  change (N.to_nat 0) with 0. cbn [RegExp.mandatory N.eqb JsString.charCode].
  change (N.eqb (N_of_ascii "{") 123) with true. cbv iota.
  apply (greedy_reaches_close
           (fun st c => RegExp.step (fun x => negb (JsString.isLineTerminator x)) false
                          (RegExp.clearCaps [] st) c)
           (fun st' => RegExp.step (fun x => N.eqb (JsString.charCode x) 125) false st' Some)).
  - intros bef0 x rest cs Hx. eexists. intros c.
    cbn [RegExp.step RegExp.clearCaps RegExp.after RegExp.before RegExp.caps].
    rewrite Hx. reflexivity.
  - reflexivity.
  - exact Hy.
  - rewrite length_append. lia.
Qed.

Lemma execFrom_later r s x : forall bef,
  (forall bef', isSome (RegExp.m r false (RegExp.mkState bef' s []) Some) = true) ->
  isSome (RegExp.execFrom r bef (x ++ s)) = true.
Proof.
  induction x as [|c x IH]; intros bef H.
  - cbn [append]. specialize (H bef).
    destruct s; cbn [RegExp.execFrom];
      destruct (RegExp.m r false _ Some); try reflexivity; discriminate.
  - cbn [append RegExp.execFrom].
    destruct (RegExp.m r false _ Some); [reflexivity|]. apply IH. exact H.
Qed.

Lemma test_reBraces x y z :
  noWhiteSpace y = true ->
  RegExp.test Matcher.reBraces (x ++ "{" ++ y ++ "}" ++ z) = true.
Proof.
  intros Hy. unfold RegExp.test, RegExp.exec.
  generalize (execFrom_later Matcher.reBraces ("{" ++ y ++ "}" ++ z) x []
                (fun bef' => reBraces_at y z bef' Hy)).
  destruct (RegExp.execFrom _ _ _); [reflexivity|discriminate].
Qed.

Lemma splitList_join sep parts :
  parts <> [] -> (forall x, In x parts -> contains sep x = false) ->
  JsString.splitList sep (JsString.join (String sep EmptyString) parts) = parts.
Proof.
  induction parts as [|x parts IH]; [contradiction|]. intros _ H.
  destruct parts as [|y parts].
  - cbn [JsString.join]. unfold JsString.splitList.
    rewrite split_without by (apply H; left; reflexivity). reflexivity.
  - change (JsString.join (String sep EmptyString) (x :: y :: parts))
      with (x ++ String sep (JsString.join (String sep EmptyString) (y :: parts))).
    unfold JsString.splitList at 1.
    rewrite split_first by (apply H; left; reflexivity).
    rewrite IH; [reflexivity|discriminate|]. intros z Hz. apply H. right. exact Hz.
Qed.

Lemma parseAll_literals alts :
  (forall a, In a alts ->
             contains "*" a = false /\ (JsString.len a <= 1024 * 64)%Z) ->
  Matcher.parseAll false alts
  = Ok (map (fun a => Matcher.Literal (unescape a)) alts, false).
Proof.
  induction alts as [|a alts IH]; intros H; [reflexivity|].
  cbn [Matcher.parseAll map].
  destruct (H a (or_introl eq_refl)) as [Hs Hl].
  rewrite parse_literal by assumption. cbn [bind fst snd].
  rewrite IH by (intros b Hb; apply H; right; exact Hb).
  cbn [bind fst snd]. rewrite unescape_spec. reflexivity.
Qed.

Lemma existsb_literals str alts :
  (forall a, In a alts -> a <> EmptyString) ->
  existsb (Matcher.matchOne str) (filter Matcher.isTruthy (map Matcher.Literal alts))
  = existsb (String.eqb str) alts.
Proof.
  induction alts as [|a alts IH]; intros H; [reflexivity|].
  cbn [map filter Matcher.isTruthy].
  assert (Ha : String.eqb a EmptyString = false)
    by (apply String.eqb_neq, H; left; reflexivity).
  rewrite Ha. cbn [negb existsb]. unfold Matcher.matchOne at 1.
  cbn [Matcher.isTruthy]. rewrite Ha. cbn [negb].
  rewrite IH by (intros b Hb; apply H; right; exact Hb). reflexivity.
Qed.

(** A pattern whose alternatives are all plain: it matches exactly them. *)
Lemma matcherMatch_alternatives p alts str :
  Matcher.braceExpand (JsString.trim p) = alts ->
  JsString.trim p <> EmptyString ->
  (forall a, In a alts ->
             contains "*" a = false /\ contains "\" a = false /\ a <> EmptyString) ->
  (JsString.len (JsString.trim p) <= 1024 * 64)%Z ->
  matcherMatch p str = Ok (existsb (String.eqb str) alts).
Proof.
  intros Hexp Hne Halts Hlen. unfold matcherMatch, Matcher.new. rewrite Hexp.
  rewrite parseAll_literals.
  2:{ intros a Ha. split; [apply Halts; exact Ha|].
      rewrite <- Hexp in Ha. apply braceExpand_length in Ha.
      unfold JsString.len in *. lia. }
  cbn [bind fst snd]. unfold Matcher.match_. cbn [Matcher.empty Matcher.set].
  apply String.eqb_neq in Hne. rewrite Hne.
  replace (map (fun a => Matcher.Literal (unescape a)) alts)
    with (map Matcher.Literal alts).
  - rewrite existsb_literals; [reflexivity|]. intros a Ha. apply Halts. exact Ha.
  - apply map_ext_in. intros a Ha. rewrite unescape_plain; [reflexivity|].
    apply Halts. exact Ha.
Qed.

Lemma isLiteral_append s1 s2 : isLiteral (s1 ++ s2) = isLiteral s1 && isLiteral s2.
Proof.
  induction s1 as [|c s1 IH]; [reflexivity|].
  cbn [append isLiteral]. rewrite IH. apply andb_assoc.
Qed.

Lemma isWord_inv s : isWord s = true -> s <> EmptyString /\ isLiteral s = true.
Proof.
  unfold isWord. intros H. apply andb_true_iff in H. destruct H as [H1 H2].
  split; [|exact H2]. apply negb_true_iff in H1. apply String.eqb_neq. exact H1.
Qed.

Lemma noWhiteSpace_join parts :
  (forall x, In x parts -> noWhiteSpace x = true) ->
  noWhiteSpace (JsString.join "," parts) = true.
Proof.
  induction parts as [|x parts IH]; intros H; [reflexivity|].
  destruct parts as [|y parts]; [apply H; left; reflexivity|].
  change (JsString.join "," (x :: y :: parts))
    with (x ++ "," ++ JsString.join "," (y :: parts)).
  rewrite !noWhiteSpace_append, (H x) by (left; reflexivity).
  rewrite IH by (intros z Hz; apply H; right; exact Hz). reflexivity.
Qed.

Lemma contains_join c parts :
  Ascii.eqb "," c = false ->
  (forall x, In x parts -> contains c x = false) ->
  contains c (JsString.join "," parts) = false.
Proof.
  intros Hc. induction parts as [|x parts IH]; intros H; [reflexivity|].
  destruct parts as [|y parts]; [apply H; left; reflexivity|].
  change (JsString.join "," (x :: y :: parts))
    with (x ++ "," ++ JsString.join "," (y :: parts)).
  rewrite !contains_append, (H x) by (left; reflexivity).
  rewrite IH by (intros z Hz; apply H; right; exact Hz).
  cbn [contains]. rewrite Hc. reflexivity.
Qed.

Lemma isSegmentChar_inv c :
  isSegmentChar c = true ->
  JsString.isWhiteSpace c = false
  /\ Ascii.eqb c "{" = false /\ Ascii.eqb c "}" = false /\ Ascii.eqb c "," = false
  /\ Ascii.eqb c "\" = false /\ Ascii.eqb c "$" = false.
Proof.
  unfold isSegmentChar. cbn [existsb]. intros H.
  apply andb_true_iff in H. destruct H as [H1 H2].
  apply negb_true_iff in H1. apply negb_true_iff in H2.
  repeat (apply orb_false_iff in H2; destruct H2 as [? H2]).
  repeat split; assumption.
Qed.

Lemma isSegment_inv s :
  isSegment s = true ->
  noWhiteSpace s = true
  /\ contains "{" s = false /\ contains "}" s = false /\ contains "," s = false
  /\ contains "\" s = false /\ contains "$" s = false.
Proof.
  unfold isSegment. induction s as [|c s IH]; [repeat split; reflexivity|].
  cbn [allOf]. intros H. apply andb_true_iff in H. destruct H as [Hc H].
  destruct (isSegmentChar_inv c Hc) as (H0 & H1 & H2 & H3 & H4 & H5).
  destruct (IH H) as (I0 & I1 & I2 & I3 & I4 & I5).
  cbn [noWhiteSpace contains].
  rewrite H0, H1, H2, H3, H4, H5, I0, I1, I2, I3, I4, I5.
  repeat split; reflexivity.
Qed.

Lemma isSegment_append s1 s2 : isSegment (s1 ++ s2) = isSegment s1 && isSegment s2.
Proof.
  unfold isSegment. induction s1 as [|c s1 IH]; [reflexivity|].
  cbn [append allOf]. rewrite IH. apply andb_assoc.
Qed.

Lemma isLiteral_isSegment s : isLiteral s = true -> isSegment s = true.
Proof.
  unfold isSegment. induction s as [|c s IH]; [reflexivity|].
  cbn [isLiteral allOf]. intros H. apply andb_true_iff in H. destruct H as [Hc H].
  rewrite (IH H), andb_true_r.
  destruct (isLiteralChar_inv c Hc) as (H0 & H1 & H2 & H3 & H4 & H5 & H6).
  unfold isSegmentChar. cbn [existsb]. rewrite H0, H1, H2, H3, H5, H6. reflexivity.
Qed.

(** The brace expansion of [pre{part1,...,partn}post]. *)
Lemma braceExpand_segments pre_ parts post_ :
  isSegment pre_ = true -> isSegment post_ = true ->
  parts <> [] -> (forall x, In x parts -> x <> EmptyString /\ isSegment x = true) ->
  Matcher.braceExpand (pre_ ++ "{" ++ JsString.join "," parts ++ "}" ++ post_)
  = map (fun part => pre_ ++ part ++ post_) parts.
Proof.
  intros Hpre Hpost Hne Hw.
  destruct (isSegment_inv pre_ Hpre) as (P0 & P1 & P2 & P3 & P4 & P5).
  destruct (isSegment_inv post_ Hpost) as (Q0 & Q1 & Q2 & Q3 & Q4 & Q5).
  unfold Matcher.braceExpand.
  rewrite test_reBraces.
  2:{ apply noWhiteSpace_join. intros x Hx. apply isSegment_inv, Hw, Hx. }
  cbn [negb].
  replace (String.eqb (JsString.substr (pre_ ++ "{" ++ JsString.join "," parts ++ "}" ++ post_)
                         0 2) "{}") with false.
  2:{ symmetry. apply not_true_iff_false. intros E.
      destruct (leading_braces _ E) as (rest & E' & _).
      destruct pre_ as [|c pre_].
      - destruct parts as [|x parts]; [contradiction|].
        destruct (Hw x (or_introl eq_refl)) as [Hx1 Hx2].
        destruct x as [|d x]; [contradiction|].
        unfold isSegment in Hx2. cbn [allOf] in Hx2.
        apply andb_true_iff in Hx2. destruct Hx2 as [Hd _].
        apply isSegmentChar_inv in Hd. destruct Hd as (_ & _ & Hd & _).
        destruct parts; cbn in E'; injection E' as E' _; subst d; discriminate.
      - unfold isSegment in Hpre. cbn [allOf] in Hpre.
        apply andb_true_iff in Hpre. destruct Hpre as [Hc _].
        apply isSegmentChar_inv in Hc. destruct Hc as (_ & Hc & _).
        cbn in E'. injection E' as E' _. subst c. discriminate. }
  rewrite expand_group.
  - rewrite splitList_join; [|exact Hne|intros x Hx; apply isSegment_inv, Hw, Hx].
    rewrite (expand_no_group post_).
    2:{ intros p y q E. rewrite E, contains_append in Q1. cbn in Q1.
        rewrite orb_true_r in Q1. discriminate. }
    unfold keepAtTop, crossProduct. cbn [negb orb].
    clear Hne. induction parts as [|x parts IH]; [reflexivity|].
    cbn [flat_map map app filter].
    replace (String.eqb (pre_ ++ x ++ post_) EmptyString) with false.
    + cbn [negb]. f_equal. apply IH.
      intros y Hy. apply Hw. right. exact Hy.
    + symmetry. apply String.eqb_neq. intros E.
      destruct (Hw x (or_introl eq_refl)) as [Hx _].
      destruct pre_; [|discriminate]. destruct x; [contradiction|discriminate].
  - exact P1.
  - apply contains_join; [reflexivity|]. intros x Hx. apply isSegment_inv, Hw, Hx.
  - apply endsWith_contains. exact P5.
Qed.

Lemma braceExpand_group pre_ parts post_ :
  isLiteral pre_ = true -> isLiteral post_ = true ->
  parts <> [] -> (forall x, In x parts -> isWord x = true) ->
  Matcher.braceExpand (pre_ ++ "{" ++ JsString.join "," parts ++ "}" ++ post_)
  = map (fun part => pre_ ++ part ++ post_) parts.
Proof.
  intros Hpre Hpost Hne Hparts.
  apply braceExpand_segments; try apply isLiteral_isSegment; try assumption.
  intros x Hx. destruct (isWord_inv x (Hparts x Hx)) as [H1 H2].
  split; [exact H1|apply isLiteral_isSegment; exact H2].
Qed.

Lemma matcherMatch_group
  (pre_ post_ : string) (parts : list string) (str : string)
  (Hpre : isLiteral pre_ = true) (Hpost : isLiteral post_ = true)
  (Hparts : forallb isWord parts = true) (Hne : parts <> [])
  (Hlen : (JsString.len (pre_ ++ "{" ++ JsString.join "," parts ++ "}" ++ post_)
           <= 1024 * 64)%Z) :
  matcherMatch (pre_ ++ "{" ++ JsString.join "," parts ++ "}" ++ post_) str
  = Ok (existsb (fun part => String.eqb str (pre_ ++ part ++ post_)) parts).
Proof.
  rewrite forallb_forall in Hparts.
  assert (Hw : forall x, In x parts -> x <> EmptyString /\ isLiteral x = true)
    by (intros x Hx; apply isWord_inv, Hparts, Hx).
  assert (Htrim : JsString.trim (pre_ ++ "{" ++ JsString.join "," parts ++ "}" ++ post_)
                  = pre_ ++ "{" ++ JsString.join "," parts ++ "}" ++ post_).
  { apply trim_noWhiteSpace. rewrite !noWhiteSpace_append.
    destruct (isLiteral_inv pre_ Hpre) as (-> & _).
    destruct (isLiteral_inv post_ Hpost) as (-> & _).
    rewrite noWhiteSpace_join by (intros x Hx; apply isLiteral_inv, Hw, Hx).
    reflexivity. }
  rewrite (matcherMatch_alternatives _ (map (fun part => pre_ ++ part ++ post_) parts)).
  - f_equal. clear. induction parts as [|x parts IH]; [reflexivity|].
    cbn [map existsb]. rewrite IH. reflexivity.
  - rewrite Htrim. apply braceExpand_group; assumption.
  - rewrite Htrim. destruct pre_; discriminate.
  - intros a Ha. apply in_map_iff in Ha. destruct Ha as (x & <- & Hx).
    destruct (Hw x Hx) as [Hx1 Hx2].
    destruct (isLiteral_inv (pre_ ++ x ++ post_)) as (_ & _ & _ & _ & H4 & H5 & _).
    { rewrite !isLiteral_append, Hpre, Hx2, Hpost. reflexivity. }
    repeat split; [exact H4|exact H5|].
    destruct pre_; [|discriminate]. destruct x; [contradiction|discriminate].
  - rewrite Htrim. exact Hlen.
Qed.

(** X11: a pattern [pre{part1,...,partn}post] of plain words matches exactly
    the candidates [pre + parti + post]. *)
Theorem brace_group_matches_each_alternative
  (pre_ post_ : string) (parts : list string) (str : string)
  (Hpre : isLiteral pre_ = true) (Hpost : isLiteral post_ = true)
  (Hparts : forallb isWord parts = true) (Hne : parts <> [])
  (Hlen : (JsString.len (pre_ ++ "{" ++ JsString.join "," parts ++ "}" ++ post_)
           <= 1024 * 64)%Z) :
  matcherMatch (pre_ ++ "{" ++ JsString.join "," parts ++ "}" ++ post_) str
  = Ok (existsb (fun part => String.eqb str (pre_ ++ part ++ post_)) parts).
Proof. apply matcherMatch_group; assumption. Qed.

Lemma brace_group_matches_each_alternative_witness :
  matcherMatch "docs/{read,write}/all" "docs/write/all" = Ok true
  /\ matcherMatch "docs/{read,write}/all" "docs/delete/all" = Ok false.
Proof.
  split.
  - apply (brace_group_matches_each_alternative "docs/" "/all" ["read"; "write"]
             "docs/write/all");
      [reflexivity|reflexivity|reflexivity|discriminate|vm_compute; discriminate].
  - apply (brace_group_matches_each_alternative "docs/" "/all" ["read"; "write"]
             "docs/delete/all");
      [reflexivity|reflexivity|reflexivity|discriminate|vm_compute; discriminate].
Defined.

(** ** Placeholders that hold an array *)

Lemma getValueFromPath_two_keys data a b :
  contains "." a = false -> contains "." b = false ->
  getValueFromPath data (a ++ "." ++ b)
  = rendered (if truthy (getProp (VObj data) a)
              then getProp (getProp (VObj data) a) b
              else VUndefined).
Proof.
  intros Ha Hb. unfold getValueFromPath.
  change (a ++ "." ++ b) with (a ++ String "." b).
  rewrite split_first by exact Ha. unfold JsString.splitList.
  rewrite split_without by exact Hb. reflexivity.
Qed.

Lemma ToString_strings xs : ToString (VArr (map VStr xs)) = JsString.join "," xs.
Proof.
  cbn [ToString]. rewrite map_map. cbn [ToString].
  f_equal. apply map_id.
Qed.

Lemma applyContext_interpolate context str :
  applyContext str (Some context) = specialTrim (interpolate context str).
Proof.
  unfold applyContext, interpolate, RegExp.replace.
  rewrite replace_reDelimiters. reflexivity.
Qed.

Lemma specialTrim_noWhiteSpace s : noWhiteSpace s = true -> specialTrim s = s.
Proof. intros H. apply replace_trim_id. exact H. Qed.

Lemma opensPlaceholder_no_dollar s :
  contains "$" s = false -> opensPlaceholder s = false.
Proof.
  induction s as [|c s IH]; [reflexivity|].
  cbn [contains opensPlaceholder]. intros H. apply orb_false_iff in H.
  destruct H as [Hc H]. rewrite Hc, (IH H). reflexivity.
Qed.

Lemma interpolate_one context pre_ path post_ :
  contains "$" pre_ = false -> contains "}" path = false -> contains "$" post_ = false ->
  interpolate context (pre_ ++ "${" ++ path ++ "}" ++ post_)
  = pre_ ++ ToString (getValueFromPath context path) ++ post_.
Proof.
  intros Hpre Hpath Hpost. unfold interpolate.
  rewrite substitute_placeholder
    by (try apply opensPlaceholder_no_dollar; assumption).
  rewrite substitute_plain by (apply opensPlaceholder_no_dollar; exact Hpost).
  reflexivity.
Qed.

(** X12: a placeholder whose two-key path leads to an array of words is
    replaced by the brace group of its elements, so that the pattern
    [pre${a.b}post] matches exactly the candidates [pre + x + post] for the
    elements [x] of the array. *)
Theorem array_placeholder_matches_each_element
  (context props : object) (a b pre_ post_ : string) (xs : list string) (str : string)
  (Ha : contains "." a = false) (Hb : contains "." b = false)
  (Hpath : contains "}" (a ++ "." ++ b) = false)
  (Hobj : lookup a context = Some (VObj props))
  (Harr : lookup b props = Some (VArr (map VStr xs)))
  (Hpre : isLiteral pre_ = true) (Hpost : isLiteral post_ = true)
  (Hxs : forallb isWord xs = true) (Hne : xs <> [])
  (Hlen : (JsString.len (pre_ ++ "{" ++ JsString.join "," xs ++ "}" ++ post_)
           <= 1024 * 64)%Z) :
  applyContext (pre_ ++ "${" ++ (a ++ "." ++ b) ++ "}" ++ post_) (Some context)
  = pre_ ++ "{" ++ JsString.join "," xs ++ "}" ++ post_
  /\ Statement.matchPattern (Some context) str
       (pre_ ++ "${" ++ (a ++ "." ++ b) ++ "}" ++ post_)
     = Ok (existsb (fun x => String.eqb str (pre_ ++ x ++ post_)) xs).
Proof.
  assert (Hw : forall x, In x xs -> x <> EmptyString /\ isLiteral x = true).
  { rewrite forallb_forall in Hxs. intros x Hx. apply isWord_inv, Hxs, Hx. }
  assert (Happ : applyContext (pre_ ++ "${" ++ (a ++ "." ++ b) ++ "}" ++ post_)
                   (Some context)
                 = pre_ ++ "{" ++ JsString.join "," xs ++ "}" ++ post_).
  { rewrite applyContext_interpolate.
    rewrite interpolate_one
      by (try exact Hpath; apply isLiteral_inv; assumption).
    rewrite getValueFromPath_two_keys by assumption.
    assert (Hg1 : getProp (VObj context) a = VObj props)
      by (cbn [getProp]; rewrite Hobj; reflexivity).
    assert (Hg2 : getProp (VObj props) b = VArr (map VStr xs))
      by (cbn [getProp]; rewrite Harr; reflexivity).
    rewrite Hg1. cbn [truthy]. rewrite Hg2. cbn [rendered]. rewrite ToString_strings. cbn [ToString].
    rewrite specialTrim_noWhiteSpace.
    - f_equal. cbn [append]. rewrite append_assoc. reflexivity.
    - rewrite !noWhiteSpace_append.
      destruct (isLiteral_inv pre_ Hpre) as (-> & _).
      destruct (isLiteral_inv post_ Hpost) as (-> & _).
      rewrite noWhiteSpace_join by (intros x Hx; apply isLiteral_inv, Hw, Hx).
      reflexivity. }
  split; [exact Happ|].
  unfold Statement.matchPattern. rewrite Happ.
  apply matcherMatch_group; assumption.
Qed.

Lemma array_placeholder_matches_each_element_witness :
  applyContext "role/${user.roles}" (Some [("user", VObj [("roles", VArr [VStr "admin"; VStr "editor"])])])
  = "role/{admin,editor}"
  /\ Statement.matchPattern
       (Some [("user", VObj [("roles", VArr [VStr "admin"; VStr "editor"])])])
       "role/editor" "role/${user.roles}" = Ok true.
Proof.
  apply (array_placeholder_matches_each_element
           [("user", VObj [("roles", VArr [VStr "admin"; VStr "editor"])])]
           [("roles", VArr [VStr "admin"; VStr "editor"])]
           "user" "roles" "role/" "" ["admin"; "editor"] "role/editor");
    try reflexivity; [discriminate|vm_compute; discriminate].
Defined.

(** ** Placeholders without a context, and with one key *)

Lemma endsWith_snoc c s : endsWith c (s ++ String c EmptyString) = true.
Proof.
  induction s as [|x s IH]; [apply Ascii.eqb_refl|].
  cbn [append endsWith]. destruct (s ++ String c EmptyString) eqn:E; [|exact IH].
  destruct s; discriminate.
Qed.

Lemma braceExpand_after_dollar pre_ path post_ :
  contains "{" pre_ = false -> contains "}" path = false ->
  Matcher.braceExpand (pre_ ++ "${" ++ path ++ "}" ++ post_)
  = [pre_ ++ "${" ++ path ++ "}" ++ post_].
Proof.
  intros Hpre Hpath. unfold Matcher.braceExpand.
  destruct (negb (RegExp.test Matcher.reBraces _)); [reflexivity|].
  replace (String.eqb (JsString.substr (pre_ ++ "${" ++ path ++ "}" ++ post_) 0 2) "{}")
    with false.
  - replace (pre_ ++ "${" ++ path ++ "}" ++ post_)
      with ((pre_ ++ "$") ++ "{" ++ path ++ "}" ++ post_)
      by (rewrite append_assoc; reflexivity).
    apply expand_after_dollar.
    + rewrite contains_append, Hpre. reflexivity.
    + exact Hpath.
    + apply endsWith_snoc.
  - symmetry. apply not_true_iff_false. intros E.
    destruct (leading_braces _ E) as (rest & E' & _).
    destruct pre_ as [|c pre_]; [discriminate|].
    cbn in E'. injection E' as -> _. discriminate.
Qed.

(** X13: without a context a placeholder stays in the pattern, and since its
    [{] follows a [$] the pattern is not brace-expanded at all, not even its
    later groups: it matches exactly the candidate equal to itself. *)
Theorem placeholder_without_context_is_literal (pre_ path post_ str : string)
  (Hpre : contains "{" pre_ = false) (Hpath : contains "}" path = false)
  (Hwhite : noWhiteSpace (pre_ ++ "${" ++ path ++ "}" ++ post_) = true)
  (Hstar : contains "*" (pre_ ++ "${" ++ path ++ "}" ++ post_) = false)
  (Hesc : contains "\" (pre_ ++ "${" ++ path ++ "}" ++ post_) = false)
  (Hlen : (JsString.len (pre_ ++ "${" ++ path ++ "}" ++ post_) <= 1024 * 64)%Z) :
  Matcher.braceExpand (pre_ ++ "${" ++ path ++ "}" ++ post_)
  = [pre_ ++ "${" ++ path ++ "}" ++ post_]
  /\ Statement.matchPattern None str (pre_ ++ "${" ++ path ++ "}" ++ post_)
     = Ok (String.eqb str (pre_ ++ "${" ++ path ++ "}" ++ post_)).
Proof.
  split; [apply braceExpand_after_dollar; assumption|].
  unfold Statement.matchPattern. cbn [applyContext].
  change (m <- Matcher.new (pre_ ++ "${" ++ path ++ "}" ++ post_) ;; Ok (Matcher.match_ m str))
    with (matcherMatch (pre_ ++ "${" ++ path ++ "}" ++ post_) str).
  assert (Ht := trim_noWhiteSpace _ Hwhite).
  rewrite matcherMatch_literal; rewrite ?Ht; try assumption.
  - rewrite unescape_plain by exact Hesc. reflexivity.
  - apply braceExpand_after_dollar; assumption.
Qed.

Lemma placeholder_without_context_is_literal_witness :
  Matcher.braceExpand "user/${ids}/{a,b}" = ["user/${ids}/{a,b}"]
  /\ Statement.matchPattern None "user/${ids}/{a,b}" "user/${ids}/{a,b}" = Ok true.
Proof.
  apply (placeholder_without_context_is_literal "user/" "ids" "/{a,b}" "user/${ids}/{a,b}");
    try reflexivity. vm_compute. discriminate.
Defined.

(** X14: a placeholder with a one-key path is replaced by the key itself,
    whatever the context holds. *)
Theorem one_key_placeholder_is_replaced_by_its_key
  (context : object) (k pre_ post_ : string)
  (Hk : contains "." k = false) (Hclose : contains "}" k = false)
  (Hpre : contains "$" pre_ = false) (Hpost : contains "$" post_ = false)
  (Hwhite : noWhiteSpace (pre_ ++ k ++ post_) = true) :
  applyContext (pre_ ++ "${" ++ k ++ "}" ++ post_) (Some context) = pre_ ++ k ++ post_.
Proof.
  rewrite applyContext_interpolate, interpolate_one by assumption.
  unfold getValueFromPath. rewrite split_without by exact Hk.
  cbn [reduce fst snd map fold_left ToString].
  apply specialTrim_noWhiteSpace. exact Hwhite.
Qed.

Lemma one_key_placeholder_is_replaced_by_its_key_witness :
  applyContext "user/${id}/profile" (Some [("id", VStr "42")]) = "user/id/profile".
Proof.
  apply (one_key_placeholder_is_replaced_by_its_key [("id", VStr "42")] "id" "user/" "/profile");
    reflexivity.
Defined.

(** ** How [Statement.matches] fails *)

Section Throws.

Context {A : Type} (f : A -> outcome bool).

Lemma some_throw_inv l e :
  some f l = Throw e -> exists x, In x l /\ f x = Throw e.
Proof.
  induction l as [|x l IH]; cbn [some]; [discriminate|].
  destruct (f x) as [[|]|e'] eqn:E; cbn [bind].
  - discriminate.
  - intros H. destruct (IH H) as (y & Hy & Hf). exists y. split; [right|]; assumption.
  - intros H. injection H as <-. exists x. split; [left; reflexivity|exact E].
Qed.

Lemma every_throw_inv l e :
  every f l = Throw e -> exists x, In x l /\ f x = Throw e.
Proof.
  induction l as [|x l IH]; cbn [every]; [discriminate|].
  destruct (f x) as [[|]|e'] eqn:E; cbn [bind].
  - intros H. destruct (IH H) as (y & Hy & Hf). exists y. split; [right|]; assumption.
  - discriminate.
  - intros H. injection H as <-. exists x. split; [left; reflexivity|exact E].
Qed.

End Throws.

Lemma matchPattern_throw context str p e :
  Statement.matchPattern context str p = Throw e ->
  e = tooLong /\ oversized (applyContext p context) = true.
Proof.
  unfold Statement.matchPattern.
  destruct (Matcher.new (applyContext p context)) as [m|e'] eqn:E; [discriminate|].
  cbn [bind]. intros H. injection H as <-. apply new_throw. exact E.
Qed.

(** X15: for a statement whose patterns have no placeholder and whose
    condition paths have one key, so that nothing is read from the context,
    and with resolvers that return, [Statement.matches] fails in two ways
    only: with the [TypeError] of [parse], when an action or resource
    pattern has an oversized alternative, or because a condition that has a
    path is named for which [conditionResolvers] has no entry. *)
Theorem matches_fails_only_on_oversized_pattern_or_missing_resolver
  (this : Statement.t) (action_ resource_ : string)
  (context : option object) (conditionResolvers : option ConditionResolver) (e : exn)
  (Hplain : forallb (fun p => negb (opensPlaceholder p))
              (Statement.action this ++ Statement.resource this) = true)
  (Hpaths : oneKeyPaths (Statement.condition this) = true)
  (Hthrow : Statement.matches this action_ resource_ context conditionResolvers = Throw e) :
  (e = TypeError "pattern is too long"
   /\ exists p, In p (Statement.action this ++ Statement.resource this)%list
                /\ oversized (applyContext p context) = true)
  \/ (exists resolvers cond c path,
        conditionResolvers = Some resolvers /\ Statement.condition this = Some cond
        /\ In c (keys cond) /\ In path (keys (Statement.conditionAt cond c))
        /\ lookup c resolvers = None).
Proof.
  unfold Statement.matches in Hthrow.
  destruct (some (Statement.matchPattern context action_) (Statement.action this))
    as [a|e1] eqn:Ea; cbn [bind] in Hthrow.
  2:{ injection Hthrow as <-. left.
      apply some_throw_inv in Ea. destruct Ea as (p & Hp & Ea).
      apply matchPattern_throw in Ea. destruct Ea as [-> Ho].
      split; [reflexivity|]. exists p. split; [apply in_or_app; left; exact Hp|exact Ho]. }
  destruct a; cbn [negb] in Hthrow; [|discriminate].
  destruct (some (Statement.matchPattern context resource_) (Statement.resource this))
    as [r|e1] eqn:Er; cbn [bind] in Hthrow.
  2:{ injection Hthrow as <-. left.
      apply some_throw_inv in Er. destruct Er as (p & Hp & Er).
      apply matchPattern_throw in Er. destruct Er as [-> Ho].
      split; [reflexivity|]. exists p. split; [apply in_or_app; right; exact Hp|exact Ho]. }
  destruct r; cbn [negb] in Hthrow; [|discriminate].
  destruct conditionResolvers as [resolvers|]; [|discriminate].
  destruct (Statement.condition this) as [cond|]; [|discriminate].
  destruct context as [ctx|]; [|discriminate].
  right. apply every_throw_inv in Hthrow. destruct Hthrow as (c & Hc & Hthrow).
  apply every_throw_inv in Hthrow. destruct Hthrow as (path & Hpath & Hthrow).
  exists resolvers, cond, c, path. repeat split; try assumption.
  unfold Statement.callResolver in Hthrow.
  destruct (lookup c resolvers); [discriminate|reflexivity].
Qed.

Lemma matches_fails_only_on_oversized_pattern_or_missing_resolver_witness :
  let this := Statement.new
    (mkConfig None (One "*") (One "*") (Some [("equals", [("role", VStr "admin")])])) in
  let admin : option object := Some [("user", VObj [("role", VStr "admin")])] in
  exists e,
    Statement.matches this "x" "y" admin (@Some ConditionResolver []) = Throw e
    /\ ((e = TypeError "pattern is too long"
         /\ exists p, In p (Statement.action this ++ Statement.resource this)%list
                      /\ oversized (applyContext p admin) = true)
        \/ (exists resolvers cond c path,
              @Some ConditionResolver [] = Some resolvers /\ Statement.condition this = Some cond
              /\ In c (keys cond) /\ In path (keys (Statement.conditionAt cond c))
              /\ lookup c resolvers = None)).
Proof.
  intros this admin.
  exists (TypeError "conditionResolvers[condition] is not a function").
  assert (H : Statement.matches this "x" "y" admin (@Some ConditionResolver [])
              = Throw (TypeError "conditionResolvers[condition] is not a function"))
    by (vm_compute; reflexivity).
  split; [exact H|].
  exact (matches_fails_only_on_oversized_pattern_or_missing_resolver
           this "x" "y" admin (@Some ConditionResolver []) _ eq_refl eq_refl H).
Defined.

(** ** What a Matcher holds *)

Lemma scan_flag v flag : snd (Matcher.scan v flag) = flag || contains "*" v.
Proof.
  destruct (contains "*" v) eqn:E.
  - rewrite scan_star by exact E. symmetry. apply orb_true_r.
  - rewrite scan_no_star by exact E. symmetry. apply orb_false_r.
Qed.

Lemma parseAll_flag vals : forall flag cs flag',
  Matcher.parseAll flag vals = Ok (cs, flag') ->
  flag' = flag || existsb (contains "*") vals.
Proof.
  induction vals as [|v vals IH]; cbn [Matcher.parseAll existsb]; intros flag cs flag' H.
  - injection H as _ <-. symmetry. apply orb_false_r.
  - destruct (Matcher.parse flag v) as [[c f]|] eqn:E; cbn [bind fst snd] in H; [|discriminate].
    apply parse_flag in E. rewrite scan_flag in E. subst f.
    destruct (Matcher.parseAll _ vals) as [[cs1 f1]|] eqn:E1; cbn [bind fst snd] in H;
      [|discriminate].
    injection H as _ <-. rewrite (IH _ _ _ E1). symmetry. apply orb_assoc.
Qed.

(** X16: in a Matcher that the constructor returns, [hasSpecialCharacter]
    says whether some alternative of the brace expansion has a [*], every
    element of [set] is truthy (so the first test of [matchOne] never fires
    in [match]), and [set] has at most as many elements as there are
    alternatives. *)
Theorem new_matcher_invariants (p : string) (m : Matcher.t)
  (Hm : Matcher.new p = Ok m) :
  Matcher.hasSpecialCharacter m
  = existsb (contains "*") (Matcher.braceExpand (JsString.trim p))
  /\ (forall c, In c (Matcher.set m) -> Matcher.isTruthy c = true)
  /\ List.length (Matcher.set m) <= List.length (Matcher.braceExpand (JsString.trim p)).
Proof.
  unfold Matcher.new in Hm.
  destruct (Matcher.parseAll false _) as [[cs f]|] eqn:E; cbn [bind fst snd] in Hm;
    [|discriminate].
  injection Hm as <-. cbn [Matcher.hasSpecialCharacter Matcher.set].
  split; [apply (parseAll_flag _ _ _ _ E)|].
  split.
  - intros c Hc. apply filter_In in Hc. tauto.
  - apply parseAll_length in E. rewrite <- E. apply filter_length_le.
Qed.

Lemma new_matcher_invariants_witness :
  exists m, Matcher.new " {a*,,b} " = Ok m
            /\ Matcher.hasSpecialCharacter m = true
            /\ List.length (Matcher.set m) = 2.
Proof.
  destruct (Matcher.new " {a*,,b} ") as [m|e] eqn:Hm; [|vm_compute in Hm; discriminate].
  exists m.
  destruct (new_matcher_invariants " {a*,,b} " m Hm) as (H & _).
  split; [reflexivity|]. split; [rewrite H; vm_compute; reflexivity|].
  vm_compute in Hm. injection Hm as <-. reflexivity.
Defined.

(** ** Placeholders without a value *)

Lemma matcherMatch_word p str :
  isLiteral p = true -> (JsString.len p <= 1024 * 64)%Z ->
  matcherMatch p str = Ok (String.eqb str p).
Proof.
  intros Hp Hlen.
  destruct (isLiteral_inv p Hp) as (H0 & H1 & H2 & H3 & H4 & H5 & H6).
  assert (Ht := trim_noWhiteSpace p H0).
  rewrite matcherMatch_literal; rewrite ?Ht; try assumption.
  - rewrite unescape_plain by exact H5. reflexivity.
  - apply braceExpand_no_group, no_open_no_group. exact H1.
Qed.

(** X17: a placeholder whose first key is neither a property of the context
    nor a name the context inherits is replaced by the text [undefined],
    and the pattern then matches the candidate that spells it:
    [user/${user.id}] matches ["user/undefined"]. *)
Theorem missing_value_matches_the_text_undefined
  (context : object) (a b pre_ post_ str : string)
  (Ha : contains "." a = false) (Hb : contains "." b = false)
  (Hpath : contains "}" (a ++ "." ++ b) = false)
  (Hmissing : lookup a context = None) (Hown : inheritedName a = false)
  (Hpre : isLiteral pre_ = true) (Hpost : isLiteral post_ = true)
  (Hlen : (JsString.len (pre_ ++ "undefined" ++ post_) <= 1024 * 64)%Z) :
  applyContext (pre_ ++ "${" ++ (a ++ "." ++ b) ++ "}" ++ post_) (Some context)
  = pre_ ++ "undefined" ++ post_
  /\ Statement.matchPattern (Some context) str
       (pre_ ++ "${" ++ (a ++ "." ++ b) ++ "}" ++ post_)
     = Ok (String.eqb str (pre_ ++ "undefined" ++ post_)).
Proof.
  assert (Hlit : isLiteral (pre_ ++ "undefined" ++ post_) = true)
    by (rewrite !isLiteral_append, Hpre, Hpost; reflexivity).
  assert (Happ : applyContext (pre_ ++ "${" ++ (a ++ "." ++ b) ++ "}" ++ post_)
                   (Some context)
                 = pre_ ++ "undefined" ++ post_).
  { rewrite applyContext_interpolate.
    rewrite interpolate_one by (try exact Hpath; apply isLiteral_inv; assumption).
    rewrite getValueFromPath_two_keys by assumption.
    assert (Hg : getProp (VObj context) a = VUndefined)
      by (cbn [getProp]; rewrite Hmissing; reflexivity).
    rewrite Hg. cbn [truthy rendered ToString].
    apply specialTrim_noWhiteSpace. apply isLiteral_inv. exact Hlit. }
  split; [exact Happ|].
  unfold Statement.matchPattern. rewrite Happ.
  apply matcherMatch_word; assumption.
Qed.

Lemma missing_value_matches_the_text_undefined_witness :
  applyContext "user/${user.id}" (Some [("team", VStr "x")]) = "user/undefined"
  /\ Statement.matchPattern (Some [("team", VStr "x")]) "user/undefined" "user/${user.id}"
     = Ok true.
Proof.
  apply (missing_value_matches_the_text_undefined
           [("team", VStr "x")] "user" "id" "user/" "" "user/undefined");
    try reflexivity. vm_compute. discriminate.
Defined.

(** ** Statements of plain words *)

Lemma applyContext_word p context :
  isLiteral p = true -> applyContext p context = p.
Proof.
  intros Hp. destruct context as [ctx|]; [|reflexivity].
  destruct (isLiteral_inv p Hp) as (H0 & _ & _ & _ & _ & _ & H6).
  rewrite applyContext_interpolate. unfold interpolate.
  rewrite substitute_plain by (apply opensPlaceholder_no_dollar; exact H6).
  apply specialTrim_noWhiteSpace. exact H0.
Qed.

Lemma some_words context str ps :
  forallb isShortWord ps = true ->
  some (Statement.matchPattern context str) ps = Ok (existsb (String.eqb str) ps).
Proof.
  induction ps as [|p ps IH]; cbn [forallb some existsb]; intros H; [reflexivity|].
  apply andb_true_iff in H. destruct H as [Hp H].
  unfold isShortWord in Hp. apply andb_true_iff in Hp. destruct Hp as [Hw Hl].
  apply isWord_inv in Hw. destruct Hw as [_ Hw]. apply Z.leb_le in Hl.
  unfold Statement.matchPattern at 1. rewrite applyContext_word by exact Hw.
  change (m <- Matcher.new p ;; Ok (Matcher.match_ m str)) with (matcherMatch p str).
  rewrite matcherMatch_word by assumption. cbn [bind].
  destruct (String.eqb str p); [reflexivity|]. apply IH. exact H.
Qed.

(** X18: for a statement whose action and resource patterns are plain words
    (given as one string or as an array), [matches] without resolvers is a
    membership test: the action is one of the action patterns and the
    resource is one of the resource patterns, whatever the context and the
    effect. *)
Theorem plain_statement_matches_by_membership
  (config : StatementConfig) (action_ resource_ : string) (context : option object)
  (Hactions : forallb isShortWord (asList (cfg_action config)) = true)
  (Hresources : forallb isShortWord (asList (cfg_resource config)) = true) :
  Statement.matches (Statement.new config) action_ resource_ context None
  = Ok (existsb (String.eqb action_) (asList (cfg_action config))
        && existsb (String.eqb resource_) (asList (cfg_resource config))).
Proof.
  unfold Statement.matches, Statement.new.
  cbn [Statement.action Statement.resource Statement.condition].
  change (match cfg_action config with One p => [p] | Many ps => ps end)
    with (asList (cfg_action config)).
  change (match cfg_resource config with One p => [p] | Many ps => ps end)
    with (asList (cfg_resource config)).
  rewrite !some_words by assumption. cbn [bind].
  destruct (existsb (String.eqb action_) _); cbn [negb andb]; [|reflexivity].
  destruct (existsb (String.eqb resource_) _); reflexivity.
Qed.

Lemma plain_statement_matches_by_membership_witness :
  Statement.matches
    (Statement.new (mkConfig (Some deny) (Many ["docs"; "books"]) (One "read") None))
    "read" "books" (Some [("user", VObj [("id", VStr "7")])]) None = Ok true
  /\ Statement.matches
       (Statement.new (mkConfig (Some deny) (Many ["docs"; "books"]) (One "read") None))
       "write" "books" None None = Ok false.
Proof.
  split.
  - apply (plain_statement_matches_by_membership
             (mkConfig (Some deny) (Many ["docs"; "books"]) (One "read") None)
             "read" "books" (Some [("user", VObj [("id", VStr "7")])])); reflexivity.
  - apply (plain_statement_matches_by_membership
             (mkConfig (Some deny) (Many ["docs"; "books"]) (One "read") None)
             "write" "books" None); reflexivity.
Defined.

(** ** A leading pair of braces *)

Lemma braceExpand_leading_braces rest :
  isLiteral rest = true ->
  Matcher.braceExpand ("{}" ++ rest) = ["\\" ++ rest].
Proof.
  intros Hrest.
  destruct (isLiteral_inv rest Hrest) as (H0 & H1 & _).
  unfold Matcher.braceExpand.
  change ("{}" ++ rest) with ("" ++ "{" ++ "" ++ "}" ++ rest) at 1.
  rewrite test_reBraces by reflexivity. cbn [negb].
  assert (E : String.eqb (JsString.substr ("{}" ++ rest) 0 2) "{}" = true).
  { unfold JsString.substr. rewrite clampIndex_inside by (unfold JsString.len; lia).
    destruct rest; reflexivity. }
  rewrite E. destruct (leading_braces _ E) as (rest' & E1 & ->).
  injection E1 as <-.
  change ("\{\}" ++ rest) with ("\" ++ "{" ++ "\" ++ "}" ++ rest).
  rewrite expand_group by reflexivity.
  rewrite (expand_no_group rest).
  - reflexivity.
  - intros p y q Eq. rewrite Eq, contains_append in H1. cbn in H1.
    rewrite orb_true_r in H1. discriminate.
Qed.

(** X19: a pattern [{}rest], for plain [rest], expands to the single
    alternative [\\rest] and matches exactly the candidate [\rest]: a
    backslash followed by [rest], not [{}rest]. *)
Theorem leading_empty_braces_match_a_backslash (rest str : string)
  (Hrest : isLiteral rest = true)
  (Hlen : (JsString.len ("{}" ++ rest) <= 1024 * 64)%Z) :
  Matcher.braceExpand ("{}" ++ rest) = ["\\" ++ rest]
  /\ matcherMatch ("{}" ++ rest) str = Ok (String.eqb str ("\" ++ rest)).
Proof.
  split; [apply braceExpand_leading_braces; exact Hrest|].
  destruct (isLiteral_inv rest Hrest) as (H0 & H1 & H2 & H3 & H4 & H5 & H6).
  assert (Ht : JsString.trim ("{}" ++ rest) = "{}" ++ rest)
    by (apply trim_noWhiteSpace; cbn [append noWhiteSpace]; exact H0).
  unfold matcherMatch, Matcher.new. rewrite Ht, braceExpand_leading_braces by exact Hrest.
  cbn [Matcher.parseAll]. rewrite parse_literal.
  - cbn [bind fst snd]. rewrite unescape_spec.
    replace (unescape ("\\" ++ rest)) with ("\" ++ rest)
      by (cbn [append unescape Ascii.eqb JsString.isLineTerminator]; cbn;
          rewrite unescape_plain by exact H5; reflexivity).
    unfold Matcher.match_, Matcher.matchOne.
    cbn [append String.eqb filter Matcher.isTruthy negb Matcher.empty Matcher.set existsb].
    rewrite orb_false_r. reflexivity.
  - unfold JsString.len in *. cbn [append String.length] in *. lia.
  - cbn [append contains]. exact H4.
Qed.

Lemma leading_empty_braces_match_a_backslash_witness :
  matcherMatch "{}docs" "{}docs" = Ok false /\ matcherMatch "{}docs" "\docs" = Ok true.
Proof.
  split.
  - apply (leading_empty_braces_match_a_backslash "docs" "{}docs");
      [reflexivity|vm_compute; discriminate].
  - apply (leading_empty_braces_match_a_backslash "docs" "\docs");
      [reflexivity|vm_compute; discriminate].
Defined.

(** ** Brace groups with wildcards *)

Lemma translation_plain a : contains "*" a = false -> translation a = a.
Proof.
  induction a as [|c a IH]; [reflexivity|].
  cbn [contains translation]. intros H. apply orb_false_iff in H.
  destruct H as [Hc H]. rewrite Hc, (IH H). reflexivity.
Qed.

Lemma globMatch_plain a : forall str,
  contains "*" a = false -> globMatch a str = String.eqb str a.
Proof.
  induction a as [|c a IH]; intros str H.
  - destruct str; reflexivity.
  - cbn [contains] in H. apply orb_false_iff in H. destruct H as [Hc H].
    cbn [globMatch]. rewrite Hc. destruct str as [|x str]; [reflexivity|].
    cbn [String.eqb]. rewrite (IH str H).
    destruct (Ascii.eqb x c); reflexivity.
Qed.

Lemma isGlob_no_escape a : isGlob a = true -> contains "\" a = false.
Proof.
  induction a as [|c a IH]; [reflexivity|].
  cbn [isGlob contains]. intros H. apply andb_true_iff in H. destruct H as [Hc H].
  rewrite (IH H), orb_false_r.
  destruct (Ascii.eqb_spec c "\") as [->|]; [discriminate Hc|reflexivity].
Qed.

Lemma startsOnLine_noWhiteSpace a :
  a <> EmptyString -> noWhiteSpace a = true -> startsOnLine a = true.
Proof.
  destruct a as [|c a]; [contradiction|]. intros _ H.
  cbn [noWhiteSpace] in H. apply andb_true_iff in H. destruct H as [Hc _].
  apply negb_true_iff in Hc. cbn [startsOnLine].
  rewrite (lineTerminator_is_white c Hc). reflexivity.
Qed.

(** An alternative of wildcards and plain code units, whatever the flag: it
    is compiled to something that matches as the wildcards say. *)
Lemma parse_glob flag a :
  isGlob a = true -> noWhiteSpace a = true -> a <> EmptyString ->
  (JsString.len a <= 1024 * 64)%Z ->
  exists c,
    Matcher.parse flag a = Ok (c, flag || contains "*" a)
    /\ Matcher.isTruthy c = true
    /\ forall str, Matcher.matchOne str c = startsOnLine str && globMatch a str.
Proof.
  intros Hglob Hwhite Hne Hlen.
  destruct (contains "*" a) eqn:Hstar.
  - exists (Matcher.Pattern (globRegex a)).
    rewrite parse_wildcard by assumption. rewrite orb_true_r.
    split; [reflexivity|]. split; [reflexivity|].
    intros str. unfold Matcher.matchOne. cbn [Matcher.isTruthy negb].
    apply test_globRegex.
  - rewrite orb_false_r. destruct flag.
    + exists (Matcher.Pattern (globRegex a)).
      rewrite parse_stale by assumption. unfold asExpression.
      replace ("^(?=.)" ++ a ++ "$") with ("^(?=.)" ++ translation a ++ "$")
        by (rewrite translation_plain by exact Hstar; reflexivity).
      rewrite create_wildcard by exact Hglob.
      split; [reflexivity|]. split; [reflexivity|].
      intros str. unfold Matcher.matchOne. cbn [Matcher.isTruthy negb].
      apply test_globRegex.
    + exists (Matcher.Literal a).
      rewrite parse_literal by assumption.
      rewrite unescape_spec, unescape_plain by (apply isGlob_no_escape; exact Hglob).
      assert (Ha : String.eqb a EmptyString = false) by (apply String.eqb_neq; exact Hne).
      split; [reflexivity|]. split; [cbn [Matcher.isTruthy]; rewrite Ha; reflexivity|].
      intros str. unfold Matcher.matchOne. cbn [Matcher.isTruthy]. rewrite Ha.
      cbn [negb]. rewrite globMatch_plain by exact Hstar.
      destruct (String.eqb_spec str a) as [->|]; [|apply eq_sym, andb_false_r].
      rewrite startsOnLine_noWhiteSpace by assumption. reflexivity.
Qed.

Lemma parseAll_globs alts : forall flag,
  (forall a, In a alts ->
     isGlob a = true /\ noWhiteSpace a = true /\ a <> EmptyString
     /\ (JsString.len a <= 1024 * 64)%Z) ->
  exists cs flag',
    Matcher.parseAll flag alts = Ok (cs, flag')
    /\ forall str,
         existsb (Matcher.matchOne str) (filter Matcher.isTruthy cs)
         = startsOnLine str && existsb (fun a => globMatch a str) alts.
Proof.
  induction alts as [|a alts IH]; intros flag H.
  - exists [], flag. split; [reflexivity|]. intros str. symmetry. apply andb_false_r.
  - destruct (H a (or_introl eq_refl)) as (H1 & H2 & H3 & H4).
    destruct (parse_glob flag a H1 H2 H3 H4) as (c & Hc & Ht & Hm).
    destruct (IH (flag || contains "*" a)) as (cs & flag' & Hcs & Hall).
    { intros b Hb. apply H. right. exact Hb. }
    exists (c :: cs), flag'. split.
    + cbn [Matcher.parseAll]. rewrite Hc. cbn [bind fst snd]. rewrite Hcs. reflexivity.
    + intros str. cbn [filter]. rewrite Ht. cbn [existsb]. rewrite Hm, Hall.
      symmetry. apply andb_orb_distrib_r.
Qed.

(** X20: brace groups and wildcards together.  A pattern
    [pre{part1,...,partn}post] whose pieces are made of [*] and of code
    units that are plain both for brace expansion and in a regular
    expression matches exactly the candidates that start with a code unit
    other than a line terminator and that some alternative
    [pre + parti + post] matches, every [*] standing for a run of code units
    other than [/]; this holds whichever alternatives have a [*], and so
    whichever of them are compiled as literals or as regular expressions. *)
Theorem brace_group_with_wildcards_matches_as_globs
  (pre_ post_ : string) (parts : list string) (str : string)
  (Hpre : isGlobSegment pre_ = true) (Hpost : isGlobSegment post_ = true)
  (Hparts : forallb (fun x => negb (String.eqb x EmptyString) && isGlobSegment x) parts
            = true)
  (Hne : parts <> [])
  (Hlen : (JsString.len (pre_ ++ "{" ++ JsString.join "," parts ++ "}" ++ post_)
           <= 1024 * 64)%Z) :
  matcherMatch (pre_ ++ "{" ++ JsString.join "," parts ++ "}" ++ post_) str
  = Ok (startsOnLine str
        && existsb (fun part => globMatch (pre_ ++ part ++ post_) str) parts).
Proof.
  unfold isGlobSegment in *.
  apply andb_true_iff in Hpre. destruct Hpre as [Hpre Gpre].
  apply andb_true_iff in Hpost. destruct Hpost as [Hpost Gpost].
  rewrite forallb_forall in Hparts.
  assert (Hw : forall x, In x parts ->
                 x <> EmptyString /\ isSegment x = true /\ isGlob x = true).
  { intros x Hx. specialize (Hparts x Hx). apply andb_true_iff in Hparts.
    destruct Hparts as [H1 H2]. apply andb_true_iff in H2. destruct H2 as [H2 H3].
    apply negb_true_iff, String.eqb_neq in H1. auto. }
  assert (Htrim : JsString.trim (pre_ ++ "{" ++ JsString.join "," parts ++ "}" ++ post_)
                  = pre_ ++ "{" ++ JsString.join "," parts ++ "}" ++ post_).
  { apply trim_noWhiteSpace. rewrite !noWhiteSpace_append.
    destruct (isSegment_inv pre_ Hpre) as (-> & _).
    destruct (isSegment_inv post_ Hpost) as (-> & _).
    rewrite noWhiteSpace_join by (intros x Hx; apply isSegment_inv, Hw, Hx).
    reflexivity. }
  assert (Hexp : Matcher.braceExpand
                   (pre_ ++ "{" ++ JsString.join "," parts ++ "}" ++ post_)
                 = map (fun part => pre_ ++ part ++ post_) parts).
  { apply braceExpand_segments; try assumption.
    intros x Hx. destruct (Hw x Hx) as (H1 & H2 & _). auto. }
  destruct (parseAll_globs (map (fun part => pre_ ++ part ++ post_) parts) false)
    as (cs & flag' & Hcs & Hall).
  { intros a Ha. assert (Ha' := Ha).
    apply in_map_iff in Ha. destruct Ha as (x & <- & Hx).
    destruct (Hw x Hx) as (H1 & H2 & H3).
    split; [rewrite !isGlob_append, Gpre, H3, Gpost; reflexivity|].
    split.
    { apply isSegment_inv. rewrite !isSegment_append, Hpre, H2, Hpost. reflexivity. }
    split; [destruct pre_; [|discriminate]; destruct x; [contradiction|discriminate]|].
    rewrite <- Hexp in Ha'. apply braceExpand_length in Ha'.
    unfold JsString.len in *. lia. }
  unfold matcherMatch, Matcher.new. rewrite Htrim, Hexp, Hcs. cbn [bind fst snd].
  unfold Matcher.match_. cbn [Matcher.empty Matcher.set].
  replace (String.eqb (pre_ ++ "{" ++ JsString.join "," parts ++ "}" ++ post_) EmptyString)
    with false by (destruct pre_; reflexivity).
  rewrite Hall. f_equal. f_equal.
  clear. induction parts as [|x parts IH]; [reflexivity|].
  cbn [map existsb]. rewrite IH. reflexivity.
Qed.

Lemma brace_group_with_wildcards_matches_as_globs_witness :
  matcherMatch "docs/{read,write}/*" "docs/write/report" = Ok true
  /\ matcherMatch "docs/{read,write}/*" "docs/write/a/b" = Ok false
  /\ matcherMatch "{a*,bc}" "bc" = Ok true.
Proof.
  split; [|split].
  - apply (brace_group_with_wildcards_matches_as_globs "docs/" "/*" ["read"; "write"]
             "docs/write/report");
      [reflexivity|reflexivity|reflexivity|discriminate|vm_compute; discriminate].
  - apply (brace_group_with_wildcards_matches_as_globs "docs/" "/*" ["read"; "write"]
             "docs/write/a/b");
      [reflexivity|reflexivity|reflexivity|discriminate|vm_compute; discriminate].
  - apply (brace_group_with_wildcards_matches_as_globs "" "" ["a*"; "bc"] "bc");
      [reflexivity|reflexivity|reflexivity|discriminate|vm_compute; discriminate].
Defined.

(** ** Wildcards and separators *)

Lemma globMatch_count alt : forall s,
  globMatch alt s = true -> count "/" s = count "/" alt.
Proof.
  induction alt as [|c alt IH]; intros s H.
  - destruct s; [reflexivity|discriminate].
  - destruct (Ascii.eqb c "*") eqn:Hc.
    + apply Ascii.eqb_eq in Hc. subst c.
      induction s as [|x s IHs].
      * rewrite globMatch_star, orb_false_r in H. apply IH in H. exact H.
      * rewrite globMatch_star in H. apply orb_true_iff in H. destruct H as [H|H].
        -- apply IH in H. exact H.
        -- apply andb_true_iff in H. destruct H as [Hx H].
           apply negb_true_iff in Hx. cbn [count]. rewrite Hx.
           apply IHs. exact H.
    + cbn [globMatch] in H. rewrite Hc in H.
      destruct s as [|x s]; [discriminate|].
      apply andb_true_iff in H. destruct H as [Hx H].
      apply Ascii.eqb_eq in Hx. subst x. cbn [count]. rewrite (IH s H). reflexivity.
Qed.

(** X21: a wildcard never crosses a separator: a candidate that a pattern
    of [*] and plain code units matches has exactly as many [/] as the
    pattern. *)
Theorem wildcard_match_keeps_the_separators (p str : string)
  (Hglob : isGlob (JsString.trim p) = true)
  (Hstar : contains "*" (JsString.trim p) = true)
  (Hlen : (JsString.len (JsString.trim p) <= 1024 * 64)%Z)
  (Hmatch : matcherMatch p str = Ok true) :
  count "/" str = count "/" (JsString.trim p).
Proof.
  rewrite matcherMatch_glob in Hmatch by assumption.
  injection Hmatch as Hmatch. apply andb_true_iff in Hmatch.
  apply globMatch_count. apply Hmatch.
Qed.

Lemma wildcard_match_keeps_the_separators_witness :
  matcherMatch "a/*/c*" "a/bb/cd" = Ok true /\ count "/" "a/bb/cd" = count "/" "a/*/c*".
Proof.
  assert (H : matcherMatch "a/*/c*" "a/bb/cd" = Ok true) by (vm_compute; reflexivity).
  split; [exact H|].
  apply (wildcard_match_keeps_the_separators "a/*/c*" "a/bb/cd");
    [reflexivity|reflexivity|vm_compute; discriminate|exact H].
Defined.

(** ** Conditions on a one-key path *)

(** X22: a condition on a one-key path is tested against the key, not
    against the value of the context under it: with plain patterns that
    match, the result of [matches] is what the resolver returns on the key
    text and the expected value, whatever the context holds. *)
Theorem one_key_condition_tests_the_key
  (effect_ : option StatementEffect) (actions resources : patterns)
  (c k : string) (expected : value) (resolver : Resolver)
  (resolvers : ConditionResolver) (context : object) (action_ resource_ : string)
  (Hactions : forallb isShortWord (asList actions) = true)
  (Hresources : forallb isShortWord (asList resources) = true)
  (Hk : contains "." k = false)
  (Hresolver : lookup c resolvers = Some resolver) :
  Statement.matches
    (Statement.new (mkConfig effect_ resources actions (Some [(c, [(k, expected)])])))
    action_ resource_ (Some context) (Some resolvers)
  = Ok (existsb (String.eqb action_) (asList actions)
        && existsb (String.eqb resource_) (asList resources)
        && resolver (VStr k) expected).
Proof.
  unfold Statement.matches, Statement.new.
  cbn [Statement.action Statement.resource Statement.condition
       cfg_effect cfg_resource cfg_action cfg_condition].
  change (match actions with One p => [p] | Many ps => ps end) with (asList actions).
  change (match resources with One p => [p] | Many ps => ps end) with (asList resources).
  rewrite !some_words by assumption. cbn [bind].
  destruct (existsb (String.eqb action_) _); cbn [negb andb]; [|reflexivity].
  destruct (existsb (String.eqb resource_) _); cbn [negb andb]; [|reflexivity].
  cbn [keys map fst every].
  assert (Hat : Statement.conditionAt [(c, [(k, expected)])] c = [(k, expected)])
    by (unfold Statement.conditionAt; cbn [lookup]; rewrite String.eqb_refl; reflexivity).
  assert (Hexp : Statement.expectedAt [(c, [(k, expected)])] c k = expected)
    by (unfold Statement.expectedAt; rewrite Hat; cbn [lookup];
        rewrite String.eqb_refl; reflexivity).
  rewrite Hat. cbn [keys map fst every]. rewrite Hexp.
  unfold Statement.callResolver. rewrite Hresolver.
  unfold getValueFromPath. rewrite split_without by exact Hk.
  cbn [reduce fst snd map fold_left bind].
  destruct (resolver (VStr k) expected); reflexivity.
Qed.

Lemma one_key_condition_tests_the_key_witness :
  Statement.matches
    (Statement.new (mkConfig None (One "docs") (One "read")
                      (Some [("equals", [("role", VStr "admin")])])))
    "read" "docs" (Some [("role", VStr "admin")]) (Some [("equals", equals)])
  = Ok false.
Proof.
  apply (one_key_condition_tests_the_key None (One "read") (One "docs")
           "equals" "role" (VStr "admin") equals [("equals", equals)]
           [("role", VStr "admin")] "read" "docs"); reflexivity.
Defined.

(** ** What [specialTrim] removes *)

(** The greedy loop of [x+] for a one-unit [x], before three continuations. *)
Section TrimLoops.

Variable body : RegExp.state -> (RegExp.state -> option RegExp.state) -> option RegExp.state.
Variable k : RegExp.state -> option RegExp.state.
Variable p : ascii -> bool.

Hypothesis body_take : forall bef x rest cs,
  p x = true ->
  exists cs', forall c,
    body (RegExp.mkState bef (String x rest) cs) c = c (RegExp.mkState (x :: bef) rest cs').
Hypothesis body_stop : forall bef x rest cs c,
  p x = false -> body (RegExp.mkState bef (String x rest) cs) c = None.
Hypothesis body_end : forall bef cs c, body (RegExp.mkState bef EmptyString cs) c = None.

(** [x+] before a continuation that accepts everywhere: the whole run. *)
Lemma greedy_run :
  (forall st, exists st', k st = Some st' /\ RegExp.position st' = RegExp.position st) ->
  forall s bef cs fuel,
    String.length s <= fuel ->
    option_map RegExp.position
      (RegExp.optional body true k fuel None (RegExp.mkState bef s cs))
    = Some (List.length bef + run p s).
Proof.
  intros Hk. induction s as [|x s IH]; intros bef cs fuel Hf.
  - cbn [run]. destruct (Hk (RegExp.mkState bef EmptyString cs)) as (st' & E & Hp).
    destruct fuel; cbn [RegExp.optional]; [|rewrite body_end]; rewrite E; cbn [option_map];
      rewrite Hp; unfold RegExp.position; cbn [RegExp.before]; f_equal; lia.
  - destruct fuel as [|fuel]; [simpl in Hf; lia|].
    cbn [RegExp.optional run]. destruct (p x) eqn:Hx.
    + destruct (body_take bef x s cs Hx) as [cs' Hb]. rewrite Hb.
      cbn [RegExp.position RegExp.before List.length]. rewrite eqb_succ.
      cbn [RegExp.decr option_map].
      assert (Hf' : String.length s <= fuel) by (simpl in Hf; lia).
      specialize (IH (x :: bef) cs' fuel Hf').
      destruct (RegExp.optional body true k fuel None _); [|discriminate IH].
      cbn [option_map] in *. rewrite IH. cbn [List.length]. f_equal. lia.
    + rewrite body_stop by exact Hx.
      destruct (Hk (RegExp.mkState bef (String x s) cs)) as (st' & E & Hp).
      rewrite E. cbn [option_map]. rewrite Hp. unfold RegExp.position.
      cbn [RegExp.before]. f_equal. lia.
Qed.

(** [x+] before [$]: the run must reach the end of the input. *)
Lemma greedy_to_end :
  (forall bef cs, k (RegExp.mkState bef EmptyString cs) = Some (RegExp.mkState bef EmptyString cs)) ->
  (forall bef x rest cs, k (RegExp.mkState bef (String x rest) cs) = None) ->
  forall s bef cs fuel,
    String.length s <= fuel ->
    option_map RegExp.position
      (RegExp.optional body true k fuel None (RegExp.mkState bef s cs))
    = if allOf p s then Some (List.length bef + String.length s) else None.
Proof.
  intros Hend Hmore. induction s as [|x s IH]; intros bef cs fuel Hf.
  - cbn [allOf String.length].
    destruct fuel; cbn [RegExp.optional]; [|rewrite body_end]; rewrite Hend;
      cbn [option_map]; unfold RegExp.position; cbn [RegExp.before]; f_equal; lia.
  - destruct fuel as [|fuel]; [simpl in Hf; lia|].
    cbn [RegExp.optional allOf]. destruct (p x) eqn:Hx; cbn [andb].
    + destruct (body_take bef x s cs Hx) as [cs' Hb]. rewrite Hb.
      cbn [RegExp.position RegExp.before List.length]. rewrite eqb_succ.
      cbn [RegExp.decr option_map].
      assert (Hf' : String.length s <= fuel) by (simpl in Hf; lia).
      specialize (IH (x :: bef) cs' fuel Hf').
      destruct (RegExp.optional body true k fuel None _).
      * cbn [option_map] in *. rewrite IH. destruct (allOf p s); [|reflexivity].
        cbn [List.length String.length]. f_equal. lia.
      * rewrite Hmore. cbn [option_map] in *.
        destruct (allOf p s); [discriminate IH|reflexivity].
    + rewrite body_stop by exact Hx. rewrite Hmore. reflexivity.
Qed.

(** [x+] before a look-ahead for one more [x]: all of the run but its last
    unit. *)
Lemma greedy_before_one_more :
  (forall bef x rest cs, p x = true ->
     exists cs', k (RegExp.mkState bef (String x rest) cs)
                 = Some (RegExp.mkState bef (String x rest) cs')) ->
  (forall bef x rest cs, p x = false -> k (RegExp.mkState bef (String x rest) cs) = None) ->
  (forall bef cs, k (RegExp.mkState bef EmptyString cs) = None) ->
  forall s bef cs fuel,
    String.length s <= fuel ->
    option_map RegExp.position
      (RegExp.optional body true k fuel None (RegExp.mkState bef s cs))
    = match run p s with
      | O => None
      | S j => Some (List.length bef + j)
      end.
Proof.
  intros Hyes Hno Hend. induction s as [|x s IH]; intros bef cs fuel Hf.
  - cbn [run]. destruct fuel; cbn [RegExp.optional]; [|rewrite body_end]; rewrite Hend;
      reflexivity.
  - destruct fuel as [|fuel]; [simpl in Hf; lia|].
    cbn [RegExp.optional run]. destruct (p x) eqn:Hx.
    + destruct (body_take bef x s cs Hx) as [cs' Hb]. rewrite Hb.
      cbn [RegExp.position RegExp.before List.length]. rewrite eqb_succ.
      cbn [RegExp.decr option_map].
      assert (Hf' : String.length s <= fuel) by (simpl in Hf; lia).
      specialize (IH (x :: bef) cs' fuel Hf').
      destruct (RegExp.optional body true k fuel None _).
      * cbn [option_map] in *. destruct (run p s); [discriminate IH|].
        rewrite IH. cbn [List.length]. f_equal. lia.
      * cbn [option_map] in IH. destruct (run p s); [|discriminate IH].
        destruct (Hyes bef x s cs Hx) as [cs2 E]. rewrite E. cbn [option_map].
        unfold RegExp.position. cbn [RegExp.before]. f_equal. lia.
    + rewrite body_stop by exact Hx. rewrite Hno by exact Hx. reflexivity.
Qed.

End TrimLoops.

Lemma m_plus r g st k :
  RegExp.m (RegExp.Quant 1 None g r) false st k
  = RegExp.m r false (RegExp.clearCaps (RegExp.groupsIn r) st)
      (fun st' =>
         RegExp.optional
           (fun st0 c => RegExp.m r false (RegExp.clearCaps (RegExp.groupsIn r) st0) c)
           g k (RegExp.remaining false st') None st').
Proof. reflexivity. Qed.

Lemma step_take (q : ascii -> bool) bef x rest cs :
  q x = true ->
  exists cs', forall c,
    RegExp.step q false (RegExp.clearCaps [] (RegExp.mkState bef (String x rest) cs)) c
    = c (RegExp.mkState (x :: bef) rest cs').
Proof.
  intros H. eexists. intros c.
  cbn [RegExp.step RegExp.clearCaps RegExp.after RegExp.before RegExp.caps].
  rewrite H. reflexivity.
Qed.

Lemma step_stop (q : ascii -> bool) bef x rest cs c :
  q x = false ->
  RegExp.step q false (RegExp.clearCaps [] (RegExp.mkState bef (String x rest) cs)) c = None.
Proof.
  intros H. cbn [RegExp.step RegExp.clearCaps RegExp.after RegExp.before RegExp.caps].
  rewrite H. reflexivity.
Qed.

Lemma isSpace_code x : N.eqb (JsString.charCode x) 32 = isSpace x.
Proof. change 32%N with (JsString.charCode " "). apply charCode_eqb. Qed.

Lemma white_class x :
  RegExp.classMatches false [RegExp.CSpace false] x = JsString.isWhiteSpace x.
Proof.
  unfold RegExp.classMatches. cbn [existsb RegExp.classItemMatches xorb].
  apply orb_false_r.
Qed.

Lemma nextIsSpace_run s :
  nextIsSpace s = match run isSpace s with O => false | S _ => true end.
Proof. destruct s as [|d s]; [reflexivity|]. cbn. destruct (isSpace d); reflexivity. Qed.

(** [ +(?= )] at the head of [s] *)
Lemma trim_spaces_at bef c rest :
  option_map RegExp.position
    (RegExp.m (RegExp.Seq (RegExp.Quant 1 None true (RegExp.Char 32))
                 (RegExp.Look false false (RegExp.Char 32)))
       false (RegExp.mkState bef (String c rest) []) Some)
  = if isSpace c && nextIsSpace rest
    then Some (List.length bef + run isSpace rest) else None.
Proof.
  rewrite m_seq, m_plus.
  cbn [RegExp.m RegExp.groupsIn].
  destruct (isSpace c) eqn:Hc.
  - destruct (step_take (fun x => N.eqb (JsString.charCode x) 32) bef c rest [])
      as [cs' Hb]; [rewrite isSpace_code; exact Hc|].
    rewrite Hb. cbn [RegExp.remaining RegExp.after].
    rewrite (greedy_before_one_more _ _ isSpace).
    + rewrite nextIsSpace_run. cbn [andb List.length].
      destruct (run isSpace rest); [reflexivity|]. f_equal. lia.
    + intros. apply step_take. rewrite isSpace_code. assumption.
    + intros. apply step_stop. rewrite isSpace_code. assumption.
    + reflexivity.
    + intros bef0 x rest0 cs Hx. eexists.
      cbn [RegExp.m RegExp.step RegExp.after RegExp.before RegExp.caps].
      rewrite isSpace_code, Hx. reflexivity.
    + intros bef0 x rest0 cs Hx.
      cbn [RegExp.m RegExp.step RegExp.after RegExp.before RegExp.caps].
      rewrite isSpace_code, Hx. reflexivity.
    + reflexivity.
    + lia.
  - rewrite step_stop by (rewrite isSpace_code; exact Hc). reflexivity.
Qed.

(** [\s+] and [\s+$] at the head of [s] *)
Lemma trim_white_at bef c rest :
  option_map RegExp.position
    (RegExp.m (RegExp.Quant 1 None true (RegExp.Class false [RegExp.CSpace false]))
       false (RegExp.mkState bef (String c rest) []) Some)
  = if JsString.isWhiteSpace c
    then Some (List.length bef + S (run JsString.isWhiteSpace rest)) else None.
Proof.
  rewrite m_plus. cbn [RegExp.m RegExp.groupsIn].
  destruct (JsString.isWhiteSpace c) eqn:Hc.
  - destruct (step_take (RegExp.classMatches false [RegExp.CSpace false]) bef c rest [])
      as [cs' Hb]; [rewrite white_class; exact Hc|].
    rewrite Hb. cbn [RegExp.remaining RegExp.after].
    rewrite (greedy_run _ _ JsString.isWhiteSpace).
    + cbn [List.length]. f_equal. lia.
    + intros. apply step_take. rewrite white_class. assumption.
    + intros. apply step_stop. rewrite white_class. assumption.
    + reflexivity.
    + intros st. eauto.
    + lia.
  - rewrite step_stop by (rewrite white_class; exact Hc). reflexivity.
Qed.

Lemma trim_white_end_at bef c rest :
  option_map RegExp.position
    (RegExp.m (RegExp.Seq (RegExp.Quant 1 None true (RegExp.Class false [RegExp.CSpace false]))
                 RegExp.AssertEnd)
       false (RegExp.mkState bef (String c rest) []) Some)
  = if JsString.isWhiteSpace c && allOf JsString.isWhiteSpace rest
    then Some (List.length bef + S (String.length rest)) else None.
Proof.
  rewrite m_seq, m_plus. cbn [RegExp.m RegExp.groupsIn].
  destruct (JsString.isWhiteSpace c) eqn:Hc; cbn [andb].
  - destruct (step_take (RegExp.classMatches false [RegExp.CSpace false]) bef c rest [])
      as [cs' Hb]; [rewrite white_class; exact Hc|].
    rewrite Hb. cbn [RegExp.remaining RegExp.after].
    rewrite (greedy_to_end _ _ JsString.isWhiteSpace).
    + destruct (allOf _ rest); [|reflexivity]. cbn [List.length]. f_equal. lia.
    + intros. apply step_take. rewrite white_class. assumption.
    + intros. apply step_stop. rewrite white_class. assumption.
    + reflexivity.
    + reflexivity.
    + reflexivity.
    + lia.
  - rewrite step_stop by (rewrite white_class; exact Hc). reflexivity.
Qed.

(** The match of [trim] at the head of [s], if there is one: its length. *)
Lemma trim_at bef s :
  option_map RegExp.position (RegExp.m trim false (RegExp.mkState bef s []) Some)
  = option_map (fun n => List.length bef + n) (trimMatch bef s).
Proof.
  destruct s as [|c rest]; [rewrite trim_fails_end; reflexivity|].
  unfold trim. rewrite !m_alt.
  generalize (trim_spaces_at bef c rest).
  destruct (RegExp.m (RegExp.Seq (RegExp.Quant 1 None true (RegExp.Char 32)) _) false _ Some)
    as [e1|]; cbn [option_map trimMatch]; intros H1.
  { destruct (isSpace c && nextIsSpace rest); [|discriminate H1]. exact H1. }
  destruct (isSpace c && nextIsSpace rest); [discriminate H1|]. clear H1.
  rewrite (m_seq RegExp.AssertStart), m_assertStart. cbn [RegExp.before].
  destruct bef as [|b bef]; cbn [andb].
  - generalize (trim_white_at [] c rest).
    destruct (RegExp.m (RegExp.Quant 1 None true _) false _ Some) as [e2|];
      cbn [option_map]; intros H2.
    + destruct (JsString.isWhiteSpace c); [|discriminate H2]. exact H2.
    + destruct (JsString.isWhiteSpace c) eqn:Hc; [discriminate H2|]. cbn [andb].
      rewrite trim_white_end_at, Hc. reflexivity.
  - rewrite trim_white_end_at.
    destruct (JsString.isWhiteSpace c && allOf JsString.isWhiteSpace rest); reflexivity.
Qed.

Lemma replaceFrom_skip r f : forall n s bef,
  n <= String.length s -> n <> 0 \/ bef <> [] ->
  exists bef', bef' <> []
               /\ RegExp.replaceFrom r f bef s n
                  = RegExp.replaceFrom r f bef' (RegExp.drop n s) 0.
Proof.
  induction n as [|n IH]; intros s bef Hn Hb.
  - destruct Hb as [Hb|Hb]; [contradiction|]. exists bef. split; [exact Hb|].
    destruct s; reflexivity.
  - destruct s as [|c s]; [simpl in Hn; lia|].
    destruct (IH s (c :: bef)) as (bef' & Hne & E).
    + simpl in Hn. lia.
    + right. discriminate.
    + exists bef'. split; [exact Hne|]. cbn [RegExp.replaceFrom RegExp.drop]. exact E.
Qed.

Lemma drop_length n : forall s, String.length (RegExp.drop n s) <= String.length s.
Proof.
  induction n as [|n IH]; intros s; [destruct s; reflexivity|].
  destruct s as [|c s]; [reflexivity|]. cbn [RegExp.drop String.length].
  specialize (IH s). lia.
Qed.

Lemma drop_all s : RegExp.drop (String.length s) s = EmptyString.
Proof. induction s as [|c s IH]; [reflexivity|exact IH]. Qed.

Lemma run_le p s : run p s <= String.length s.
Proof.
  induction s as [|c s IH]; [reflexivity|]. cbn [run String.length].
  destruct (p c); lia.
Qed.

Lemma isSpace_white c : isSpace c = true -> JsString.isWhiteSpace c = true.
Proof. intros H. apply Ascii.eqb_eq in H. subst c. reflexivity. Qed.

Lemma squeeze_modeOf bef c rest :
  squeeze (modeOf bef) (String c rest)
  = if isSpace c && nextIsSpace rest then squeeze Inside rest
    else if (match bef with [] => true | _ => false end) && JsString.isWhiteSpace c
         then squeeze Leading rest
    else if JsString.isWhiteSpace c && allOf JsString.isWhiteSpace rest then EmptyString
    else String c (squeeze Inside rest).
Proof. destruct bef; reflexivity. Qed.

Lemma squeeze_drop_spaces : forall j s,
  j < run isSpace s -> squeeze Inside s = squeeze Inside (RegExp.drop j s).
Proof.
  induction j as [|j IH]; intros s H; [destruct s; reflexivity|].
  destruct s as [|c s]; [simpl in H; lia|].
  cbn [run] in H. destruct (isSpace c) eqn:Hc; [|lia].
  cbn [squeeze RegExp.drop]. rewrite Hc, nextIsSpace_run.
  destruct (run isSpace s) eqn:E; [lia|]. cbn [andb].
  apply IH. lia.
Qed.

Lemma squeeze_leading s :
  squeeze Leading s = squeeze Inside (RegExp.drop (run JsString.isWhiteSpace s) s).
Proof.
  induction s as [|c s IH]; [reflexivity|].
  cbn [squeeze run]. destruct (JsString.isWhiteSpace c) eqn:Hc.
  - cbn [RegExp.drop]. exact IH.
  - cbn [RegExp.drop squeeze]. rewrite Hc.
    destruct (isSpace c) eqn:Hs; [apply isSpace_white in Hs; congruence|].
    reflexivity.
Qed.

Lemma specialTrim_from n : forall s bef,
  String.length s <= n ->
  RegExp.replaceFrom trim (fun _ _ => EmptyString) bef s 0 = squeeze (modeOf bef) s.
Proof.
  induction n as [|n IH]; intros s bef Hn.
  - destruct s; [|simpl in Hn; lia]. cbn [RegExp.replaceFrom].
    rewrite trim_fails_end. reflexivity.
  - destruct s as [|c rest].
    { cbn [RegExp.replaceFrom]. rewrite trim_fails_end. reflexivity. }
    cbn [String.length] in Hn.
    rewrite squeeze_modeOf. cbn [RegExp.replaceFrom].
    generalize (trim_at bef (String c rest)).
    destruct (RegExp.m trim false _ Some) as [e|]; cbn [option_map trimMatch].
    + destruct (isSpace c && nextIsSpace rest) eqn:H1.
      { cbn [option_map]. intros H. injection H as ->.
        replace (List.length bef + run isSpace rest - List.length bef)
          with (run isSpace rest) by lia.
        apply andb_true_iff in H1. destruct H1 as [_ H1].
        rewrite nextIsSpace_run in H1.
        destruct (run isSpace rest) as [|j] eqn:E; [discriminate|].
        cbn [append].
        destruct (replaceFrom_skip trim (fun _ _ => EmptyString) j rest (c :: bef))
          as (bef' & Hne & ->).
        - generalize (run_le isSpace rest). lia.
        - right. discriminate.
        - rewrite IH by (generalize (drop_length j rest); lia).
          destruct bef'; [contradiction|]. cbn [modeOf].
          symmetry. apply squeeze_drop_spaces. lia. }
      destruct ((match bef with [] => true | _ => false end) && JsString.isWhiteSpace c)
        eqn:H2.
      { cbn [option_map]. intros H. injection H as ->.
        replace (List.length bef + S (run JsString.isWhiteSpace rest) - List.length bef)
          with (S (run JsString.isWhiteSpace rest)) by lia.
        cbn [append].
        destruct (replaceFrom_skip trim (fun _ _ => EmptyString)
                    (run JsString.isWhiteSpace rest) rest (c :: bef))
          as (bef' & Hne & ->).
        - apply run_le.
        - right. discriminate.
        - rewrite IH by (generalize (drop_length (run JsString.isWhiteSpace rest) rest); lia).
          destruct bef'; [contradiction|]. cbn [modeOf].
          symmetry. apply squeeze_leading. }
      destruct (JsString.isWhiteSpace c && allOf JsString.isWhiteSpace rest) eqn:H3.
      { cbn [option_map]. intros H. injection H as ->.
        replace (List.length bef + S (String.length rest) - List.length bef)
          with (S (String.length rest)) by lia.
        cbn [append].
        destruct (replaceFrom_skip trim (fun _ _ => EmptyString)
                    (String.length rest) rest (c :: bef))
          as (bef' & Hne & ->).
        - lia.
        - right. discriminate.
        - rewrite drop_all. cbn [RegExp.replaceFrom]. rewrite trim_fails_end.
          reflexivity. }
      discriminate.
    + destruct (isSpace c && nextIsSpace rest); [discriminate|].
      destruct ((match bef with [] => true | _ => false end) && JsString.isWhiteSpace c);
        [discriminate|].
      destruct (JsString.isWhiteSpace c && allOf JsString.isWhiteSpace rest);
        [discriminate|].
      intros _. rewrite IH by lia. reflexivity.
Qed.

(** X23: [specialTrim] drops every space that is followed by a space, the
    white space at the start of the string (unless the string starts with
    two spaces, which the first rule takes), and the white space that runs
    to the end of the string; it keeps every other code unit. *)
Theorem specialTrim_squeezes s : specialTrim s = squeeze AtStart s.
Proof. apply (specialTrim_from (String.length s)). lia. Qed.

Lemma nextIsSpace_inside rest :
  nextIsSpace rest = false -> nextIsSpace (squeeze Inside rest) = false.
Proof.
  destruct rest as [|d r]; [reflexivity|]. cbn [nextIsSpace squeeze]. intros Hd.
  rewrite Hd. cbn [andb].
  destruct (JsString.isWhiteSpace d && allOf JsString.isWhiteSpace r); [reflexivity|].
  exact Hd.
Qed.

Lemma squeeze_no_doubleSpace s : forall mode, doubleSpace (squeeze mode s) = false.
Proof.
  induction s as [|c rest IH]; intros mode; [reflexivity|].
  assert (Hkeep : isSpace c && nextIsSpace rest = false ->
                  doubleSpace (String c (squeeze Inside rest)) = false).
  { intros H. cbn [doubleSpace]. rewrite IH, orb_false_r.
    destruct (isSpace c); [|reflexivity]. cbn [andb] in *.
    apply nextIsSpace_inside. exact H. }
  destruct mode; cbn [squeeze].
  - destruct (isSpace c && nextIsSpace rest) eqn:H1; [apply IH|].
    cbn [andb]. destruct (JsString.isWhiteSpace c); [apply IH|].
    cbn [andb]. apply Hkeep. reflexivity.
  - destruct (JsString.isWhiteSpace c) eqn:Hc; [apply IH|].
    apply Hkeep. destruct (isSpace c) eqn:Hs; [|reflexivity].
    apply isSpace_white in Hs. congruence.
  - destruct (isSpace c && nextIsSpace rest) eqn:H1; [apply IH|].
    cbn [andb].
    destruct (JsString.isWhiteSpace c && allOf JsString.isWhiteSpace rest); [reflexivity|].
    apply Hkeep. reflexivity.
Qed.

Lemma squeeze_nonblank s : forall mode,
  mode <> AtStart -> allOf JsString.isWhiteSpace s = false -> squeeze mode s <> EmptyString.
Proof.
  induction s as [|c rest IH]; intros mode Hm H; [discriminate|].
  cbn [allOf] in H.
  destruct mode; [contradiction| |]; cbn [squeeze].
  - destruct (JsString.isWhiteSpace c); [|discriminate].
    apply IH; [discriminate|exact H].
  - destruct (isSpace c && nextIsSpace rest) eqn:H1.
    + apply andb_true_iff in H1. destruct H1 as [Hs _]. apply isSpace_white in Hs.
      rewrite Hs in H. apply IH; [discriminate|exact H].
    + cbn [andb]. rewrite H. discriminate.
Qed.

Lemma squeeze_no_trailing_white s : forall mode, endsWithWhite (squeeze mode s) = false.
Proof.
  induction s as [|c rest IH]; intros mode; [reflexivity|].
  assert (Hkeep : JsString.isWhiteSpace c && allOf JsString.isWhiteSpace rest = false ->
                  endsWithWhite (String c (squeeze Inside rest)) = false).
  { intros H. cbn [endsWithWhite].
    destruct (squeeze Inside rest) eqn:E; [|rewrite <- E; apply IH].
    destruct (JsString.isWhiteSpace c); [|reflexivity]. cbn [andb] in H.
    exfalso. revert E. apply squeeze_nonblank; [discriminate|exact H]. }
  destruct mode; cbn [squeeze].
  - destruct (isSpace c && nextIsSpace rest); [apply IH|].
    cbn [andb]. destruct (JsString.isWhiteSpace c) eqn:Hc; [apply IH|].
    cbn [andb]. apply Hkeep. reflexivity.
  - destruct (JsString.isWhiteSpace c) eqn:Hc; [apply IH|].
    apply Hkeep. reflexivity.
  - destruct (isSpace c && nextIsSpace rest); [apply IH|].
    destruct (JsString.isWhiteSpace c && allOf JsString.isWhiteSpace rest) eqn:H3;
      [reflexivity|].
    apply Hkeep. reflexivity.
Qed.

Lemma squeeze_leading_head s : startsWithWhite (squeeze Leading s) = false.
Proof.
  induction s as [|c rest IH]; [reflexivity|]. cbn [squeeze].
  destruct (JsString.isWhiteSpace c) eqn:Hc; [exact IH|]. exact Hc.
Qed.

Lemma squeeze_inside c rest :
  squeeze Inside (String c rest)
  = if isSpace c && nextIsSpace rest then squeeze Inside rest
    else if JsString.isWhiteSpace c && allOf JsString.isWhiteSpace rest then EmptyString
    else String c (squeeze Inside rest).
Proof. reflexivity. Qed.

Lemma squeeze_inside_space r : forall d,
  isSpace d = true ->
  startsWithWhite (squeeze Inside (String d r))
  = negb (allOf JsString.isWhiteSpace (String d r)).
Proof.
  induction r as [|d' r IH]; intros d Hd; assert (Hw := isSpace_white d Hd).
  - cbn [squeeze nextIsSpace allOf]. rewrite Hw, andb_false_r. reflexivity.
  - rewrite squeeze_inside. cbn [nextIsSpace]. rewrite Hd. cbn [andb].
    change (allOf JsString.isWhiteSpace (String d (String d' r)))
      with (JsString.isWhiteSpace d && allOf JsString.isWhiteSpace (String d' r)).
    rewrite Hw. cbn [andb].
    destruct (isSpace d') eqn:Hd'; [apply IH; exact Hd'|].
    destruct (allOf JsString.isWhiteSpace (String d' r)); [reflexivity|].
    cbn [startsWithWhite negb]. exact Hw.
Qed.

Lemma squeeze_head s :
  startsWithWhite (squeeze AtStart s)
  = startsWithTwoSpaces s && negb (allOf JsString.isWhiteSpace s).
Proof.
  destruct s as [|c rest]; [reflexivity|].
  cbn [squeeze startsWithTwoSpaces].
  destruct (isSpace c && nextIsSpace rest) eqn:H1.
  - apply andb_true_iff in H1. destruct H1 as [Hc Hn].
    destruct rest as [|d r]; [discriminate|]. cbn [nextIsSpace] in Hn.
    rewrite (squeeze_inside_space r d Hn). cbn [andb allOf].
    rewrite (isSpace_white c Hc). reflexivity.
  - cbn [andb]. destruct (JsString.isWhiteSpace c) eqn:Hc.
    + apply squeeze_leading_head.
    + cbn [andb startsWithWhite]. exact Hc.
Qed.

(** X24: the result of [specialTrim] never has two spaces in a row and never
    ends with white space. *)
Theorem specialTrim_leaves_single_spaces (s : string) :
  doubleSpace (specialTrim s) = false /\ endsWithWhite (specialTrim s) = false.
Proof.
  unfold specialTrim, RegExp.replace.
  rewrite (specialTrim_from (String.length s)) by lia.
  split; [apply squeeze_no_doubleSpace|apply squeeze_no_trailing_white].
Qed.

(** X25: the result of [specialTrim] starts with white space exactly when
    the string starts with two spaces and is not all white space: of those
    leading spaces one is left. *)
Theorem specialTrim_keeps_a_leading_space (s : string) :
  startsWithWhite (specialTrim s)
  = startsWithTwoSpaces s && negb (allOf JsString.isWhiteSpace s).
Proof.
  unfold specialTrim, RegExp.replace.
  rewrite (specialTrim_from (String.length s)) by lia.
  apply squeeze_head.
Qed.

(** ** Interpolation, in full *)

Lemma substitute_within (r1 r2 : string -> string) s : forall skip,
  (forall path, In path (placeholders s skip) -> r1 path = r2 path) ->
  substitute r1 s skip = substitute r2 s skip.
Proof.
  induction s as [|c s IH]; intros skip H; [reflexivity|].
  cbn [substitute placeholders] in *. destruct skip as [|skip]; [|apply IH; exact H].
  destruct (placeholderAt (String c s)) as [n|].
  - rewrite (H _ (or_introl eq_refl)). f_equal.
    apply IH. intros path Hp. apply H. right. exact Hp.
  - f_equal. apply IH. exact H.
Qed.

Lemma placeholders_skip s1 : forall s2,
  placeholders (s1 ++ s2) (String.length s1) = placeholders s2 0.
Proof.
  induction s1 as [|c s1 IH]; intros s2; simpl; [|apply IH].
  destruct s2; reflexivity.
Qed.

Lemma placeholders_head c s :
  placeholders (String c s) 0
  = match placeholderAt (String c s) with
    | Some n => substring 2 n (String c s) :: placeholders s (2 + n)
    | None => placeholders s 0
    end.
Proof. reflexivity. Qed.

Lemma placeholders_placeholder pre_ : forall path post_,
  opensPlaceholder pre_ = false -> contains "}" path = false ->
  placeholders (pre_ ++ "${" ++ path ++ "}" ++ post_) 0 = path :: placeholders post_ 0.
Proof.
  induction pre_ as [|c pre_ IH]; intros path post_ Hpre Hp.
  - change ("" ++ "${" ++ path ++ "}" ++ post_)
      with (String "$" (String "{" (path ++ String "}" post_))).
    rewrite placeholders_head.
    change (placeholderAt (String "$" (String "{" (path ++ String "}" post_))))
      with (closing (path ++ String "}" post_)).
    rewrite closing_first by exact Hp.
    cbn [substring append]. rewrite substring_prefix. f_equal.
    replace (String "{" (path ++ String "}" post_))
      with (("{" ++ path ++ "}") ++ post_)
      by (cbn [append]; rewrite append_assoc; reflexivity).
    replace (2 + String.length path) with (String.length ("{" ++ path ++ "}"))
      by (cbn [append String.length]; rewrite length_append; simpl; lia).
    apply placeholders_skip.
  - cbn [opensPlaceholder] in Hpre. apply orb_false_iff in Hpre.
    destruct Hpre as [Hc Hpre].
    change (String c pre_ ++ "${" ++ path ++ "}" ++ post_)
      with (String c (pre_ ++ "${" ++ path ++ "}" ++ post_)).
    rewrite placeholders_head.
    replace (placeholderAt (String c (pre_ ++ "${" ++ path ++ "}" ++ post_)))
      with (@None nat).
    + apply IH; assumption.
    + unfold placeholderAt. destruct pre_ as [|b pre_]; cbn [append].
      * destruct (Ascii.eqb c "$"); reflexivity.
      * destruct (Ascii.eqb c "$") eqn:Ec; [|reflexivity].
        cbn [JsString.startsWith andb] in Hc. rewrite andb_true_r in Hc.
        cbn [andb]. rewrite Ascii.eqb_sym, Hc. reflexivity.
Qed.

Lemma placeholders_plain s :
  opensPlaceholder s = false -> placeholders s 0 = [].
Proof.
  induction s as [|c s IH]; [reflexivity|].
  intros H. cbn [opensPlaceholder] in H. apply orb_false_iff in H.
  destruct H as [Hc H]. rewrite placeholders_head.
  replace (placeholderAt (String c s)) with (@None nat).
  - apply IH. exact H.
  - unfold placeholderAt. destruct s as [|b s]; [reflexivity|].
    destruct (Ascii.eqb c "$") eqn:Ec; [|reflexivity].
    cbn [JsString.startsWith andb] in Hc. rewrite andb_true_r in Hc.
    cbn [andb]. rewrite Ascii.eqb_sym, Hc. reflexivity.
Qed.

(** [applyContext] is the substitution of any rendering that agrees with
    its callback on the placeholders of the pattern. *)
Lemma applyContext_substitute context str render :
  (forall path, In path (placeholders str 0) ->
                replacer context ("${" ++ path ++ "}") = render path) ->
  applyContext str (Some context) = specialTrim (substitute render str 0).
Proof.
  intros H. unfold applyContext, RegExp.replace.
  rewrite replace_reDelimiters. f_equal.
  apply substitute_within. intros path Hp.
  rewrite <- replacer_placeholder. apply H. exact Hp.
Qed.

(** C7 as amended: without a context [applyContext] returns the pattern as
    it is.  With a context it replaces, from left to right, every [${path}]
    (up to the nearest [}]) by what its callback returns on it, keeps all
    other text, and passes the result through [specialTrim].  The callback
    returns [String(getValueFromPath(context, path))]: for a path [a.b]
    where [a] is an own property of the context that holds an object with
    an own property [b], the string form of that property when it has one,
    an array standing between braces; and the text [undefined] when [a] is
    no property of the context, or [b] none of that object, own or
    inherited.  [specialTrim] drops every space that is followed by a space, the white space at the
    very start of the string (unless the string starts with two spaces,
    which the first rule takes), and the white space that runs to the end
    of the string; it keeps every other code unit, and so changes nothing
    in a string without white space. *)
Theorem applyContext_replaces_placeholders :
  (forall str, applyContext str None = str)
  /\ (forall context str render,
        (forall path, In path (placeholders str 0) ->
                      replacer context ("${" ++ path ++ "}") = render path) ->
        applyContext str (Some context) = specialTrim (substitute render str 0))
  /\ (forall render pre_ path post_,
        opensPlaceholder pre_ = false -> contains "}" path = false ->
        placeholders (pre_ ++ "${" ++ path ++ "}" ++ post_) 0 = path :: placeholders post_ 0
        /\ substitute render (pre_ ++ "${" ++ path ++ "}" ++ post_) 0
           = pre_ ++ render path ++ substitute render post_ 0)
  /\ (forall render str,
        opensPlaceholder str = false ->
        placeholders str 0 = [] /\ substitute render str 0 = str)
  /\ (forall context props a b v,
        contains "." a = false -> contains "." b = false ->
        lookup a context = Some (VObj props) -> lookup b props = Some v ->
        printable v = true ->
        replacer context ("${" ++ (a ++ "." ++ b) ++ "}") = ToString (rendered v))
  /\ (forall context a b,
        contains "." a = false -> contains "." b = false ->
        lookup a context = None -> inheritedName a = false ->
        replacer context ("${" ++ (a ++ "." ++ b) ++ "}") = "undefined")
  /\ (forall context props a b,
        contains "." a = false -> contains "." b = false ->
        lookup a context = Some (VObj props) ->
        lookup b props = None -> inheritedName b = false ->
        replacer context ("${" ++ (a ++ "." ++ b) ++ "}") = "undefined")
  /\ (forall s, specialTrim s = squeeze AtStart s)
  /\ (forall s, noWhiteSpace s = true -> specialTrim s = s)
  /\ applyContext "user:${user.id}" (Some [("user", VObj [("id", VStr "42")])]) = "user:42"
  /\ applyContext "${a.b}" (Some []) = "undefined".
Proof.
  split; [reflexivity|].
  split; [intros context str render H; apply applyContext_substitute; exact H|].
  split.
  { intros render pre_ path post_ Hpre Hpath.
    split; [apply placeholders_placeholder|apply substitute_placeholder]; assumption. }
  split.
  { intros render str H.
    split; [apply placeholders_plain|apply substitute_plain]; exact H. }
  split.
  { intros context props a b v Ha Hb Hobj Hv _.
    rewrite replacer_placeholder, getValueFromPath_two_keys by assumption.
    assert (Hg1 : getProp (VObj context) a = VObj props)
      by (cbn [getProp]; rewrite Hobj; reflexivity).
    assert (Hg2 : getProp (VObj props) b = v)
      by (cbn [getProp]; rewrite Hv; reflexivity).
    rewrite Hg1. cbn [truthy]. rewrite Hg2. reflexivity. }
  split.
  { intros context a b Ha Hb Hmissing _.
    rewrite replacer_placeholder, getValueFromPath_two_keys by assumption.
    assert (Hg : getProp (VObj context) a = VUndefined)
      by (cbn [getProp]; rewrite Hmissing; reflexivity).
    rewrite Hg. reflexivity. }
  split.
  { intros context props a b Ha Hb Hobj Hmissing _.
    rewrite replacer_placeholder, getValueFromPath_two_keys by assumption.
    assert (Hg1 : getProp (VObj context) a = VObj props)
      by (cbn [getProp]; rewrite Hobj; reflexivity).
    assert (Hg2 : getProp (VObj props) b = VUndefined)
      by (cbn [getProp]; rewrite Hmissing; reflexivity).
    rewrite Hg1. cbn [truthy]. rewrite Hg2. reflexivity. }
  split; [intros s; apply (specialTrim_from (String.length s)); lia|].
  split; [intros s H; apply replace_trim_id; exact H|].
  split; vm_compute; reflexivity.
Qed.
